(** * simple.cc: the native-API example client of the inference server

    A shallow embedding of [src/servers/simple.cc]: the response-allocator
    callbacks [ResponseAlloc] and [ResponseRelease], the completion callback
    [InferComplete], and [main].

    - The heap, the handles held, and the effects (log lines, error lines,
      sleeps, allocations) are one explicit state, [World], threaded through
      a small monad with three outcomes: returned, exited, still running.
    - The engine behind the [TRTSERVER_*] calls is external. Its answers are
      an input, the record [Engine]; so are the results of [getopt].
    - The two [while (true)] loops take fuel, one unit per iteration. A run
      that is out of fuel is still running, it has not ended.
    - Parameters the functions never read ([allocator], [userp], [server])
      are left out. *)

From Stdlib Require Import ZArith NArith Lia List Ascii String.
From stdpp Require Import base option list gmap strings pretty.

Open Scope string_scope.
Open Scope list_scope.
Open Scope Z_scope.

(** ** The C++ heap *)

(** A non-null pointer is an address; [None] is [nullptr]. *)
Definition addr := positive.
Definition ptr := option addr.

(** Opaque engine handles main holds (the engine owns what is behind them). *)
Inductive Handle :=
| HServerOptions
| HServer
| HServerStatusPb
| HModelStatusPb (k : nat)
| HAllocator
| HRequestProvider
| HResponse
| HResponseHeaderPb.

(** What lives at an address: a [malloc]ed region, a [new std::string], or
    a [new std::promise<TRTSERVER_InferenceResponse*>]. *)
Inductive Block :=
| BMalloc (size : Z)
| BString (s : string)
| BPromise.

(** The effects a run leaves in the trace. *)
Inductive Event :=
| EvMalloc (size : Z) (r : ptr)
| EvFree (p : ptr)
| EvNewString (a : addr) (s : string)
| EvDeleteString (a : addr)
| EvNewPromise (a : addr)
| EvSetValue (a : addr) (v : option Handle)
| EvDeletePromise (a : addr)
| EvInfo (msg : string)
| EvError (msg : string)
| EvSleep (ms : Z).

(** [blocks]: the live heap objects. [shared]: the shared state of each
    promise ever created, keyed by the address it was created at; it
    outlives the promise object, as the future keeps it alive. [budget]:
    how many bytes [malloc] can still hand out. [handles]: the engine
    handles the program holds and has not yet deleted. [trace]: the
    effects so far, the most recent first. [undefined]: set once an
    operation outside its contract was executed (a [free] or [delete] of
    something not live, a second [set_value], deleting a handle that is
    not held). *)
Record World := mkWorld {
  blocks : gmap positive Block;
  shared : gmap positive (option (option Handle));
  budget : Z;
  handles : list Handle;
  trace : list Event;
  undefined : bool
}.

Definition emit (e : Event) (w : World) : World :=
  mkWorld (blocks w) (shared w) (budget w) (handles w) (e :: trace w) (undefined w).

Definition set_blocks (b : gmap positive Block) (w : World) : World :=
  mkWorld b (shared w) (budget w) (handles w) (trace w) (undefined w).

Definition set_shared (s : gmap positive (option (option Handle))) (w : World) : World :=
  mkWorld (blocks w) s (budget w) (handles w) (trace w) (undefined w).

Definition set_budget (n : Z) (w : World) : World :=
  mkWorld (blocks w) (shared w) n (handles w) (trace w) (undefined w).

Definition set_handles (l : list Handle) (w : World) : World :=
  mkWorld (blocks w) (shared w) (budget w) l (trace w) (undefined w).

Definition set_undefined (w : World) : World :=
  mkWorld (blocks w) (shared w) (budget w) (handles w) (trace w) true.

Definition empty_world (cap : Z) : World := mkWorld ∅ ∅ cap [] [] false.

(** The effects in the order they happened. *)
Definition history (w : World) : list Event := rev (trace w).

(** What was written to the error stream, oldest line first. *)
Definition stderr_lines (w : World) : list string :=
  omap (fun e => match e with EvError m => Some m | _ => None end) (history w).

(** An address no live object occupies. *)
Definition fresh_addr (w : World) : addr := fresh (dom (blocks w)).

(** [malloc(n)]: a fresh region of [n] bytes, or [nullptr] when the
    remaining budget does not cover it. *)
Definition malloc (n : Z) (w : World) : ptr * World :=
  if n <=? budget w then
    let a := fresh_addr w in
    (Some a, emit (EvMalloc n (Some a))
               (set_budget (budget w - n) (set_blocks (<[a := BMalloc n]> (blocks w)) w)))
  else (None, emit (EvMalloc n None) w).

(** [free(p)]: nothing for [nullptr]; the region goes away when [p] is a
    live [malloc]ed region; anything else is undefined. *)
Definition free (p : ptr) (w : World) : World :=
  match p with
  | None => emit (EvFree None) w
  | Some a =>
      match blocks w !! a with
      | Some (BMalloc n) =>
          emit (EvFree p) (set_budget (budget w + n) (set_blocks (delete a (blocks w)) w))
      | _ => emit (EvFree p) (set_undefined w)
      end
  end.

(** [new std::string(s)]. *)
Definition new_string (s : string) (w : World) : addr * World :=
  let a := fresh_addr w in
  (a, emit (EvNewString a s) (set_blocks (<[a := BString s]> (blocks w)) w)).

(** [*name] for a [std::string* name]. *)
Definition read_string (a : addr) (w : World) : string :=
  match blocks w !! a with
  | Some (BString s) => s
  | _ => EmptyString
  end.

(** [delete name] for a [std::string* name]. *)
Definition delete_string (a : addr) (w : World) : World :=
  match blocks w !! a with
  | Some (BString _) => emit (EvDeleteString a) (set_blocks (delete a (blocks w)) w)
  | _ => emit (EvDeleteString a) (set_undefined w)
  end.

(** ** The engine's C API types used by the callbacks *)

(** [TRTSERVER_Error*]: [None] is [nullptr], success. *)
Definition TRTSERVER_Error := option string.

(** Modelled from the spec: the enumeration [TRTSERVER_Memory_Type] of
    [src/core/trtserver.h], which is not among the sources. Section 6: host
    memory at least, and accelerator memory for an engine that has it. The
    first enumerator of a C enumeration has value 0. *)
Inductive TRTSERVER_Memory_Type :=
| TRTSERVER_MEMORY_CPU
| TRTSERVER_MEMORY_GPU.

#[global] Instance memory_type_eq_dec : EqDecision TRTSERVER_Memory_Type.
Proof. solve_decision. Defined.

#[global] Instance handle_eq_dec : EqDecision Handle.
Proof. solve_decision. Defined.

Definition memory_type_value (m : TRTSERVER_Memory_Type) : Z :=
  match m with
  | TRTSERVER_MEMORY_CPU => 0
  | TRTSERVER_MEMORY_GPU => 1
  end.

(** How [operator<<] shows a [void*]. *)
Definition show_ptr (p : ptr) : string :=
  match p with
  | None => "0"
  | Some a => "@" +:+ pretty (Zpos a)
  end.

(** ** ResponseAlloc (lines 56-81) *)

(** The out-parameters [*buffer] and [*buffer_userp], then the returned
    error. [size_t byte_size] is unsigned: callers pass [0 <= byte_size]. *)
Record AllocResult := mkAllocResult {
  ar_buffer : ptr;
  ar_buffer_userp : ptr;
  ar_error : TRTSERVER_Error
}.

Definition ResponseAlloc (tensor_name : string) (byte_size : Z)
    (memory_type : TRTSERVER_Memory_Type) (memory_type_id : Z)
    (w : World) : AllocResult * World :=
  if (byte_size =? 0) || bool_decide (memory_type = TRTSERVER_MEMORY_CPU) then
    let '(buffer, w1) :=
      if byte_size =? 0 then (None, w) else malloc byte_size w in
    let '(name, w2) := new_string tensor_name w1 in
    let w3 := emit (EvInfo ("allocated " +:+ pretty byte_size +:+
                            " bytes for result tensor " +:+ tensor_name)) w2 in
    (mkAllocResult buffer (Some name) None, w3)
  else
    let w1 := emit (EvInfo ("failed to allocated " +:+ pretty byte_size +:+
                            " bytes for result tensor " +:+ tensor_name)) w in
    (mkAllocResult None None None, w1).

(** ** ResponseRelease (lines 83-102) *)

Definition ResponseRelease (buffer : ptr) (buffer_userp : ptr) (byte_size : Z)
    (memory_type : TRTSERVER_Memory_Type) (memory_type_id : Z)
    (w : World) : TRTSERVER_Error * World :=
  let '(name, w1) :=
    match buffer_userp with
    | Some a => (a, w)
    | None => new_string "<unknown>" w
    end in
  let w2 := emit (EvInfo ("Releasing buffer " +:+ show_ptr buffer +:+ " of size " +:+
                          pretty byte_size +:+ " for result '" +:+
                          read_string name w1 +:+ "'")) w1 in
  let w3 := free buffer w2 in
  let w4 := delete_string name w3 in
  (None, w4).

(** ** InferComplete (lines 104-113) *)

(** [p->set_value(v)]: stores [v] in the shared state; on a promise that
    is not live, or whose state is already set, it is outside its contract. *)
Definition promise_set_value (a : addr) (v : option Handle) (w : World) : World :=
  match blocks w !! a, shared w !! a with
  | Some BPromise, Some None =>
      emit (EvSetValue a v) (set_shared (<[a := Some v]> (shared w)) w)
  | _, _ => emit (EvSetValue a v) (set_undefined w)
  end.

(** [delete p] for a [std::promise* p]. *)
Definition delete_promise (a : addr) (w : World) : World :=
  match blocks w !! a with
  | Some BPromise => emit (EvDeletePromise a) (set_blocks (delete a (blocks w)) w)
  | _ => emit (EvDeletePromise a) (set_undefined w)
  end.

(** [new std::promise<TRTSERVER_InferenceResponse*>()]. *)
Definition new_promise (w : World) : addr * World :=
  let a := fresh_addr w in
  (a, emit (EvNewPromise a)
        (set_shared (<[a := None]> (shared w)) (set_blocks (<[a := BPromise]> (blocks w)) w))).

(** [userp] is the promise main passed at submission. *)
Definition InferComplete (response : option Handle) (userp : addr) (w : World) : World :=
  let p := userp in
  let w1 := promise_set_value p response w in
  delete_promise p w1.

(** ** The request header (lines 258-273) *)

(** Modelled from the spec: [ni::InferRequestHeader] of
    [src/core/api.proto], which is not among the sources, with the fields
    section 6 lists and main sets: the id, the batch size, the ordered input
    descriptors and the ordered output descriptors, each with a name. *)
Record HeaderInput := mkHeaderInput { input_name : string }.
Record HeaderOutput := mkHeaderOutput { output_name : string }.

Record InferRequestHeader := mkInferRequestHeader {
  h_id : N;
  h_batch_size : N;
  h_input : list HeaderInput;
  h_output : list HeaderOutput
}.

Definition empty_header : InferRequestHeader := mkInferRequestHeader 0 0 [] [].

Definition set_id (v : N) (h : InferRequestHeader) : InferRequestHeader :=
  mkInferRequestHeader v (h_batch_size h) (h_input h) (h_output h).

Definition set_batch_size (v : N) (h : InferRequestHeader) : InferRequestHeader :=
  mkInferRequestHeader (h_id h) v (h_input h) (h_output h).

(** [add_input()] appends a default element and returns a pointer to it:
    here its index. *)
Definition add_input (h : InferRequestHeader) : nat * InferRequestHeader :=
  (length (h_input h), mkInferRequestHeader (h_id h) (h_batch_size h)
                       (h_input h ++ [mkHeaderInput EmptyString]) (h_output h)).

Definition add_output (h : InferRequestHeader) : nat * InferRequestHeader :=
  (length (h_output h), mkInferRequestHeader (h_id h) (h_batch_size h)
                        (h_input h) (h_output h ++ [mkHeaderOutput EmptyString])).

(** [input0->set_name(s)] through the pointer [add_input] returned. *)
Definition set_input_name (i : nat) (s : string) (h : InferRequestHeader) : InferRequestHeader :=
  mkInferRequestHeader (h_id h) (h_batch_size h) (<[i := mkHeaderInput s]> (h_input h)) (h_output h).

Definition set_output_name (i : nat) (s : string) (h : InferRequestHeader) : InferRequestHeader :=
  mkInferRequestHeader (h_id h) (h_batch_size h) (h_input h) (<[i := mkHeaderOutput s]> (h_output h)).

(** [input0->name()]. *)
Definition get_input_name (i : nat) (h : InferRequestHeader) : string :=
  from_option input_name EmptyString (h_input h !! i).

Definition get_output_name (i : nat) (h : InferRequestHeader) : string :=
  from_option output_name EmptyString (h_output h !! i).

(** The header main builds, with the pointers to its two inputs and two
    outputs. *)
Definition build_request_header : InferRequestHeader * (nat * nat) * (nat * nat) :=
  let request_header := empty_header in
  let request_header := set_id 123 request_header in
  let request_header := set_batch_size 1 request_header in
  let '(input0, request_header) := add_input request_header in
  let request_header := set_input_name input0 "INPUT0" request_header in
  let '(input1, request_header) := add_input request_header in
  let request_header := set_input_name input1 "INPUT1" request_header in
  let '(output0, request_header) := add_output request_header in
  let request_header := set_output_name output0 "OUTPUT0" request_header in
  let '(output1, request_header) := add_output request_header in
  let request_header := set_output_name output1 "OUTPUT1" request_header in
  (request_header, (input0, input1), (output0, output1)).

(** *** The wire encoding *)

(** A serialized message is a [std::string] of bytes; inside the codec it
    is the list of its bytes. *)
Definition bytes := list ascii.

Definition byte_of (n : N) : ascii := ascii_of_N n.

(** Modelled from the spec: the encoder and decoder generated from
    [src/core/api.proto] are not among the sources; section 6 names the
    encoding (a protocol-buffer message carrying the id, the batch size and
    the ordered input and output descriptors by name). This is the
    protocol-buffer wire format: base-128 varints, a key of field number
    and wire type per field, length-delimited strings and sub-messages,
    fields with the default value left out. The field numbers (batch size
    1, input 2, output 3, id 5; name 1 inside a descriptor) are the
    schema's and only need to be distinct. *)
Fixpoint varint_fuel (fuel : nat) (n : N) : bytes :=
  match fuel with
  | O => []
  | S fuel' =>
      if (n <? 128)%N then [byte_of n]
      else byte_of (n mod 128 + 128) :: varint_fuel fuel' (n / 128)
  end.

(** Ten groups of seven bits cover 64 bits. *)
Definition varint (n : N) : bytes := varint_fuel 10 n.

Definition wire_varint : N := 0.
Definition wire_len : N := 2.

Definition key (field wire : N) : bytes := varint (field * 8 + wire).

Definition varint_field (field v : N) : bytes :=
  if (v =? 0)%N then [] else key field wire_varint ++ varint v.

Definition len_field (field : N) (payload : bytes) : bytes :=
  key field wire_len ++ varint (N.of_nat (length payload)) ++ payload.

Definition string_field (field : N) (s : string) : bytes :=
  if bool_decide (s = EmptyString) then [] else len_field field (list_ascii_of_string s).

Definition encode_input (i : HeaderInput) : bytes := string_field 1 (input_name i).
Definition encode_output (o : HeaderOutput) : bytes := string_field 1 (output_name o).

Definition encode_header (h : InferRequestHeader) : bytes :=
  varint_field 1 (h_batch_size h)
  ++ concat (map (fun i => len_field 2 (encode_input i)) (h_input h))
  ++ concat (map (fun o => len_field 3 (encode_output o)) (h_output h))
  ++ varint_field 5 (h_id h).

(** The fields of a header in the order they are written. *)
Inductive FieldValue :=
| FVarint (v : N)
| FLen (payload : bytes).

Definition header_fields (h : InferRequestHeader) : list (N * FieldValue) :=
  (if (h_batch_size h =? 0)%N then [] else [(1%N, FVarint (h_batch_size h))])
  ++ map (fun i => (2%N, FLen (encode_input i))) (h_input h)
  ++ map (fun o => (3%N, FLen (encode_output o))) (h_output h)
  ++ (if (h_id h =? 0)%N then [] else [(5%N, FVarint (h_id h))]).

Definition encode_field (fv : N * FieldValue) : bytes :=
  match fv with
  | (f, FVarint v) => key f wire_varint ++ varint v
  | (f, FLen p) => len_field f p
  end.

(** Modelled from the spec:
    [request_header.SerializeToString(&request_header_serialized)], in the
    wire format above. *)
Definition SerializeToString (h : InferRequestHeader) : string :=
  string_of_list_ascii (encode_header h).

(** Reading a varint: at most ten bytes, the last one below 128. *)
Fixpoint read_varint (fuel : nat) (s : bytes) : option (N * bytes) :=
  match fuel, s with
  | S fuel', b :: rest =>
      let v := N_of_ascii b in
      if (v <? 128)%N then Some (v, rest)
      else
        match read_varint fuel' rest with
        | Some (hi, rest') => Some ((v - 128) + 128 * hi, rest')%N
        | None => None
        end
  | _, _ => None
  end.

(** One field: its number, and its value as a varint or as a payload. *)
Definition read_field (s : bytes) : option (N * FieldValue * bytes) :=
  match read_varint 10 s with
  | Some (k, rest) =>
      let field := (k / 8)%N in
      let wire := (k mod 8)%N in
      if (wire =? wire_varint)%N then
        match read_varint 10 rest with
        | Some (v, rest') => Some (field, FVarint v, rest')
        | None => None
        end
      else if (wire =? wire_len)%N then
        match read_varint 10 rest with
        | Some (len, rest') =>
            if (N.of_nat (length rest') <? len)%N then None
            else Some (field, FLen (take (N.to_nat len) rest'), drop (N.to_nat len) rest')
        | None => None
        end
      else None
  | None => None
  end.

(** All fields of a message, in wire order. The fuel is the number of
    bytes: each field takes at least one. *)
Fixpoint read_fields (fuel : nat) (s : bytes) : option (list (N * FieldValue)) :=
  match s with
  | [] => Some []
  | _ =>
      match fuel with
      | O => None
      | S fuel' =>
          match read_field s with
          | Some (f, v, rest) =>
              match read_fields fuel' rest with
              | Some fs => Some ((f, v) :: fs)
              | None => None
              end
          | None => None
          end
      end
  end.

(** A descriptor's name: the last occurrence of field 1 wins; other
    fields are skipped. *)
Definition decode_name (payload : bytes) : option string :=
  match read_fields (length payload) payload with
  | Some fs =>
      Some (fold_left (fun acc fv =>
                         match fv with
                         | (1%N, FLen p) => string_of_list_ascii p
                         | _ => acc
                         end) fs EmptyString)
  | None => None
  end.

Definition apply_field (acc : option InferRequestHeader) (fv : N * FieldValue)
    : option InferRequestHeader :=
  match acc with
  | None => None
  | Some h =>
      match fv with
      | (1%N, FVarint v) => Some (set_batch_size v h)
      | (5%N, FVarint v) => Some (set_id v h)
      | (2%N, FLen p) =>
          match decode_name p with
          | Some n => Some (mkInferRequestHeader (h_id h) (h_batch_size h)
                              (h_input h ++ [mkHeaderInput n]) (h_output h))
          | None => None
          end
      | (3%N, FLen p) =>
          match decode_name p with
          | Some n => Some (mkInferRequestHeader (h_id h) (h_batch_size h)
                              (h_input h) (h_output h ++ [mkHeaderOutput n]))
          | None => None
          end
      | _ => Some h
      end
  end.

Definition decode_header (s : bytes) : option InferRequestHeader :=
  match read_fields (length s) s with
  | Some fs => fold_left apply_field fs (Some empty_header)
  | None => None
  end.

(** Modelled from the spec: the consuming side, [ParseFromArray] on the
    bytes it was handed, as the inverse wire format: a parser that reads any
    sequence of varint and length-delimited fields, keeps the ones it knows
    and skips the others. *)
Definition ParseFromString (s : string) : option InferRequestHeader :=
  decode_header (list_ascii_of_string s).

(** ** Running the program *)

(** A computation either returns a value, or the process has exited with
    a status, or it has not finished within the steps it was given: a loop
    still polling, or a wait that is never answered. *)
Inductive Outcome (A : Type) : Type :=
| Ret (a : A) (w : World)
| Exit (status : Z) (w : World)
| Running (w : World).

Arguments Ret {A} a w.
Arguments Exit {A} status w.
Arguments Running {A} w.

Definition M (A : Type) : Type := World -> Outcome A.

Definition ret {A} (a : A) : M A := fun w => Ret a w.

Definition bind {A B} (m : M A) (f : A -> M B) : M B :=
  fun w =>
    match m w with
    | Ret a w' => f a w'
    | Exit c w' => Exit c w'
    | Running w' => Running w'
    end.

Notation "x <- m ;; k" := (bind m (fun x => k))
  (at level 100, m at next level, right associativity).
Notation "m ;;; k" := (bind m (fun _ => k))
  (at level 100, right associativity).

(** [exit(c)]. *)
Definition exit {A} (c : Z) : M A := fun w => Exit c w.

(** Modelled from the spec: [LOG_ERROR] and [LOG_INFO] of the logging
    header, which is not among the sources. Section 6: diagnostics go to the
    error stream; section 4.1: the rest is diagnostic logging. One line per
    statement. *)
Definition LOG_ERROR (msg : string) : M unit := fun w => Ret tt (emit (EvError msg) w).
Definition LOG_INFO (msg : string) : M unit := fun w => Ret tt (emit (EvInfo msg) w).

(** [std::this_thread::sleep_for(std::chrono::milliseconds(ms))]. *)
Definition sleep_for (ms : Z) : M unit := fun w => Ret tt (emit (EvSleep ms) w).

(** The world after [acquire h], and after [release h]. *)
Definition acquired (h : Handle) (w : World) : World :=
  set_handles (h :: handles w) w.

Definition released (h : Handle) (w : World) : World :=
  mkWorld (blocks w) (shared w) (budget w) (filter (fun x => x ≠ h) (handles w))
    (trace w) (undefined w || negb (bool_decide (h ∈ handles w))).

(** A handle the engine has just handed out, and one given back to it. *)
Definition acquire (h : Handle) : M unit := fun w => Ret tt (acquired h w).

Definition release (h : Handle) : M unit := fun w => Ret tt (released h w).

(** [for (i ...) body] over the given indices; a body that exits ends it. *)
Fixpoint for_each {A} (l : list A) (body : A -> M unit) : M unit :=
  match l with
  | [] => ret tt
  | i :: rest => body i ;;; for_each rest body
  end.

(** *** Usage (lines 43-54) *)

(** The characters a literal cannot hold here: the tab and the quote. *)
Definition tab : string := String (ascii_of_N 9) EmptyString.
Definition dquote : string := String (ascii_of_N 34) EmptyString.

Definition Usage (argv0 : string) (msg : string) : M unit :=
  (if bool_decide (msg = EmptyString) then ret tt else LOG_ERROR msg) ;;;
  LOG_ERROR ("Usage: " +:+ argv0 +:+ " [options]") ;;;
  LOG_ERROR (tab +:+ "-r [model repository absolute path]") ;;;
  exit 1.

(** *** FAIL and FAIL_IF_ERR *)

(** The answer of an engine call: the value of its out-parameters, or the
    message of the [TRTSERVER_Error] it returned. *)
Inductive Reply (A : Type) : Type :=
| Success (a : A)
| Failure (err : string).

Arguments Success {A} a.
Arguments Failure {A} err.

(** Modelled from the spec: the macros [FAIL] and [FAIL_IF_ERR] of
    [src/servers/common.h], which is not among the sources. Sections 6 and
    7: a failure writes a human-readable diagnostic to the error stream
    and the process exits with status 1. *)
Definition FAIL {A} (msg : string) : M A :=
  LOG_ERROR ("error: " +:+ msg) ;;; exit 1.

(** Modelled from the spec: [FAIL_IF_ERR(X, MSG)] runs the call [X] and
    does what [FAIL] does when it returns an error. *)
Definition FAIL_IF_ERR {A} (x : M (Reply A)) (msg : string) : M A :=
  r <- x ;;
  match r with
  | Success a => ret a
  | Failure err => LOG_ERROR ("error: " +:+ msg +:+ ": " +:+ err) ;;; exit 1
  end.

(** ** The engine *)

(** Modelled from the spec: [ni::ModelReadyState] of
    [src/core/server_status.proto], which is not among the sources. Section
    4.5: unavailable, loading, ready, unloading; and the state the engine
    does not know. *)
Inductive ModelReadyState :=
| MODEL_UNKNOWN
| MODEL_READY
| MODEL_UNAVAILABLE
| MODEL_LOADING
| MODEL_UNLOADING.

#[global] Instance ready_state_eq_dec : EqDecision ModelReadyState.
Proof. solve_decision. Defined.

Definition ModelReadyState_Name (s : ModelReadyState) : string :=
  match s with
  | MODEL_UNKNOWN => "MODEL_UNKNOWN"
  | MODEL_READY => "MODEL_READY"
  | MODEL_UNAVAILABLE => "MODEL_UNAVAILABLE"
  | MODEL_LOADING => "MODEL_LOADING"
  | MODEL_UNLOADING => "MODEL_UNLOADING"
  end.

(** Modelled from the spec: [ni::ServerStatus] of
    [src/core/server_status.proto]. Section 6: a table from model name to
    version to ready state. *)
Record ModelVersionStatus := mkModelVersionStatus { ready_state : ModelReadyState }.
Record ModelStatus := mkModelStatus { version_status : gmap Z ModelVersionStatus }.
Record ServerStatus := mkServerStatus { model_status : gmap string ModelStatus }.

(** What [TRTSERVER_InferenceResponseOutputData] hands back: the region
    [*base] points to, as its bytes ([*byte_size] is their number), and
    where it lives. *)
Record OutputData := mkOutputData {
  od_content : list Z;
  od_memory_type : TRTSERVER_Memory_Type
}.

Definition od_byte_size (o : OutputData) : Z := Z.of_nat (length (od_content o)).

(** The getopt results main's switch can see with the option string
    ["r:"]: ['r'] with its argument, or ['?']. *)
Inductive GetoptResult :=
| OptR (optarg : string)
| OptUnknown.

(** The engine is external: its answer to every call main makes is an
    input. Calls made in a loop are indexed by the iteration. A serialized
    protobuf is represented by what [ParseFromArray] makes of it, [None]
    when it does not parse. *)
Record Engine := mkEngine {
  e_options_new : Reply unit;
  e_set_model_repository_path : string -> Reply unit;
  e_server_new : Reply unit;
  e_options_delete : Reply unit;
  e_is_live : nat -> Reply bool;
  e_is_ready : nat -> Reply bool;
  e_server_status : Reply unit;
  e_server_status_serialize : Reply (option ServerStatus);
  e_server_status_delete : Reply unit;
  e_model_status : nat -> Reply unit;
  e_model_status_serialize : nat -> Reply (option ServerStatus);
  e_model_status_delete : nat -> Reply unit;
  e_allocator_new : Reply unit;
  e_provider_new : string -> Z -> string -> Reply unit;
  e_set_input_data : string -> list Z -> Z -> TRTSERVER_Memory_Type -> Reply unit;
  e_infer_async : Reply unit;
  e_provider_delete : Reply unit;
  e_response_status : Reply unit;
  e_response_header : Reply unit;
  e_response_header_serialize : Reply bool;
  e_response_header_delete : Reply unit;
  e_output_data : string -> Reply OutputData;
  e_response_delete : Reply unit;
  e_allocator_delete : Reply unit;
  e_server_delete : Reply unit
}.

(** A call that hands out a handle on success. *)
Definition call_new {A} (r : Reply A) (h : Handle) : M (Reply A) :=
  match r with
  | Success a => acquire h ;;; ret (Success a)
  | Failure err => ret (Failure err)
  end.

(** A call that gives a handle back. *)
Definition call_delete (r : Reply unit) (h : Handle) : M (Reply unit) :=
  release h ;;; ret r.

(** ** Fixed-width integers *)

(** [int32_t] arithmetic, the wrap-around written out. *)
Definition wrap32 (z : Z) : Z := (z + 2^31) mod 2^32 - 2^31.
Definition add32 (a b : Z) : Z := wrap32 (a + b).
Definition sub32 (a b : Z) : Z := wrap32 (a - b).

(** [reinterpret_cast<const int32_t*>(content)[i]]: four bytes, least
    significant first. *)
Definition int32_at (content : list Z) (i : nat) : Z :=
  let b (j : nat) := default 0 (content !! (4 * i + j)%nat) in
  wrap32 (b 0%nat + 2^8 * b 1%nat + 2^16 * b 2%nat + 2^24 * b 3%nat).

Definition sizeof_int32 : Z := 4.

(** ** main (lines 117-421) *)

Section Main.

Variable e : Engine.
Variable argv0 : string.

(** The getopt loop (lines 124-133), over the successive results of
    [getopt(argc, argv, "r:")] up to its [-1]. *)
Fixpoint parse_commandline (results : list GetoptResult) (model_repository_path : string)
    : M string :=
  match results with
  | [] => ret model_repository_path
  | OptR optarg :: rest => parse_commandline rest optarg
  | OptUnknown :: rest =>
      Usage argv0 EmptyString ;;; parse_commandline rest model_repository_path
  end.

(** Lines 139-154. *)
Definition create_server (model_repository_path : string) : M unit :=
  FAIL_IF_ERR (call_new (e_options_new e) HServerOptions) "creating server options" ;;;
  FAIL_IF_ERR (ret (e_set_model_repository_path e model_repository_path))
    "setting model repository path" ;;;
  FAIL_IF_ERR (call_new (e_server_new e) HServer) "creating server" ;;;
  FAIL_IF_ERR (call_delete (e_options_delete e) HServerOptions) "deleting server options".

(** Lines 156-176: [while (true)], one unit of fuel per iteration.
    [health_iters] is also the number of the poll. *)
Fixpoint wait_server_healthy (fuel : nat) (health_iters : nat) : M unit :=
  match fuel with
  | O => fun w => Running w
  | S fuel' =>
      live <- FAIL_IF_ERR (ret (e_is_live e health_iters)) "unable to get server liveness" ;;
      ready <- FAIL_IF_ERR (ret (e_is_ready e health_iters)) "unable to get server readiness" ;;
      LOG_INFO ("Server Health: live " +:+ pretty (Z.b2z live) +:+
                ", ready " +:+ pretty (Z.b2z ready)) ;;;
      if live && ready then ret tt
      else
        let health_iters := S health_iters in
        (if (10 <=? health_iters)%nat
         then FAIL "failed to find healthy inference server" else ret tt) ;;;
        sleep_for 500 ;;;
        wait_server_healthy fuel' health_iters
  end.

(** Lines 178-202. The [DebugString] line is not modelled. *)
Definition print_server_status : M unit :=
  FAIL_IF_ERR (call_new (e_server_status e) HServerStatusPb)
    "unable to get server status protobuf" ;;;
  parsed <- FAIL_IF_ERR (ret (e_server_status_serialize e))
    "unable to serialize server status protobuf" ;;
  match parsed with
  | None => FAIL "error: failed to parse server status"
  | Some server_status =>
      LOG_INFO "Server Status:" ;;;
      FAIL_IF_ERR (call_delete (e_server_status_delete e) HServerStatusPb)
        "deleting status protobuf"
  end.

(** Lines 204-243: [while (true)], one unit of fuel per iteration; [k]
    numbers the polls. *)
Fixpoint wait_model_ready (fuel : nat) (k : nat) : M unit :=
  match fuel with
  | O => fun w => Running w
  | S fuel' =>
      FAIL_IF_ERR (call_new (e_model_status e k) (HModelStatusPb k))
        "unable to get model status protobuf" ;;;
      parsed <- FAIL_IF_ERR (ret (e_model_status_serialize e k))
        "unable to serialize model status protobuf" ;;
      match parsed with
      | None => FAIL "error: failed to parse model status"
      | Some model_status' =>
          match model_status model_status' !! "simple" with
          | None => FAIL "unable to find status for model 'simple'"
          | Some itr =>
              match version_status itr !! 1 with
              | None => FAIL "unable to find version 1 status for model 'simple'"
              | Some vitr =>
                  LOG_INFO ("'simple' model is " +:+
                            ModelReadyState_Name (ready_state vitr)) ;;;
                  if bool_decide (ready_state vitr = MODEL_READY) then ret tt
                  else
                    FAIL_IF_ERR (call_delete (e_model_status_delete e k) (HModelStatusPb k))
                      "deleting status protobuf" ;;;
                    sleep_for 500 ;;;
                    wait_model_ready fuel' (S k)
              end
          end
      end
  end.

(** Lines 284-291: two zero-filled vectors of 16, then the loop. *)
Definition init_input_data : list Z * list Z :=
  fold_left (fun d i => (<[i := Z.of_nat i]> (fst d), <[i := 1]> (snd d)))
    (seq 0 16) (replicate 16 0, replicate 16 0).

(** The engine thread delivers the response: it calls the completion
    callback main registered, with the pointer main passed as [userp]. *)
Definition engine_completes (userp : addr) : M unit :=
  acquire HResponse ;;;
  fun w => Ret tt (InferComplete (Some HResponse) userp w).

(** [completed.get()]: the value in the shared state, once it is set. *)
Definition future_get (p : addr) : M (option Handle) :=
  fun w =>
    match shared w !! p with
    | Some (Some v) => Ret v w
    | _ => Running w
    end.

(** Lines 359-370 and 380-391. *)
Definition check_output_placement (which : string) (o : OutputData) : M unit :=
  if negb (od_byte_size o =? 16 * sizeof_int32) then
    FAIL ("unexpected " +:+ which +:+ " byte-size, expected " +:+
          pretty (16 * sizeof_int32) +:+ ", got " +:+ pretty (od_byte_size o))
  else if negb (bool_decide (od_memory_type o = TRTSERVER_MEMORY_CPU)) then
    FAIL ("unexpected " +:+ which +:+ " memory type, expected to be allocated " +:+
          "on CPU memory (" +:+ pretty (memory_type_value TRTSERVER_MEMORY_CPU) +:+
          "), got (" +:+ pretty (memory_type_value (od_memory_type o)) +:+ ")")
  else ret tt.

(** [v[i]] on a [std::vector<int32_t>]. *)
Definition at32 (v : list Z) (i : nat) : Z := default 0 (v !! i).

(** Lines 398-410. *)
Definition check_values (input0_data input1_data : list Z)
    (output0_result output1_result : list Z) (name0 name1 : string) : M unit :=
  for_each (seq 0 16) (fun i =>
    LOG_INFO (pretty (at32 input0_data i) +:+ " + " +:+ pretty (at32 input1_data i) +:+
              " = " +:+ pretty (int32_at output0_result i)) ;;;
    LOG_INFO (pretty (at32 input0_data i) +:+ " - " +:+ pretty (at32 input1_data i) +:+
              " = " +:+ pretty (int32_at output1_result i)) ;;;
    (if negb (add32 (at32 input0_data i) (at32 input1_data i) =? int32_at output0_result i)
     then FAIL ("incorrect sum in " +:+ name0) else ret tt) ;;;
    (if negb (sub32 (at32 input0_data i) (at32 input1_data i) =? int32_at output1_result i)
     then FAIL ("incorrect difference in " +:+ name1) else ret tt)).

(** Lines 245-319: the allocator, the request, the promise, the
    submission. Returns the promise. *)
Definition submit_request : M addr :=
  FAIL_IF_ERR (call_new (e_allocator_new e) HAllocator) "creating response allocator" ;;;
  let model_name := "simple" in
  let model_version := -1 in
  let '(request_header, (input0, input1), (output0, output1)) := build_request_header in
  let request_header_serialized := SerializeToString request_header in
  FAIL_IF_ERR (call_new (e_provider_new e model_name model_version request_header_serialized)
                 HRequestProvider)
    "creating inference request provider" ;;;
  let '(input0_data, input1_data) := init_input_data in
  FAIL_IF_ERR (ret (e_set_input_data e (get_input_name input0 request_header) input0_data
                      (Z.of_nat (length input0_data) * sizeof_int32) TRTSERVER_MEMORY_CPU))
    "assigning INPUT0 data" ;;;
  FAIL_IF_ERR (ret (e_set_input_data e (get_input_name input1 request_header) input1_data
                      (Z.of_nat (length input1_data) * sizeof_int32) TRTSERVER_MEMORY_CPU))
    "assigning INPUT1 data" ;;;
  p <- (fun w => let '(a, w') := new_promise w in Ret a w') ;;
  FAIL_IF_ERR (ret (e_infer_async e)) "running inference" ;;;
  FAIL_IF_ERR (call_delete (e_provider_delete e) HRequestProvider)
    "deleting inference request provider" ;;;
  ret p.

(** Lines 323-348: the status of the response and its header. *)
Definition print_response_header : M unit :=
  FAIL_IF_ERR (ret (e_response_status e)) "response" ;;;
  FAIL_IF_ERR (call_new (e_response_header e) HResponseHeaderPb)
    "unable to get response header protobuf" ;;;
  parsed <- FAIL_IF_ERR (ret (e_response_header_serialize e))
    "unable to serialize response header protobuf" ;;
  (if negb parsed then FAIL "error: failed to parse response header" else ret tt) ;;;
  LOG_INFO ("Model " +:+ dquote +:+ "simple" +:+ dquote +:+ " response header:") ;;;
  FAIL_IF_ERR (call_delete (e_response_header_delete e) HResponseHeaderPb)
    "deleting response protobuf".

(** Lines 350-410: the two outputs, their placement and their values;
    [request_header] and the input vectors are the locals of lines
    258-291. *)
Definition check_outputs : M unit :=
  let '(request_header, (input0, input1), (output0, output1)) := build_request_header in
  let '(input0_data, input1_data) := init_input_data in
  output0' <- FAIL_IF_ERR (ret (e_output_data e (get_output_name output0 request_header)))
    "getting output0 result" ;;
  check_output_placement "output0" output0' ;;;
  output1' <- FAIL_IF_ERR (ret (e_output_data e (get_output_name output1 request_header)))
    "getting output1 result" ;;
  check_output_placement "output1" output1' ;;;
  check_values input0_data input1_data (od_content output0') (od_content output1')
    (get_output_name output0 request_header) (get_output_name output1 request_header).

(** Lines 412-420. *)
Definition teardown : M Z :=
  FAIL_IF_ERR (call_delete (e_response_delete e) HResponse) "deleting inference response" ;;;
  FAIL_IF_ERR (call_delete (e_allocator_delete e) HAllocator) "deleting response allocator" ;;;
  ret 0.

(** Lines 245-420, from the allocator to [return 0]. Between the
    submission and the return of [completed.get()] the engine calls the
    completion callback. *)
Definition infer_and_check : M Z :=
  p <- submit_request ;;
  engine_completes p ;;;
  response <- future_get p ;;
  print_response_header ;;;
  check_outputs ;;;
  teardown.

(** [main]: with [return 0] the [shared_ptr] that owns the server goes
    out of scope and runs its deleter, [TRTSERVER_ServerDelete], whose
    result nobody looks at. [exit(1)] runs no destructor of main. *)
Definition main (fuel : nat) (results : list GetoptResult) : M Z :=
  model_repository_path <- parse_commandline results EmptyString ;;
  (if bool_decide (model_repository_path = EmptyString)
   then Usage argv0 "-r must be used to specify model repository path" else ret tt) ;;;
  create_server model_repository_path ;;;
  wait_server_healthy fuel 0 ;;;
  print_server_status ;;;
  wait_model_ready fuel 0 ;;;
  status <- infer_and_check ;;
  call_delete (e_server_delete e) HServer ;;;
  ret status.

End Main.

(** The status the process ends with, if it ends. *)
Definition exit_status {A} (o : Outcome A) (of_ret : A -> Z) : option Z :=
  match o with
  | Ret a _ => Some (of_ret a)
  | Exit c _ => Some c
  | Running _ => None
  end.

Definition final_world {A} (o : Outcome A) : World :=
  match o with
  | Ret _ w => w
  | Exit _ w => w
  | Running w => w
  end.

(** Running the program from an empty heap. *)
Definition run (e : Engine) (argv0 : string) (results : list GetoptResult) (fuel : nat)
    : Outcome Z :=
  main e argv0 fuel results (empty_world 0).

(** ** Concrete engines *)

(** An [int32_t] as its four bytes, least significant first. *)
Definition int32_bytes (z : Z) : list Z :=
  let u := z mod 2^32 in
  [u mod 2^8; (u / 2^8) mod 2^8; (u / 2^16) mod 2^8; (u / 2^24) mod 2^8].

Definition tensor_bytes (l : list Z) : list Z := concat (map int32_bytes l).

Definition status_of (s : ModelReadyState) : ServerStatus :=
  mkServerStatus {[ "simple" := mkModelStatus {[ 1 := mkModelVersionStatus s ]} ]}.

(** An engine that is healthy at once, has the model ready at the first
    poll, and computes the sum and the difference. *)
Definition good_engine : Engine := {|
  e_options_new := Success tt;
  e_set_model_repository_path := fun _ => Success tt;
  e_server_new := Success tt;
  e_options_delete := Success tt;
  e_is_live := fun _ => Success true;
  e_is_ready := fun _ => Success true;
  e_server_status := Success tt;
  e_server_status_serialize := Success (Some (status_of MODEL_READY));
  e_server_status_delete := Success tt;
  e_model_status := fun _ => Success tt;
  e_model_status_serialize := fun _ => Success (Some (status_of MODEL_READY));
  e_model_status_delete := fun _ => Success tt;
  e_allocator_new := Success tt;
  e_provider_new := fun _ _ _ => Success tt;
  e_set_input_data := fun _ _ _ _ => Success tt;
  e_infer_async := Success tt;
  e_provider_delete := Success tt;
  e_response_status := Success tt;
  e_response_header := Success tt;
  e_response_header_serialize := Success true;
  e_response_header_delete := Success tt;
  e_output_data := fun name =>
    if bool_decide (name = "OUTPUT0")
    then Success (mkOutputData (tensor_bytes (map (fun i => Z.of_nat i + 1) (seq 0 16)))
                    TRTSERVER_MEMORY_CPU)
    else Success (mkOutputData (tensor_bytes (map (fun i => Z.of_nat i - 1) (seq 0 16)))
                    TRTSERVER_MEMORY_CPU);
  e_response_delete := Success tt;
  e_allocator_delete := Success tt;
  e_server_delete := Success tt
|}.

(** An engine whose model is still loading at every poll; everything
    else is as in [good_engine]. *)
Definition never_ready_engine : Engine := {|
  e_options_new := Success tt;
  e_set_model_repository_path := fun _ => Success tt;
  e_server_new := Success tt;
  e_options_delete := Success tt;
  e_is_live := fun _ => Success true;
  e_is_ready := fun _ => Success true;
  e_server_status := Success tt;
  e_server_status_serialize := Success (Some (status_of MODEL_LOADING));
  e_server_status_delete := Success tt;
  e_model_status := fun _ => Success tt;
  e_model_status_serialize := fun _ => Success (Some (status_of MODEL_LOADING));
  e_model_status_delete := fun _ => Success tt;
  e_allocator_new := Success tt;
  e_provider_new := fun _ _ _ => Success tt;
  e_set_input_data := fun _ _ _ _ => Success tt;
  e_infer_async := Success tt;
  e_provider_delete := Success tt;
  e_response_status := Success tt;
  e_response_header := Success tt;
  e_response_header_serialize := Success true;
  e_response_header_delete := Success tt;
  e_output_data := e_output_data good_engine;
  e_response_delete := Success tt;
  e_allocator_delete := Success tt;
  e_server_delete := Success tt
|}.

(** [good_engine] with one answer replaced. *)
Definition with_server_new (r : Reply unit) (e : Engine) : Engine :=
  mkEngine (e_options_new e) (e_set_model_repository_path e) r (e_options_delete e)
    (e_is_live e) (e_is_ready e) (e_server_status e) (e_server_status_serialize e)
    (e_server_status_delete e) (e_model_status e) (e_model_status_serialize e)
    (e_model_status_delete e) (e_allocator_new e) (e_provider_new e) (e_set_input_data e)
    (e_infer_async e) (e_provider_delete e) (e_response_status e) (e_response_header e)
    (e_response_header_serialize e) (e_response_header_delete e) (e_output_data e)
    (e_response_delete e) (e_allocator_delete e) (e_server_delete e).

Definition with_server_delete (r : Reply unit) (e : Engine) : Engine :=
  mkEngine (e_options_new e) (e_set_model_repository_path e) (e_server_new e)
    (e_options_delete e)
    (e_is_live e) (e_is_ready e) (e_server_status e) (e_server_status_serialize e)
    (e_server_status_delete e) (e_model_status e) (e_model_status_serialize e)
    (e_model_status_delete e) (e_allocator_new e) (e_provider_new e) (e_set_input_data e)
    (e_infer_async e) (e_provider_delete e) (e_response_status e) (e_response_header e)
    (e_response_header_serialize e) (e_response_header_delete e) (e_output_data e)
    (e_response_delete e) (e_allocator_delete e) r.

(** ** Predicates on runs *)

(** [sat m w Q X R]: run from [w], [m] satisfies [Q] when it returns, [X]
    when it exits, [R] when it is still running. *)
Definition sat {A} (m : M A) (w : World)
    (Q : A -> World -> Prop) (X : Z -> World -> Prop) (R : World -> Prop) : Prop :=
  match m w with
  | Ret a w' => Q a w'
  | Exit c w' => X c w'
  | Running w' => R w'
  end.

(** [extends P t t']: [t'] is [t] with events in front that all satisfy
    [P]. *)
Inductive extends (P : Event -> Prop) (t : list Event) : list Event -> Prop :=
| extends_refl : extends P t t
| extends_cons ev t' : P ev -> extends P t t' -> extends P t (ev :: t').

(** Logging and sleeping. *)
Definition harmless (ev : Event) : Prop :=
  match ev with
  | EvInfo _ | EvSleep _ => True
  | _ => False
  end.

(** Logging, sleeping and writing to the error stream. *)
Definition quiet (ev : Event) : Prop :=
  match ev with
  | EvInfo _ | EvSleep _ | EvError _ => True
  | _ => False
  end.

Definition grows (t t' : list Event) : Prop := extends harmless t t'.

(** The last thing that happened is a line on the error stream. *)
Definition fails (t t' : list Event) : Prop :=
  exists msg t1, t' = EvError msg :: t1 /\ extends quiet t t1.

(** [region m C HR]: when [m] returns [a], [C a] holds, only logging and
    sleeping happened, the handles held before and after are related by
    [HR], and the heap is as before; when it exits, the status is 1 and
    the last event is a line on the error stream; while it runs, only
    logging and sleeping happened. *)
Definition region {A} (m : M A) (C : A -> Prop)
    (HR : list Handle -> list Handle -> Prop) : Prop :=
  forall w,
    sat m w
      (fun a w' => C a /\ grows (trace w) (trace w') /\ HR (handles w) (handles w') /\
                   blocks w' = blocks w /\ shared w' = shared w)
      (fun c w' => c = 1 /\ fails (trace w) (trace w'))
      (fun w' => grows (trace w) (trace w')).


(** A field that fits: a small field number, and either a 64-bit value or
    a payload shorter than 2^64 bytes. *)
Definition field_in_range (fv : N * FieldValue) : Prop :=
  (fv.1 < 2^32)%N /\
  match fv.2 with
  | FVarint v => (v < 2^64)%N
  | FLen p => (N.of_nat (length p) < 2^64)%N
  end.

(** What the codec can carry: a 64-bit id, a 32-bit batch size, names
    shorter than 2^32 bytes. *)
Definition header_in_range (h : InferRequestHeader) : Prop :=
  (h_id h < 2^64)%N /\ (h_batch_size h < 2^32)%N /\
  Forall (fun i => (N.of_nat (String.length (input_name i)) < 2^32)%N) (h_input h) /\
  Forall (fun o => (N.of_nat (String.length (output_name o)) < 2^32)%N) (h_output h).

(** The process has ended: it returned or exited. *)
Definition finished {A} (o : Outcome A) : Prop :=
  match o with
  | Running _ => False
  | _ => True
  end.

(** How often the program has slept. *)
Fixpoint sleep_count (t : list Event) : nat :=
  match t with
  | [] => 0
  | EvSleep _ :: t' => S (sleep_count t')
  | _ :: t' => sleep_count t'
  end.

(** [returns m a]: from every world, [m] returns [a]. *)
Definition returns {A} (m : M A) (a : A) : Prop :=
  forall w, exists w', m w = Ret a w'.

(** What a run may do to promises, most recent first: nothing; create the
    promise [p]; or create it and later resolve it and delete it, in this
    order and with nothing in between. Everything else it does is logging,
    sleeping and lines on the error stream. *)
Definition promise_events (evs : list Event) : Prop :=
  Forall quiet evs \/
  (exists p mid pre,
     evs = mid ++ EvNewPromise p :: pre /\ Forall quiet mid /\ Forall quiet pre) \/
  (exists p post mid pre,
     evs = post ++ EvDeletePromise p :: EvSetValue p (Some HResponse) ::
           mid ++ EvNewPromise p :: pre /\
     Forall quiet post /\ Forall quiet mid /\ Forall quiet pre).

(** ** What it means for every step to succeed *)

(** The path the getopt loop ends with: the argument of the last [-r]. *)
Definition repository_path (results : list GetoptResult) : string :=
  fold_left (fun acc r => match r with OptR optarg => optarg | OptUnknown => acc end)
    results EmptyString.

Definition arguments_ok (results : list GetoptResult) : Prop :=
  (OptUnknown ∉ results) /\ repository_path results ≠ EmptyString.

Definition server_created (e : Engine) (path : string) : Prop :=
  e_options_new e = Success tt /\
  e_set_model_repository_path e path = Success tt /\
  e_server_new e = Success tt /\
  e_options_delete e = Success tt.

(** The answers to the poll numbered [k]: both calls succeed, and the
    server is, or is not, live and ready. *)
Definition health_at (e : Engine) (k : nat) (healthy : bool) : Prop :=
  exists live ready,
    e_is_live e k = Success live /\ e_is_ready e k = Success ready /\
    (live && ready) = healthy.

Definition server_becomes_healthy (e : Engine) : Prop :=
  exists k, (k < 10)%nat /\ health_at e k true /\
            forall j, (j < k)%nat -> health_at e j false.

Definition server_status_printed (e : Engine) : Prop :=
  e_server_status e = Success tt /\
  (exists st, e_server_status_serialize e = Success (Some st)) /\
  e_server_status_delete e = Success tt.

(** The answers to the model poll numbered [k]: the status is handed
    out, parses, and has version 1 of model [simple] in state [s]. *)
Definition model_state_at (e : Engine) (k : nat) (s : ModelReadyState) : Prop :=
  e_model_status e k = Success tt /\
  exists st ms vs,
    e_model_status_serialize e k = Success (Some st) /\
    model_status st !! "simple" = Some ms /\
    version_status ms !! 1 = Some vs /\
    ready_state vs = s.

(** A poll that sees the model not ready, and gets its protobuf deleted. *)
Definition model_waiting_at (e : Engine) (j : nat) : Prop :=
  (exists s, s ≠ MODEL_READY /\ model_state_at e j s) /\
  e_model_status_delete e j = Success tt.

(** [k] is the poll that ends the loop: the first that sees the model
    ready. *)
Definition ready_at_poll (e : Engine) (k : nat) : Prop :=
  model_state_at e k MODEL_READY /\
  forall j, (j < k)%nat -> model_waiting_at e j.

Definition model_becomes_ready (e : Engine) : Prop :=
  exists k, ready_at_poll e k.

Definition request_submitted (e : Engine) : Prop :=
  e_allocator_new e = Success tt /\
  e_provider_new e "simple" (-1) (SerializeToString (fst (fst build_request_header)))
  = Success tt /\
  e_set_input_data e "INPUT0" (fst init_input_data) 64 TRTSERVER_MEMORY_CPU = Success tt /\
  e_set_input_data e "INPUT1" (snd init_input_data) 64 TRTSERVER_MEMORY_CPU = Success tt /\
  e_infer_async e = Success tt /\
  e_provider_delete e = Success tt.

Definition response_header_printed (e : Engine) : Prop :=
  e_response_status e = Success tt /\
  e_response_header e = Success tt /\
  e_response_header_serialize e = Success true /\
  e_response_header_delete e = Success tt.

(** The two outputs as the engine delivers them: host memory, 64 bytes
    each, and element by element the sum and the difference of the two
    inputs. *)
Definition outputs_correct (e : Engine) : Prop :=
  exists o0 o1,
    e_output_data e "OUTPUT0" = Success o0 /\
    e_output_data e "OUTPUT1" = Success o1 /\
    od_byte_size o0 = 64 /\ od_memory_type o0 = TRTSERVER_MEMORY_CPU /\
    od_byte_size o1 = 64 /\ od_memory_type o1 = TRTSERVER_MEMORY_CPU /\
    forall i, (i < 16)%nat ->
      int32_at (od_content o0) i
      = at32 (fst init_input_data) i + at32 (snd init_input_data) i /\
      int32_at (od_content o1) i
      = at32 (fst init_input_data) i - at32 (snd init_input_data) i.

Definition torn_down (e : Engine) : Prop :=
  e_response_delete e = Success tt /\ e_allocator_delete e = Success tt.

(** Every step main checks: the arguments, the start of the server, its
    health within ten polls, the model ready at some poll, the submission,
    the status and header of the response, the outputs, and the deletes
    main checks. [TRTSERVER_ServerDelete] is not among them. *)
Definition every_step_succeeds (e : Engine) (results : list GetoptResult) : Prop :=
  arguments_ok results /\
  server_created e (repository_path results) /\
  server_becomes_healthy e /\
  server_status_printed e /\
  model_becomes_ready e /\
  request_submitted e /\
  response_header_printed e /\
  outputs_correct e /\
  torn_down e.

(** ** Further vocabulary: arguments, the two loops, the heap *)

#[global] Instance getopt_result_eq_dec : EqDecision GetoptResult.
Proof. solve_decision. Defined.

(** The two lines [Usage] always writes. *)
Definition usage_lines (argv0 : string) : list string :=
  ["Usage: " +:+ argv0 +:+ " [options]"; tab +:+ "-r [model repository absolute path]"].

(** What main writes for arguments it does not accept. *)
Definition bad_arguments_lines (argv0 : string) (results : list GetoptResult) : list string :=
  (if bool_decide (OptUnknown ∈ results) then []
   else ["-r must be used to specify model repository path"]) ++ usage_lines argv0.

(** The world in which nothing has happened but these lines on the error
    stream. *)
Definition only_errors (lines : list string) : World :=
  mkWorld ∅ ∅ 0 [] (rev (map EvError lines)) false.

(** Two worlds that differ only in log lines and sleeps. *)
Definition same_resources (w w' : World) : Prop :=
  grows (trace w) (trace w') /\ handles w' = handles w /\ undefined w' = undefined w /\
  blocks w' = blocks w /\ shared w' = shared w.

(** The lines on the error stream a trace holds, oldest first. *)
Definition error_lines (t : list Event) : list string :=
  omap (fun e => match e with EvError m => Some m | _ => None end) (rev t).

(** A server that is live but never ready. *)
Definition never_healthy_engine : Engine :=
  mkEngine (e_options_new good_engine) (e_set_model_repository_path good_engine)
    (e_server_new good_engine) (e_options_delete good_engine)
    (fun _ => Success true) (fun _ => Success false)
    (e_server_status good_engine) (e_server_status_serialize good_engine)
    (e_server_status_delete good_engine) (e_model_status good_engine)
    (e_model_status_serialize good_engine) (e_model_status_delete good_engine)
    (e_allocator_new good_engine) (e_provider_new good_engine)
    (e_set_input_data good_engine) (e_infer_async good_engine)
    (e_provider_delete good_engine) (e_response_status good_engine)
    (e_response_header good_engine) (e_response_header_serialize good_engine)
    (e_response_header_delete good_engine) (e_output_data good_engine)
    (e_response_delete good_engine) (e_allocator_delete good_engine)
    (e_server_delete good_engine).

(** [e] with the answers of [TRTSERVER_ServerIsLive] replaced. *)
Definition with_is_live (f : nat -> Reply bool) (e : Engine) : Engine :=
  mkEngine (e_options_new e) (e_set_model_repository_path e) (e_server_new e)
    (e_options_delete e) f (e_is_ready e) (e_server_status e)
    (e_server_status_serialize e) (e_server_status_delete e) (e_model_status e)
    (e_model_status_serialize e) (e_model_status_delete e) (e_allocator_new e)
    (e_provider_new e) (e_set_input_data e) (e_infer_async e) (e_provider_delete e)
    (e_response_status e) (e_response_header e) (e_response_header_serialize e)
    (e_response_header_delete e) (e_output_data e) (e_response_delete e)
    (e_allocator_delete e) (e_server_delete e).

(** What the two lookups of lines 222-230 say about a status that lacks
    the model or its version 1. *)
Definition lookup_failure (st : ServerStatus) : option string :=
  match model_status st !! "simple" with
  | None => Some "unable to find status for model 'simple'"
  | Some ms =>
      match version_status ms !! 1 with
      | None => Some "unable to find version 1 status for model 'simple'"
      | Some _ => None
      end
  end.

(** An engine whose status table does not list the model. *)
Definition unlisted_model_engine : Engine :=
  mkEngine (e_options_new good_engine) (e_set_model_repository_path good_engine)
    (e_server_new good_engine) (e_options_delete good_engine)
    (e_is_live good_engine) (e_is_ready good_engine)
    (e_server_status good_engine) (e_server_status_serialize good_engine)
    (e_server_status_delete good_engine) (e_model_status good_engine)
    (fun _ => Success (Some (mkServerStatus ∅))) (e_model_status_delete good_engine)
    (e_allocator_new good_engine) (e_provider_new good_engine)
    (e_set_input_data good_engine) (e_infer_async good_engine)
    (e_provider_delete good_engine) (e_response_status good_engine)
    (e_response_header good_engine) (e_response_header_serialize good_engine)
    (e_response_header_delete good_engine) (e_output_data good_engine)
    (e_response_delete good_engine) (e_allocator_delete good_engine)
    (e_server_delete good_engine).

(** [tidy m Hin Hout Hexit]: run while holding the handles [Hin] and with
    nothing undefined so far, [m] stays within the contracts of what it
    calls; it leaves the heap as it found it; when it returns [a] it
    holds handles [Hout a] and has written nothing to the error stream;
    when it exits it holds handles [Hexit]. *)
Definition tidy {A} (m : M A) (Hin : list Handle)
    (Hout : A -> list Handle -> Prop) (Hexit : list Handle -> Prop) : Prop :=
  forall w, undefined w = false -> handles w = Hin ->
    sat m w
      (fun a w' => undefined w' = false /\ Hout a (handles w') /\
                   blocks w' = blocks w /\ stderr_lines w' = stderr_lines w)
      (fun c w' => undefined w' = false /\ Hexit (handles w'))
      (fun w' => undefined w' = false).

(** The handles a run may hold when it calls [exit]: none, the server
    options, or, once the server exists, at least the server. *)
Definition held_at_exit (H : list Handle) : Prop :=
  H = [] \/ H = [HServerOptions] \/ HServer ∈ H.

(** Everything up to the request succeeds. *)
Definition ready_to_infer (e : Engine) (results : list GetoptResult) : Prop :=
  arguments_ok results /\
  server_created e (repository_path results) /\
  server_becomes_healthy e /\
  server_status_printed e /\
  model_becomes_ready e.

(** The request is set up, and [TRTSERVER_ServerInferAsync] answers with
    the error [err]. *)
Definition request_rejected (e : Engine) (err : string) : Prop :=
  e_allocator_new e = Success tt /\
  e_provider_new e "simple" (-1) (SerializeToString (fst (fst build_request_header)))
  = Success tt /\
  e_set_input_data e "INPUT0" (fst init_input_data) 64 TRTSERVER_MEMORY_CPU = Success tt /\
  e_set_input_data e "INPUT1" (snd init_input_data) 64 TRTSERVER_MEMORY_CPU = Success tt /\
  e_infer_async e = Failure err.

(** [good_engine] with the answer of [TRTSERVER_ServerInferAsync] replaced. *)
Definition with_infer_async (r : Reply unit) (e : Engine) : Engine :=
  mkEngine (e_options_new e) (e_set_model_repository_path e) (e_server_new e)
    (e_options_delete e) (e_is_live e) (e_is_ready e) (e_server_status e)
    (e_server_status_serialize e) (e_server_status_delete e) (e_model_status e)
    (e_model_status_serialize e) (e_model_status_delete e) (e_allocator_new e)
    (e_provider_new e) (e_set_input_data e) r (e_provider_delete e)
    (e_response_status e) (e_response_header e) (e_response_header_serialize e)
    (e_response_header_delete e) (e_output_data e) (e_response_delete e)
    (e_allocator_delete e) (e_server_delete e).

(** What the two comparisons of lines 403-409 say about element [i]. *)
Definition value_error (in0 in1 out0 out1 : list Z) (name0 name1 : string) (i : nat)
    : option string :=
  if negb (add32 (at32 in0 i) (at32 in1 i) =? int32_at out0 i)
  then Some ("incorrect sum in " +:+ name0)
  else if negb (sub32 (at32 in0 i) (at32 in1 i) =? int32_at out1 i)
       then Some ("incorrect difference in " +:+ name1)
       else None.

(** How many lines the program has written to the standard output. *)
Fixpoint info_count (t : list Event) : nat :=
  match t with
  | [] => 0
  | EvInfo _ :: t' => S (info_count t')
  | _ :: t' => info_count t'
  end.

(** The body of the loop of lines 398-410. *)
Definition check_element (in0 in1 out0 out1 : list Z) (name0 name1 : string) (i : nat)
    : M unit :=
  LOG_INFO (pretty (at32 in0 i) +:+ " + " +:+ pretty (at32 in1 i) +:+
            " = " +:+ pretty (int32_at out0 i)) ;;;
  LOG_INFO (pretty (at32 in0 i) +:+ " - " +:+ pretty (at32 in1 i) +:+
            " = " +:+ pretty (int32_at out1 i)) ;;;
  (if negb (add32 (at32 in0 i) (at32 in1 i) =? int32_at out0 i)
   then FAIL ("incorrect sum in " +:+ name0) else ret tt) ;;;
  (if negb (sub32 (at32 in0 i) (at32 in1 i) =? int32_at out1 i)
   then FAIL ("incorrect difference in " +:+ name1) else ret tt).

(** The heap without what [p] points to. *)
Definition without (p : ptr) (m : gmap positive Block) : gmap positive Block :=
  match p with
  | Some a => delete a m
  | None => m
  end.

(** The size of the region [p] points to. *)
Definition region_size (p : ptr) (w : World) : Z :=
  match p with
  | Some a => match blocks w !! a with Some (BMalloc n) => n | _ => 0 end
  | None => 0
  end.

(** [p] is null or points to a live [malloc]ed region. *)
Definition valid_buffer (p : ptr) (w : World) : Prop :=
  match p with
  | Some a => exists n, blocks w !! a = Some (BMalloc n)
  | None => True
  end.

(** The heap with [b] at the place [p] points to. *)
Definition with_block (p : ptr) (b : Block) (m : gmap positive Block) : gmap positive Block :=
  match p with
  | Some a => <[a := b]> m
  | None => m
  end.

Definition not_live (p : ptr) (m : gmap positive Block) : Prop :=
  match p with
  | Some a => m !! a = None
  | None => True
  end.

(** [exits_with_line m]: from every world [m] returns or exits, it is
    never left running; when it returns it has written nothing to the error
    stream; when it exits, the status is 1 and it has added exactly one
    line to the error stream. *)
Definition exits_with_line {A} (m : M A) : Prop :=
  forall w,
    sat m w
      (fun _ w' => stderr_lines w' = stderr_lines w)
      (fun c w' => c = 1 /\ exists msg, stderr_lines w' = stderr_lines w ++ [msg])
      (fun _ => False).

(** [e] with the answers of [TRTSERVER_InferenceResponseOutputData]
    replaced. *)
Definition with_output_data (f : string -> Reply OutputData) (e : Engine) : Engine :=
  mkEngine (e_options_new e) (e_set_model_repository_path e) (e_server_new e)
    (e_options_delete e) (e_is_live e) (e_is_ready e) (e_server_status e)
    (e_server_status_serialize e) (e_server_status_delete e) (e_model_status e)
    (e_model_status_serialize e) (e_model_status_delete e) (e_allocator_new e)
    (e_provider_new e) (e_set_input_data e) (e_infer_async e) (e_provider_delete e)
    (e_response_status e) (e_response_header e) (e_response_header_serialize e)
    (e_response_header_delete e) f (e_response_delete e)
    (e_allocator_delete e) (e_server_delete e).

(** An engine that delivers both outputs as 60 bytes of device memory. *)
Definition misplaced_output_engine : Engine :=
  with_output_data (fun _ => Success (mkOutputData (replicate 60 0) TRTSERVER_MEMORY_GPU))
    good_engine.

(** * The allocator callbacks *)

Lemma fresh_addr_not_live (w : World) : blocks w !! fresh_addr w = None.
Proof.
  unfold fresh_addr. apply not_elem_of_dom. apply is_fresh.
Qed.

(** [malloc] hands out nothing that is live, and what it hands out is not
    where the next [new] lands. *)
Lemma malloc_spec (n : Z) (w : World) (p : ptr) (w' : World) :
  malloc n w = (p, w') ->
  trace w' = EvMalloc n p :: trace w /\ undefined w' = undefined w /\
  shared w' = shared w /\ handles w' = handles w /\
  match p with
  | Some a => blocks w !! a = None /\ blocks w' = <[a := BMalloc n]> (blocks w)
  | None => blocks w' = blocks w
  end.
Proof.
  unfold malloc. destruct (n <=? budget w); intros [= <- <-]; simpl.
  - repeat split; auto using fresh_addr_not_live.
  - repeat split.
Qed.

(** C3. With [byte_size == 0], [ResponseAlloc] returns success and a null
    buffer, calls no [malloc] (none of its effects is one, and the budget
    of the heap is untouched), and its token is a [std::string] it has just
    created, holding the tensor name. *)
Theorem ResponseAlloc_zero_size (tensor_name : string)
    (memory_type : TRTSERVER_Memory_Type) (memory_type_id : Z) (w : World) :
  let r := fst (ResponseAlloc tensor_name 0 memory_type memory_type_id w) in
  let w' := snd (ResponseAlloc tensor_name 0 memory_type memory_type_id w) in
  ar_error r = None /\ ar_buffer r = None /\
  (exists a, ar_buffer_userp r = Some a /\ blocks w !! a = None /\
             blocks w' !! a = Some (BString tensor_name)) /\
  budget w' = budget w /\
  (exists evs, trace w' = evs ++ trace w /\ forall n p, EvMalloc n p ∉ evs).
Proof.
  unfold ResponseAlloc. simpl.
  split; [reflexivity|]. split; [reflexivity|]. split.
  - exists (fresh_addr w). split; [reflexivity|].
    split; [apply fresh_addr_not_live|]. apply lookup_insert_eq.
  - split; [reflexivity|].
    eexists [_; _]. split; [reflexivity|].
    intros n p Hin. repeat (apply elem_of_cons in Hin as [Hin|Hin]; [discriminate|]).
    by apply elem_of_nil in Hin.
Qed.

(** C2, where it fails: with [byte_size == 0] and device memory the token
    is not null. *)
Lemma ResponseAlloc_unsupported_zero_size_token :
  let r := fst (ResponseAlloc "OUTPUT0" 0 TRTSERVER_MEMORY_GPU 0 (empty_world 0)) in
  ~ (ar_buffer r = None /\ ar_buffer_userp r = None /\ ar_error r = None).
Proof.
  vm_compute. intros (_ & H & _). discriminate H.
Qed.

(** C2, amended. With a memory type other than CPU and a [byte_size] that
    is not zero, [ResponseAlloc] returns a null buffer, a null token and
    success, and leaves the heap as it was. *)
Theorem ResponseAlloc_unsupported_memory_type (tensor_name : string) (byte_size : Z)
    (memory_type : TRTSERVER_Memory_Type) (memory_type_id : Z) (w : World) :
  memory_type ≠ TRTSERVER_MEMORY_CPU ->
  byte_size ≠ 0 ->
  let r := fst (ResponseAlloc tensor_name byte_size memory_type memory_type_id w) in
  let w' := snd (ResponseAlloc tensor_name byte_size memory_type memory_type_id w) in
  ar_buffer r = None /\ ar_buffer_userp r = None /\ ar_error r = None /\
  blocks w' = blocks w /\ budget w' = budget w.
Proof.
  intros Hmt Hsz. unfold ResponseAlloc.
  destruct (Z.eqb_spec byte_size 0) as [?|_]; [contradiction|].
  rewrite bool_decide_eq_false_2 by assumption. simpl. repeat split.
Qed.

Lemma ResponseAlloc_unsupported_memory_type_witness :
  let r := fst (ResponseAlloc "OUTPUT0" 64 TRTSERVER_MEMORY_GPU 0 (empty_world 1000)) in
  ar_buffer r = None /\ ar_buffer_userp r = None /\ ar_error r = None.
Proof.
  pose proof (ResponseAlloc_unsupported_memory_type "OUTPUT0" 64 TRTSERVER_MEMORY_GPU 0
                (empty_world 1000)) as H.
  simpl in H. destruct H as (H1 & H2 & H3 & _); [discriminate | lia |].
  simpl. auto.
Defined.

(** C10. [ResponseAlloc] returns success on every input, and when the
    buffer it hands out is not null its token is a [std::string] it has
    just created (at an address that held nothing before), equal to the
    tensor name; [ResponseRelease] returns success on every input. *)
Theorem callbacks_always_succeed :
  (forall tensor_name byte_size memory_type memory_type_id w,
     let r := fst (ResponseAlloc tensor_name byte_size memory_type memory_type_id w) in
     let w' := snd (ResponseAlloc tensor_name byte_size memory_type memory_type_id w) in
     ar_error r = None /\
     (ar_buffer r ≠ None ->
      exists a, ar_buffer_userp r = Some a /\ ar_buffer r ≠ Some a /\
                blocks w !! a = None /\ blocks w' !! a = Some (BString tensor_name))) /\
  (forall buffer buffer_userp byte_size memory_type memory_type_id w,
     fst (ResponseRelease buffer buffer_userp byte_size memory_type memory_type_id w) = None).
Proof.
  split.
  - intros tensor_name byte_size memory_type memory_type_id w. unfold ResponseAlloc.
    destruct (byte_size =? 0) eqn:Hz; simpl.
    + split; [reflexivity|]. intros H. by destruct H.
    + destruct (bool_decide (memory_type = TRTSERVER_MEMORY_CPU)); simpl.
      * destruct (malloc byte_size w) as [buffer w1] eqn:Hm.
        apply malloc_spec in Hm as (_ & _ & _ & _ & Hb).
        simpl. split; [reflexivity|]. intros Hnn.
        destruct buffer as [b|]; [|by destruct Hnn]. destruct Hb as [Hfree Hb].
        pose proof (fresh_addr_not_live w1) as Hf. rewrite Hb in Hf.
        exists (fresh_addr w1). split; [reflexivity|].
        assert (b ≠ fresh_addr w1) as Hne.
        { intros ->. by rewrite lookup_insert_eq in Hf. }
        split; [congruence|]. split.
        -- by rewrite lookup_insert_ne in Hf.
        -- apply lookup_insert_eq.
      * split; [reflexivity|]. intros H. by destruct H.
  - intros buffer buffer_userp byte_size memory_type memory_type_id w.
    unfold ResponseRelease. by destruct buffer_userp.
Qed.

Lemma callbacks_always_succeed_witness :
  exists a,
    ar_buffer_userp (fst (ResponseAlloc "OUTPUT0" 64 TRTSERVER_MEMORY_CPU 0 (empty_world 1000)))
    = Some a /\
    blocks (snd (ResponseAlloc "OUTPUT0" 64 TRTSERVER_MEMORY_CPU 0 (empty_world 1000))) !! a
    = Some (BString "OUTPUT0").
Proof.
  destruct (proj2 (proj1 callbacks_always_succeed "OUTPUT0" 64 TRTSERVER_MEMORY_CPU 0
                     (empty_world 1000))) as (a & Ha & _ & _ & Hb).
  - vm_compute. discriminate.
  - exists a. split; assumption.
Defined.

(** C6. With a null token [ResponseRelease] creates the placeholder
    [<unknown>], shows it in its message, calls [free] on the buffer,
    deletes the placeholder again and returns success. When the buffer is
    null or a live [malloc]ed region, the heap afterwards is the heap
    before without that region, and nothing outside a contract happened. *)
Theorem ResponseRelease_null_token (buffer : ptr) (byte_size : Z)
    (memory_type : TRTSERVER_Memory_Type) (memory_type_id : Z) (w : World) :
  let err := fst (ResponseRelease buffer None byte_size memory_type memory_type_id w) in
  let w' := snd (ResponseRelease buffer None byte_size memory_type memory_type_id w) in
  err = None /\
  (exists a,
     trace w' =
       [EvDeleteString a; EvFree buffer;
        EvInfo ("Releasing buffer " +:+ show_ptr buffer +:+ " of size " +:+
                pretty byte_size +:+ " for result '" +:+ "<unknown>" +:+ "'");
        EvNewString a "<unknown>"] ++ trace w) /\
  (forall b n, buffer = Some b -> blocks w !! b = Some (BMalloc n) ->
     blocks w' = delete b (blocks w) /\ undefined w' = undefined w) /\
  (buffer = None -> blocks w' = blocks w /\ undefined w' = undefined w).
Proof.
  pose proof (fresh_addr_not_live w) as Hfresh.
  unfold ResponseRelease, new_string, read_string. simpl.
  rewrite lookup_insert_eq. set (a := fresh_addr w) in *.
  split; [reflexivity|]. split; [|split].
  - exists a. destruct buffer as [b|]; simpl.
    + destruct (decide (a = b)) as [<-|Hne].
      * rewrite lookup_insert_eq. simpl.
        unfold delete_string. simpl. rewrite lookup_insert_eq. reflexivity.
      * rewrite lookup_insert_ne by done.
        destruct (blocks w !! b) as [[n|s|]|] eqn:Hb; simpl;
          unfold delete_string; simpl;
          rewrite ?lookup_delete_ne by done; rewrite lookup_insert_eq; reflexivity.
    + unfold delete_string. simpl. rewrite lookup_insert_eq. reflexivity.
  - intros b n -> Hb. simpl.
    assert (a ≠ b) as Hne by congruence.
    rewrite lookup_insert_ne, Hb by done. simpl.
    unfold delete_string. simpl.
    rewrite lookup_delete_ne, lookup_insert_eq by done. simpl. split; [|reflexivity].
    rewrite delete_delete, delete_insert_id by done. reflexivity.
  - intros ->. simpl. unfold delete_string. simpl. rewrite lookup_insert_eq. simpl.
    split; [|reflexivity]. by rewrite delete_insert_id.
Qed.

Lemma ResponseRelease_null_token_witness :
  let w := snd (ResponseAlloc "OUTPUT0" 64 TRTSERVER_MEMORY_CPU 0 (empty_world 1000)) in
  blocks (snd (ResponseRelease (Some 1%positive) None 64 TRTSERVER_MEMORY_CPU 0 w))
  = delete 1%positive (blocks w).
Proof.
  intros w.
  apply (proj1 (proj2 (proj2 (ResponseRelease_null_token (Some 1%positive) 64
                                TRTSERVER_MEMORY_CPU 0 w))) 1%positive 64).
  - reflexivity.
  - vm_compute. reflexivity.
Defined.

(** * Reasoning about runs *)

Lemma sat_bind {A B} (m : M A) (f : A -> M B) w Q X R :
  sat m w (fun a w' => sat (f a) w' Q X R) X R -> sat (bind m f) w Q X R.
Proof. unfold sat, bind. destruct (m w); auto. Qed.

Lemma sat_mono {A} (m : M A) w (Q Q' : A -> World -> Prop) (X X' : Z -> World -> Prop)
    (R R' : World -> Prop) :
  sat m w Q X R ->
  (forall a w', Q a w' -> Q' a w') -> (forall c w', X c w' -> X' c w') ->
  (forall w', R w' -> R' w') ->
  sat m w Q' X' R'.
Proof. unfold sat. destruct (m w); auto. Qed.

Lemma sat_ret {A} (a : A) w Q X R : Q a w -> sat (ret a) w Q X R.
Proof. auto. Qed.

Lemma sat_LOG_INFO msg w Q X R :
  Q tt (emit (EvInfo msg) w) -> sat (LOG_INFO msg) w Q X R.
Proof. auto. Qed.

Lemma sat_LOG_ERROR msg w Q X R :
  Q tt (emit (EvError msg) w) -> sat (LOG_ERROR msg) w Q X R.
Proof. auto. Qed.

Lemma sat_sleep_for ms w Q X R :
  Q tt (emit (EvSleep ms) w) -> sat (sleep_for ms) w Q X R.
Proof. auto. Qed.

Lemma sat_FAIL {A} msg w (Q : A -> World -> Prop) X R :
  X 1 (emit (EvError ("error: " +:+ msg)) w) -> sat (FAIL msg) w Q X R.
Proof. auto. Qed.

Lemma sat_FAIL_IF_ERR_ret {A} (r : Reply A) msg w Q X R :
  match r with
  | Success a => Q a w
  | Failure err => X 1 (emit (EvError ("error: " +:+ msg +:+ ": " +:+ err)) w)
  end ->
  sat (FAIL_IF_ERR (ret r) msg) w Q X R.
Proof. destruct r; auto. Qed.

Lemma sat_FAIL_IF_ERR_new {A} (r : Reply A) h msg w Q X R :
  match r with
  | Success a => Q a (acquired h w)
  | Failure err => X 1 (emit (EvError ("error: " +:+ msg +:+ ": " +:+ err)) w)
  end ->
  sat (FAIL_IF_ERR (call_new r h) msg) w Q X R.
Proof. destruct r; auto. Qed.

Lemma sat_FAIL_IF_ERR_delete (r : Reply unit) h msg w Q X R :
  match r with
  | Success a => Q a (released h w)
  | Failure err =>
      X 1 (emit (EvError ("error: " +:+ msg +:+ ": " +:+ err)) (released h w))
  end ->
  sat (FAIL_IF_ERR (call_delete r h) msg) w Q X R.
Proof. destruct r; auto. Qed.

(** *** How a trace grows *)

Lemma extends_app P t t' :
  extends P t t' <-> exists evs, t' = evs ++ t /\ Forall P evs.
Proof.
  split.
  - induction 1 as [|ev t' Hev _ (evs & -> & Hall)].
    + by exists [].
    + exists (ev :: evs). split; [reflexivity | by constructor].
  - intros (evs & -> & Hall). induction Hall; simpl; by constructor.
Qed.

Lemma extends_trans P t1 t2 t3 :
  extends P t1 t2 -> extends P t2 t3 -> extends P t1 t3.
Proof. intros H12 H23. induction H23; [assumption | by constructor]. Qed.

Lemma extends_weaken (P P' : Event -> Prop) t t' :
  (forall ev, P ev -> P' ev) -> extends P t t' -> extends P' t t'.
Proof. intros HP. induction 1; constructor; auto. Qed.

Lemma harmless_quiet ev : harmless ev -> quiet ev.
Proof. by destruct ev. Qed.

Lemma grows_refl t : grows t t.
Proof. constructor. Qed.

Lemma grows_info t t' msg : grows t t' -> grows t (EvInfo msg :: t').
Proof. by constructor. Qed.

Lemma grows_sleep t t' ms : grows t t' -> grows t (EvSleep ms :: t').
Proof. by constructor. Qed.

Lemma fails_error t t' msg : grows t t' -> fails t (EvError msg :: t').
Proof.
  intros H. exists msg, t'. split; [reflexivity|].
  eapply extends_weaken; [apply harmless_quiet | exact H].
Qed.

Lemma fails_after t1 t2 t3 : grows t1 t2 -> fails t2 t3 -> fails t1 t3.
Proof.
  intros H12 (msg & t & -> & H). exists msg, t. split; [reflexivity|].
  eapply extends_trans; [|exact H].
  eapply extends_weaken; [apply harmless_quiet | exact H12].
Qed.

Lemma grows_trans t1 t2 t3 : grows t1 t2 -> grows t2 t3 -> grows t1 t3.
Proof. apply extends_trans. Qed.

Create HintDb run.
#[local] Hint Resolve grows_refl grows_info grows_sleep fails_error : run.

(** *** What a region of main guarantees *)

Lemma region_bind {A B} (m : M A) (f : A -> M B) C1 C2 HR1 HR2 :
  region m C1 HR1 ->
  (forall a, C1 a -> region (f a) (C2 a) HR2) ->
  region (bind m f) (fun b => exists a, C1 a /\ C2 a b)
    (fun h h'' => exists h', HR1 h h' /\ HR2 h' h'').
Proof.
  intros Hm Hf w. apply sat_bind. eapply sat_mono; [apply Hm | | auto ..].
  intros a w1 (Ha & Hg & Hh & Hb & Hs). simpl.
  eapply sat_mono; [apply (Hf a Ha) | | |]; simpl.
  - intros b w2 (Hb2 & Hg2 & Hh2 & Hb' & Hs'). repeat split; eauto using grows_trans.
    all: congruence.
  - intros c w2 (-> & Hfail). eauto using fails_after.
  - intros w2 Hg2. eauto using grows_trans.
Qed.

Lemma region_weaken {A} (m : M A) (C C' : A -> Prop)
    (HR HR' : list Handle -> list Handle -> Prop) :
  region m C HR -> (forall a, C a -> C' a) -> (forall h h', HR h h' -> HR' h h') ->
  region m C' HR'.
Proof.
  intros Hm HC HH w. eapply sat_mono; [apply Hm | | auto ..].
  simpl. intros a w' (? & ? & ? & ? & ?). auto 6.
Qed.

Ltac world_simpl :=
  cbn [trace handles blocks shared undefined budget emit set_handles set_blocks
       set_shared set_undefined acquired released] in *.

(** ** The completion callback *)

Lemma InferComplete_trace response p w :
  trace (InferComplete response p w)
  = EvDeletePromise p :: EvSetValue p response :: trace w.
Proof.
  unfold InferComplete, promise_set_value, delete_promise.
  destruct (blocks w !! p) as [[| |]|]; [| |destruct (shared w !! p) as [[|]|]|];
    world_simpl;
    match goal with |- context [match ?x with _ => _ end] => destruct x as [[| |]|] end;
    reflexivity.
Qed.

Lemma InferComplete_spec response p w :
  blocks w !! p = Some BPromise ->
  shared w !! p = Some None ->
  InferComplete response p w
  = mkWorld (delete p (blocks w)) (<[p := Some response]> (shared w)) (budget w)
      (handles w) (EvDeletePromise p :: EvSetValue p response :: trace w) (undefined w).
Proof.
  intros Hb Hs. unfold InferComplete, promise_set_value, delete_promise.
  rewrite Hb, Hs. world_simpl. rewrite Hb. reflexivity.
Qed.

(** *** Stepping through a region *)

Ltac exit_goal := split; [reflexivity | world_simpl; auto 10 with run].

Ltac run_step :=
  lazymatch goal with
  | |- sat (bind _ _) _ _ _ _ => apply sat_bind
  | |- sat (FAIL_IF_ERR (ret ?r) _) _ _ _ _ =>
      apply sat_FAIL_IF_ERR_ret; destruct r as [?|?] eqn:?; [cbv beta | exit_goal]
  | |- sat (FAIL_IF_ERR (call_new ?r _) _) _ _ _ _ =>
      apply sat_FAIL_IF_ERR_new; destruct r as [?|?] eqn:?; [cbv beta | exit_goal]
  | |- sat (FAIL_IF_ERR (call_delete ?r _) _) _ _ _ _ =>
      apply sat_FAIL_IF_ERR_delete; destruct r as [?|?] eqn:?; [cbv beta | exit_goal]
  | |- sat (LOG_INFO _) _ _ _ _ => apply sat_LOG_INFO; cbv beta
  | |- sat (sleep_for _) _ _ _ _ => apply sat_sleep_for; cbv beta
  | |- sat (FAIL _) _ _ _ _ => apply sat_FAIL; exit_goal
  | |- sat (ret _) _ _ _ _ => apply sat_ret
  end.

Ltac run_steps := repeat run_step.

Ltac units := repeat match goal with u : unit |- _ => destruct u end.

(** ** The regions of main *)

Section Regions.

Variable e : Engine.
Variable argv0 : string.

Lemma Usage_exits msg w :
  exists w', Usage argv0 msg w = Exit 1 w' /\ fails (trace w) (trace w').
Proof.
  unfold Usage, bind. destruct (bool_decide (msg = EmptyString)); simpl.
  - eexists. split; [reflexivity|]. world_simpl.
    eexists _, _. split; [reflexivity|]. repeat constructor.
  - eexists. split; [reflexivity|]. world_simpl.
    eexists _, _. split; [reflexivity|]. repeat constructor.
Qed.

Lemma parse_commandline_region results path0 :
  region (parse_commandline argv0 results path0)
    (fun path => (OptUnknown ∉ results) /\
                 path = fold_left (fun acc r => match r with
                                                | OptR optarg => optarg
                                                | OptUnknown => acc
                                                end) results path0)
    (fun h h' => h' = h).
Proof.
  revert path0. induction results as [|[optarg|] rest IH]; intros path0 w.
  - simpl. apply sat_ret. split; [split; [apply not_elem_of_nil | reflexivity]|].
    auto with run.
  - simpl. eapply sat_mono; [apply IH | | auto ..].
    simpl. intros path w' ((Hnot & ->) & ?). split; [|assumption].
    split; [|reflexivity]. intros [?|?]%elem_of_cons; [discriminate | contradiction].
  - simpl. apply sat_bind. unfold sat at 1.
    destruct (Usage_exits EmptyString w) as (w' & -> & Hf). auto.
Qed.

Lemma create_server_region path :
  region (create_server e path) (fun _ => server_created e path)
    (fun h h' => forall x, x ∈ h' -> x = HServer \/ (x ∈ h /\ x ≠ HServerOptions)).
Proof.
  intros w. unfold create_server. run_steps. units.
  split; [by repeat split|]. world_simpl. split; [auto with run|].
  split; [|auto].
  intros x [Hne Hin]%list_elem_of_filter.
  apply elem_of_cons in Hin as [->|Hin]; [by left|].
  apply elem_of_cons in Hin as [->|Hin]; [contradiction|]. right. auto.
Qed.

Lemma wait_server_healthy_region fuel n :
  region (wait_server_healthy e fuel n)
    (fun _ => exists k, (n <= k)%nat /\ ((n < k)%nat -> (k < 10)%nat) /\
                        health_at e k true /\
                        forall j, (n <= j < k)%nat -> health_at e j false)
    (fun h h' => h' = h).
Proof.
  revert n. induction fuel as [|fuel IH]; intros n w.
  - simpl. unfold sat. auto with run.
  - cbn [wait_server_healthy]. run_steps.
    destruct (a && a0) eqn:Hboth.
    + run_steps. split; [|world_simpl; auto 6 with run].
      exists n. split; [lia|]. split; [lia|]. split; [|lia].
      exists a, a0. auto.
    + run_steps. destruct (10 <=? S n)%nat eqn:Hten; run_steps.
      eapply sat_mono; [apply (IH (S n)) | | |]; world_simpl.
      * intros [] w' ((k & Hle & Hlt & Hk & Hbefore) & Hg & -> & -> & ->).
        split; [|split; [eapply grows_trans; [|exact Hg]; auto with run | auto]].
        exists k. split; [lia|]. split.
        { intros _. apply Nat.leb_gt in Hten.
          destruct (decide (k = S n)) as [->|]; [lia | apply Hlt; lia]. }
        split; [assumption|]. intros j Hj.
        destruct (decide (j = n)) as [->|]; [by exists a, a0 | apply Hbefore; lia].
      * intros c w' (-> & Hf). split; [reflexivity|].
        eapply fails_after; [|exact Hf]. auto with run.
      * intros w' Hg. eapply grows_trans; [|exact Hg]. auto with run.
Qed.

Lemma print_server_status_region :
  region (print_server_status e) (fun _ => server_status_printed e)
    (fun h h' => forall x, x ∈ h' -> x ∈ h /\ x ≠ HServerStatusPb).
Proof.
  intros w. unfold print_server_status. run_steps.
  destruct a0 as [st|]; run_steps. units.
  split; [by repeat split; eauto|]. world_simpl. split; [auto with run|].
  split; [|auto].
  intros x [Hne Hin]%list_elem_of_filter.
  apply elem_of_cons in Hin as [->|Hin]; [contradiction | auto].
Qed.

Lemma wait_model_ready_region fuel n :
  region (wait_model_ready e fuel n)
    (fun _ => True)
    (fun h h' => exists k, (n <= k)%nat /\ model_state_at e k MODEL_READY /\
                   (forall j, (n <= j < k)%nat -> model_waiting_at e j) /\
                   forall x, x ∈ h' ->
                     x = HModelStatusPb k \/
                     (x ∈ h /\ forall j, (n <= j < k)%nat -> x ≠ HModelStatusPb j)).
Proof.
  revert n. induction fuel as [|fuel IH]; intros n w.
  - simpl. unfold sat. auto with run.
  - cbn [wait_model_ready]. run_steps.
    destruct a0 as [st|]; run_steps.
    destruct (model_status st !! "simple") as [ms|] eqn:Hms; run_steps.
    destruct (version_status ms !! 1) as [vs|] eqn:Hvs; run_steps.
    units. case_bool_decide as Hready; run_steps.
    + split; [exact I|]. world_simpl. split; [auto with run|]. split; [|auto].
      exists n. split; [lia|]. split; [split; [assumption | eauto 10]|].
      split; [lia|].
      intros x [->|Hin]%elem_of_cons; [by left | right; split; [assumption | lia]].
    + units. eapply sat_mono; [apply (IH (S n)) | | |]; world_simpl.
      * intros [] w' (_ & Hg & (k & Hle & Hk & Hbefore & Hh) & -> & ->).
        split; [exact I|].
        split; [eapply grows_trans; [|exact Hg]; auto with run |]. split; [|auto].
        exists k. split; [lia|]. split; [assumption|]. split.
        -- intros j Hj.
           destruct (decide (j = n)) as [->|]; [|apply Hbefore; lia].
           split; [|assumption]. exists (ready_state vs). split; [assumption|].
           split; [assumption|]. eauto 10.
        -- intros x Hx. destruct (Hh x Hx) as [?|[Hin Hne]]; [by left|].
           apply list_elem_of_filter in Hin as [Hxn Hin].
           apply elem_of_cons in Hin as [->|Hin]; [contradiction|].
           right. split; [assumption|]. intros j Hj.
           destruct (decide (j = n)) as [->|]; [assumption | apply Hne; lia].
      * intros c w' (-> & Hf). split; [reflexivity|].
        eapply fails_after; [|exact Hf]. auto with run.
      * intros w' Hg. eapply grows_trans; [|exact Hg]. auto with run.
Qed.

Lemma for_each_region {A} (l : list A) (body : A -> M unit) (P : A -> Prop) :
  (forall i, i ∈ l -> region (body i) (fun _ => P i) (fun h h' => h' = h)) ->
  region (for_each l body) (fun _ => forall i, i ∈ l -> P i) (fun h h' => h' = h).
Proof.
  induction l as [|i l IH]; intros Hbody.
  - intros w. apply sat_ret. split; [intros i Hi; by apply elem_of_nil in Hi|].
    auto with run.
  - simpl. eapply region_weaken.
    + apply region_bind with (C2 := fun _ _ => forall j, j ∈ l -> P j).
      * apply Hbody. by left.
      * intros _ _. apply IH. intros j Hj. apply Hbody. by right.
    + simpl. intros _ (_ & Hi & Hl) j [->|Hj]%elem_of_cons; auto.
    + simpl. intros h h' (h1 & -> & ->). reflexivity.
Qed.

Lemma check_output_placement_region which o :
  region (check_output_placement which o)
    (fun _ => od_byte_size o = 64 /\ od_memory_type o = TRTSERVER_MEMORY_CPU)
    (fun h h' => h' = h).
Proof.
  intros w. unfold check_output_placement.
  destruct (Z.eqb_spec (od_byte_size o) (16 * sizeof_int32)) as [Hsz|Hsz]; simpl negb;
    cbv iota; [|run_steps].
  case_bool_decide as Hmt; simpl negb; cbv iota; run_steps.
  split; [split; [exact Hsz | exact Hmt]|]. auto with run.
Qed.

Lemma check_values_region in0 in1 out0 out1 name0 name1 :
  region (check_values in0 in1 out0 out1 name0 name1)
    (fun _ => forall i, (i < 16)%nat ->
                add32 (at32 in0 i) (at32 in1 i) = int32_at out0 i /\
                sub32 (at32 in0 i) (at32 in1 i) = int32_at out1 i)
    (fun h h' => h' = h).
Proof.
  unfold check_values. eapply region_weaken.
  - apply for_each_region with
      (P := fun i => add32 (at32 in0 i) (at32 in1 i) = int32_at out0 i /\
                     sub32 (at32 in0 i) (at32 in1 i) = int32_at out1 i).
    intros i _ w. run_steps.
    destruct (Z.eqb_spec (add32 (at32 in0 i) (at32 in1 i)) (int32_at out0 i)) as [Hs|Hs];
      simpl negb; cbv iota; run_steps.
    destruct (Z.eqb_spec (sub32 (at32 in0 i) (at32 in1 i)) (int32_at out1 i)) as [Hd|Hd];
      simpl negb; cbv iota; run_steps.
    split; [split; assumption|]. world_simpl. auto 6 with run.
  - cbv beta. intros _ H i Hi. apply H. apply elem_of_seq. lia.
  - auto.
Qed.

(** No wrap-around in the sums and differences main compares with. *)
Lemma input_arith i :
  (i < 16)%nat ->
  add32 (at32 (fst init_input_data) i) (at32 (snd init_input_data) i)
  = at32 (fst init_input_data) i + at32 (snd init_input_data) i /\
  sub32 (at32 (fst init_input_data) i) (at32 (snd init_input_data) i)
  = at32 (fst init_input_data) i - at32 (snd init_input_data) i.
Proof.
  intros Hi. do 16 (destruct i as [|i]; [split; reflexivity|]). lia.
Qed.

Lemma check_outputs_eq :
  check_outputs e =
  (output0' <- FAIL_IF_ERR (ret (e_output_data e "OUTPUT0")) "getting output0 result" ;;
   check_output_placement "output0" output0' ;;;
   output1' <- FAIL_IF_ERR (ret (e_output_data e "OUTPUT1")) "getting output1 result" ;;
   check_output_placement "output1" output1' ;;;
   check_values (fst init_input_data) (snd init_input_data)
     (od_content output0') (od_content output1') "OUTPUT0" "OUTPUT1").
Proof. reflexivity. Qed.

Lemma check_outputs_region :
  region (check_outputs e) (fun _ => outputs_correct e) (fun h h' => h' = h).
Proof.
  rewrite check_outputs_eq. intros w. run_steps.
  eapply sat_mono; [apply (check_output_placement_region "output0" a) | | auto |];
    cbv beta; [|auto].
  intros [] w1 ((Hsz0 & Hmt0) & Hg1 & Hh1 & Hb1 & Hs1).
  run_steps.
  eapply sat_mono; [apply (check_output_placement_region "output1" a0) | | |]; cbv beta.
  2: { intros c w2 (-> & Hf). eauto using fails_after. }
  2: { intros w2 Hg2. eauto using grows_trans. }
  intros [] w2 ((Hsz1 & Hmt1) & Hg2 & Hh2 & Hb2 & Hs2).
  eapply sat_mono; [apply check_values_region | | |]; cbv beta.
  2: { intros c w3 (-> & Hf). eauto using fails_after, grows_trans. }
  2: { intros w3 Hg3. eauto using grows_trans. }
  intros [] w3 (Hvals & Hg3 & Hh3 & Hb3 & Hs3).
  split; [|split; [eauto using grows_trans | repeat split; congruence]].
  exists a, a0. repeat (split; [assumption|]).
  intros i Hi. destruct (Hvals i Hi) as [Hs Hd]. destruct (input_arith i Hi) as [Ea Es].
  rewrite <- Hs, <- Hd. auto.
Qed.

Lemma print_response_header_region :
  region (print_response_header e) (fun _ => response_header_printed e)
    (fun h h' => forall x, x ∈ h' -> x ∈ h /\ x ≠ HResponseHeaderPb).
Proof.
  intros w. unfold print_response_header. run_steps.
  destruct a1; simpl negb; cbv iota; run_steps. units.
  split; [by repeat split|]. world_simpl. split; [auto with run|].
  split; [|auto].
  intros x [Hne Hin]%list_elem_of_filter.
  apply elem_of_cons in Hin as [->|Hin]; [contradiction | auto].
Qed.

Lemma teardown_region :
  region (teardown e) (fun status => status = 0 /\ torn_down e)
    (fun h h' => forall x, x ∈ h' -> x ∈ h /\ x ≠ HResponse /\ x ≠ HAllocator).
Proof.
  intros w. unfold teardown. run_steps. units.
  split; [by repeat split|]. world_simpl. split; [auto with run|].
  split; [|auto].
  intros x [Hne [Hne' Hin]%list_elem_of_filter]%list_elem_of_filter. auto.
Qed.

Lemma response_regions :
  region (print_response_header e ;;; check_outputs e ;;; teardown e)
    (fun status => status = 0 /\ response_header_printed e /\ outputs_correct e /\
                   torn_down e)
    (fun h h' => forall x, x ∈ h' ->
                   x ∈ h /\ x ≠ HResponseHeaderPb /\ x ≠ HResponse /\ x ≠ HAllocator).
Proof.
  eapply region_weaken.
  - eapply region_bind with (C2 := fun _ b => _); [apply print_response_header_region|].
    intros ? ?.
    eapply region_bind with (C2 := fun _ b => _); [apply check_outputs_region|].
    intros ? ?. apply teardown_region.
  - cbv beta. intros status (u1 & Hh & u2 & Ho & Hst & Ht). auto.
  - cbv beta. intros h h' (h1 & H1 & h2 & -> & H3) x Hx.
    destruct (H3 x Hx) as (Hx1 & ? & ?). destruct (H1 x Hx1). auto.
Qed.

Lemma submit_request_eq :
  submit_request e =
  (FAIL_IF_ERR (call_new (e_allocator_new e) HAllocator) "creating response allocator" ;;;
   FAIL_IF_ERR (call_new (e_provider_new e "simple" (-1)
                            (SerializeToString (fst (fst build_request_header))))
                  HRequestProvider)
     "creating inference request provider" ;;;
   FAIL_IF_ERR (ret (e_set_input_data e "INPUT0" (fst init_input_data) 64
                       TRTSERVER_MEMORY_CPU)) "assigning INPUT0 data" ;;;
   FAIL_IF_ERR (ret (e_set_input_data e "INPUT1" (snd init_input_data) 64
                       TRTSERVER_MEMORY_CPU)) "assigning INPUT1 data" ;;;
   p <- (fun w => let '(a, w') := new_promise w in Ret a w') ;;
   FAIL_IF_ERR (ret (e_infer_async e)) "running inference" ;;;
   FAIL_IF_ERR (call_delete (e_provider_delete e) HRequestProvider)
     "deleting inference request provider" ;;;
   ret p).
Proof. reflexivity. Qed.

Lemma submit_request_spec w :
  sat (submit_request e) w
    (fun p w' =>
       request_submitted e /\ trace w' = EvNewPromise p :: trace w /\
       blocks w' !! p = Some BPromise /\ shared w' !! p = Some None /\
       forall x, x ∈ handles w' -> x = HAllocator \/ (x ∈ handles w /\ x ≠ HRequestProvider))
    (fun c w' =>
       c = 1 /\ exists msg,
         trace w' = EvError msg :: trace w \/
         exists p, trace w' = EvError msg :: EvNewPromise p :: trace w)
    (fun _ => False).
Proof.
  rewrite submit_request_eq.
  run_steps; try (world_simpl; solve [eauto]).
  unfold sat at 1. cbn [new_promise].
  run_steps; try (world_simpl; solve [eauto 6]).
  units. world_simpl.
  split; [by repeat split|]. split; [reflexivity|].
  split; [apply lookup_insert_eq|]. split; [apply lookup_insert_eq|].
  intros x [Hne Hin]%list_elem_of_filter.
  apply elem_of_cons in Hin as [->|Hin]; [contradiction|].
  apply elem_of_cons in Hin as [->|Hin]; auto.
Qed.

Lemma grows_app t t' :
  grows t t' -> exists evs, t' = evs ++ t /\ Forall harmless evs.
Proof. apply extends_app. Qed.

Lemma fails_app t t' :
  fails t t' -> exists msg evs, t' = EvError msg :: evs ++ t /\ Forall quiet evs.
Proof.
  intros (msg & t1 & -> & (evs & -> & Hq)%extends_app). eauto.
Qed.

Lemma Forall_harmless_quiet evs : Forall harmless evs -> Forall quiet evs.
Proof. intros H. eapply Forall_impl; [exact H | apply harmless_quiet]. Qed.

Lemma infer_and_check_spec w :
  sat (infer_and_check e) w
    (fun status w' =>
       status = 0 /\
       (request_submitted e /\ response_header_printed e /\ outputs_correct e /\
        torn_down e) /\
       (exists p post,
          trace w' = post ++ EvDeletePromise p :: EvSetValue p (Some HResponse) ::
                     EvNewPromise p :: trace w /\ Forall harmless post) /\
       (forall x, x ∈ handles w' ->
          x ∈ handles w /\ x ≠ HAllocator /\ x ≠ HRequestProvider /\
          x ≠ HResponse /\ x ≠ HResponseHeaderPb))
    (fun c w' =>
       c = 1 /\ exists msg evs,
         trace w' = EvError msg :: evs ++ trace w /\ promise_events evs)
    (fun w' => exists evs, trace w' = evs ++ trace w /\ promise_events evs).
Proof.
  unfold infer_and_check. apply sat_bind.
  eapply sat_mono; [apply submit_request_spec | | | contradiction]; cbv beta.
  - intros p w1 (Hsub & Ht1 & Hb1 & Hs1 & Hh1).
    apply sat_bind. unfold sat at 1, engine_completes, bind, acquire.
    rewrite InferComplete_spec by (world_simpl; assumption).
    apply sat_bind. unfold sat at 1, future_get. world_simpl.
    rewrite lookup_insert_eq.
    eapply sat_mono; [apply response_regions | | |]; world_simpl.
    + intros status w3 ((-> & Hhdr & Hout & Htd) & Hg & Hh3 & _).
      split; [reflexivity|]. split; [auto|]. split.
      * apply grows_app in Hg as (post & -> & Hpost). rewrite Ht1. eauto.
      * intros x Hx. destruct (Hh3 x Hx) as (Hin & ? & ? & ?).
        apply elem_of_cons in Hin as [->|Hin]; [contradiction|].
        destruct (Hh1 x Hin) as [->|[? ?]]; [contradiction | auto 6].
    + intros c w3 (-> & Hf). split; [reflexivity|].
      apply fails_app in Hf as (msg & evs & -> & Hq). rewrite Ht1.
      exists msg, (evs ++ [EvDeletePromise p; EvSetValue p (Some HResponse); EvNewPromise p]).
      split; [by rewrite <- app_assoc|].
      right. right. exists p, evs, [], []. auto.
    + intros w3 Hg. apply grows_app in Hg as (evs & -> & Hq%Forall_harmless_quiet).
      rewrite Ht1.
      exists (evs ++ [EvDeletePromise p; EvSetValue p (Some HResponse); EvNewPromise p]).
      split; [by rewrite <- app_assoc|].
      right. right. exists p, evs, [], []. auto.
  - intros c w1 (-> & msg & [Ht|(p & Ht)]); (split; [reflexivity|]).
    + exists msg, []. split; [assumption|]. by left.
    + exists msg, [EvNewPromise p]. split; [assumption|].
      right. left. exists p, [], []. auto.
Qed.

Lemma region_then {A B} (m : M A) (f : A -> M B) C HR w0 w Q X R :
  region m C HR ->
  grows (trace w0) (trace w) ->
  (forall a w1, C a -> grows (trace w0) (trace w1) -> HR (handles w) (handles w1) ->
                sat (f a) w1 Q X R) ->
  (forall w1, fails (trace w0) (trace w1) -> X 1 w1) ->
  (forall w1, grows (trace w0) (trace w1) -> R w1) ->
  sat (bind m f) w Q X R.
Proof.
  intros Hm Hg Hf HX HR'. apply sat_bind.
  eapply sat_mono; [apply Hm | | |]; cbv beta.
  - intros a w1 (Ha & Hg1 & Hh & _). eauto using grows_trans.
  - intros c w1 (-> & Hfail). eauto using fails_after.
  - intros w1 Hg1. eauto using grows_trans.
Qed.

Lemma fails_promise_events t t' :
  fails t t' ->
  exists msg evs, t' = EvError msg :: evs ++ t /\ promise_events evs.
Proof.
  intros (msg & evs & -> & Hq)%fails_app. exists msg, evs. split; [reflexivity | by left].
Qed.

Lemma repository_path_fold results :
  repository_path results
  = fold_left (fun acc r => match r with OptR optarg => optarg | OptUnknown => acc end)
      results EmptyString.
Proof. reflexivity. Qed.

(** Everything the regions guarantee, for main as a whole. *)
Lemma main_spec fuel results w :
  sat (main e argv0 fuel results) w
    (fun status w' =>
       status = 0 /\ every_step_succeeds e results /\
       (exists p post pre,
          trace w' = post ++ EvDeletePromise p :: EvSetValue p (Some HResponse) ::
                     EvNewPromise p :: pre ++ trace w /\
          Forall harmless post /\ Forall harmless pre) /\
       (forall x, x ∈ handles w' ->
          (exists k, ready_at_poll e k /\ x = HModelStatusPb k) \/
          (x ∈ handles w /\
           x ∉ [HServerOptions; HServer; HServerStatusPb; HAllocator;
                HRequestProvider; HResponse; HResponseHeaderPb])))
    (fun c w' =>
       c = 1 /\ exists msg evs,
         trace w' = EvError msg :: evs ++ trace w /\ promise_events evs)
    (fun w' => exists evs, trace w' = evs ++ trace w /\ promise_events evs).
Proof.
  set (X := fun (c : Z) (w' : World) =>
              c = 1 /\ exists msg evs,
                trace w' = EvError msg :: evs ++ trace w /\ promise_events evs).
  set (R := fun w' : World => exists evs, trace w' = evs ++ trace w /\ promise_events evs).
  assert (HX : forall w1, fails (trace w) (trace w1) -> X 1 w1).
  { intros w1 Hf. split; [reflexivity | by apply fails_promise_events]. }
  assert (HR : forall w1, grows (trace w) (trace w1) -> R w1).
  { intros w1 (evs & Ht & Hq%Forall_harmless_quiet)%grows_app. exists evs.
    split; [assumption | by left]. }
  unfold main.
  eapply (region_then _ _ _ _ w w);
    [apply parse_commandline_region | apply grows_refl | | exact HX | exact HR].
  intros path w1 (Hunknown & Hpath) Hg1 Hh1. rewrite <- repository_path_fold in Hpath.
  apply sat_bind. case_bool_decide as Hempty.
  { unfold sat at 1.
    destruct (Usage_exits "-r must be used to specify model repository path" w1)
      as (w' & -> & Hf). apply HX. eauto using fails_after. }
  apply sat_ret.
  eapply (region_then _ _ _ _ w w1);
    [apply create_server_region | exact Hg1 | | exact HX | exact HR].
  intros [] w2 Hcreated Hg2 Hh2.
  eapply (region_then _ _ _ _ w w2);
    [apply wait_server_healthy_region | exact Hg2 | | exact HX | exact HR].
  intros [] w3 (k1 & _ & Hk1 & Hhealthy & Hunhealthy) Hg3 Hh3.
  eapply (region_then _ _ _ _ w w3);
    [apply print_server_status_region | exact Hg3 | | exact HX | exact HR].
  intros [] w4 Hprinted Hg4 Hh4.
  eapply (region_then _ _ _ _ w w4);
    [apply wait_model_ready_region | exact Hg4 | | exact HX | exact HR].
  intros [] w5 _ Hg5 (k2 & _ & Hready & Hwaiting & Hh5).
  apply grows_app in Hg5 as (pre & Ht5 & Hpre).
  apply sat_bind. eapply sat_mono; [apply infer_and_check_spec | | |]; cbv beta.
  - intros status w6 (-> & (Hsub & Hhdr & Hout & Htd) & (p & post & Ht6 & Hpost) & Hh6).
    apply sat_bind. unfold sat at 1, call_delete, bind, release. apply sat_ret.
    world_simpl. split; [reflexivity|]. split; [|split].
    + split; [subst path; by split|]. subst path.
      split; [assumption|]. split.
      { exists k1. split; [|split; [assumption|]].
        - destruct k1; [lia | apply Hk1; lia].
        - intros j Hj. apply Hunhealthy. lia. }
      split; [assumption|]. split.
      { exists k2. split; [assumption|]. intros j Hj. apply Hwaiting. lia. }
      auto.
    + exists p, post, pre. rewrite Ht6, Ht5. auto.
    + intros x [Hns Hx]%list_elem_of_filter.
      destruct (Hh6 x Hx) as (Hx5 & ? & ? & ? & ?).
      destruct (Hh5 x Hx5) as [->|[Hx4 _]].
      { left. exists k2. split; [|reflexivity]. split; [assumption|].
        intros j Hj. apply Hwaiting. lia. }
      right. destruct (Hh4 x Hx4) as [Hx3 ?]. rewrite Hh3 in Hx3.
      destruct (Hh2 x Hx3) as [->|[Hx1 ?]]; [contradiction|].
      rewrite Hh1 in Hx1. split; [assumption|].
      intros Hin. repeat (apply elem_of_cons in Hin as [->|Hin]; [contradiction|]).
      by apply elem_of_nil in Hin.
  - intros c w6 (-> & msg & evs & Ht6 & Hev). split; [reflexivity|].
    exists msg, (evs ++ pre). rewrite Ht6, Ht5. split; [by rewrite <- app_assoc|].
    apply Forall_harmless_quiet in Hpre.
    destruct Hev as [Hq|[(p & mid & pre' & -> & Hm & Hp)|(p & post & mid & pre' & -> & Hpo & Hm & Hp)]].
    + left. by apply Forall_app.
    + right. left. exists p, mid, (pre' ++ pre). rewrite <- app_assoc. simpl.
      split; [reflexivity|]. split; [assumption | by apply Forall_app].
    + right. right. exists p, post, mid, (pre' ++ pre).
      split; [|split; [assumption|split; [assumption | by apply Forall_app]]].
      rewrite <- app_assoc. simpl. rewrite <- app_assoc. reflexivity.
  - intros w6 (evs & Ht6 & Hev).
    exists (evs ++ pre). rewrite Ht6, Ht5. split; [by rewrite <- app_assoc|].
    apply Forall_harmless_quiet in Hpre.
    destruct Hev as [Hq|[(p & mid & pre' & -> & Hm & Hp)|(p & post & mid & pre' & -> & Hpo & Hm & Hp)]].
    + left. by apply Forall_app.
    + right. left. exists p, mid, (pre' ++ pre). rewrite <- app_assoc. simpl.
      split; [reflexivity|]. split; [assumption | by apply Forall_app].
    + right. right. exists p, post, mid, (pre' ++ pre).
      split; [|split; [assumption|split; [assumption | by apply Forall_app]]].
      rewrite <- app_assoc. simpl. rewrite <- app_assoc. reflexivity.
Qed.

(** *** When every step succeeds, main returns *)

Lemma returns_bind {A B} (m : M A) (f : A -> M B) a b :
  returns m a -> returns (f a) b -> returns (bind m f) b.
Proof.
  intros Hm Hf w. destruct (Hm w) as (w1 & Hw1). destruct (Hf w1) as (w2 & Hw2).
  exists w2. unfold bind. by rewrite Hw1.
Qed.

Lemma returns_ret {A} (a : A) : returns (ret a) a.
Proof. intros w. by exists w. Qed.

Lemma returns_LOG_INFO msg : returns (LOG_INFO msg) tt.
Proof. intros w. by eexists. Qed.

Lemma returns_sleep_for ms : returns (sleep_for ms) tt.
Proof. intros w. by eexists. Qed.

Lemma returns_FAIL_IF_ERR_ret {A} (r : Reply A) msg a :
  r = Success a -> returns (FAIL_IF_ERR (ret r) msg) a.
Proof. intros -> w. by eexists. Qed.

Lemma returns_FAIL_IF_ERR_new {A} (r : Reply A) h msg a :
  r = Success a -> returns (FAIL_IF_ERR (call_new r h) msg) a.
Proof. intros -> w. by eexists. Qed.

Lemma returns_FAIL_IF_ERR_delete (r : Reply unit) h msg :
  r = Success tt -> returns (FAIL_IF_ERR (call_delete r h) msg) tt.
Proof. intros -> w. by eexists. Qed.

#[local] Hint Resolve returns_ret returns_LOG_INFO returns_sleep_for
  returns_FAIL_IF_ERR_ret returns_FAIL_IF_ERR_new returns_FAIL_IF_ERR_delete : run.

Ltac returns_steps :=
  repeat (first [ eapply returns_bind; [solve [eauto with run]|] | solve [eauto with run] ]).

Lemma parse_commandline_returns results path0 :
  OptUnknown ∉ results ->
  returns (parse_commandline argv0 results path0)
    (fold_left (fun acc r => match r with OptR optarg => optarg | OptUnknown => acc end)
       results path0).
Proof.
  revert path0. induction results as [|[optarg|] rest IH]; intros path0 Hnot; simpl.
  - apply returns_ret.
  - apply IH. intros Hin. apply Hnot. by right.
  - destruct Hnot. by left.
Qed.

Lemma create_server_returns path :
  server_created e path -> returns (create_server e path) tt.
Proof.
  intros (H1 & H2 & H3 & H4). unfold create_server. returns_steps.
Qed.

Lemma wait_server_healthy_returns fuel n k :
  (n <= k < 10)%nat -> (k - n < fuel)%nat ->
  health_at e k true -> (forall j, (n <= j < k)%nat -> health_at e j false) ->
  returns (wait_server_healthy e fuel n) tt.
Proof.
  revert n. induction fuel as [|fuel IH]; intros n Hk Hfuel Hhealthy Hbefore; [lia|].
  cbn [wait_server_healthy].
  destruct (decide (n = k)) as [->|Hne].
  - destruct Hhealthy as (live & ready & Hl & Hr & Hboth).
    eapply returns_bind; [eauto with run|]. eapply returns_bind; [eauto with run|].
    eapply returns_bind; [eauto with run|]. rewrite Hboth. apply returns_ret.
  - destruct (Hbefore n) as (live & ready & Hl & Hr & Hboth); [lia|].
    eapply returns_bind; [eauto with run|]. eapply returns_bind; [eauto with run|].
    eapply returns_bind; [eauto with run|]. rewrite Hboth.
    destruct (Nat.leb_spec 10 (S n)); [lia|].
    eapply returns_bind; [eauto with run|]. eapply returns_bind; [eauto with run|].
    apply (IH (S n)); [lia | lia | assumption |]. intros j Hj. apply Hbefore. lia.
Qed.

Lemma print_server_status_returns :
  server_status_printed e -> returns (print_server_status e) tt.
Proof.
  intros (H1 & (st & H2) & H3). unfold print_server_status.
  eapply returns_bind; [eauto with run|]. eapply returns_bind; [eauto with run|].
  cbv beta iota. returns_steps.
Qed.

Lemma wait_model_ready_returns fuel n k :
  (n <= k)%nat -> (k - n < fuel)%nat ->
  model_state_at e k MODEL_READY -> (forall j, (n <= j < k)%nat -> model_waiting_at e j) ->
  returns (wait_model_ready e fuel n) tt.
Proof.
  revert n. induction fuel as [|fuel IH]; intros n Hk Hfuel Hready Hbefore; [lia|].
  cbn [wait_model_ready].
  destruct (decide (n = k)) as [->|Hne].
  - destruct Hready as (H1 & st & ms & vs & H2 & Hms & Hvs & Hst).
    eapply returns_bind; [eauto with run|]. eapply returns_bind; [eauto with run|].
    cbv beta iota. rewrite Hms, Hvs.
    eapply returns_bind; [eauto with run|]. rewrite bool_decide_eq_true_2 by assumption.
    apply returns_ret.
  - destruct (Hbefore n) as ((s & Hs & H1 & st & ms & vs & H2 & Hms & Hvs & Hst) & Hdel);
      [lia|].
    eapply returns_bind; [eauto with run|]. eapply returns_bind; [eauto with run|].
    cbv beta iota. rewrite Hms, Hvs.
    eapply returns_bind; [eauto with run|]. rewrite bool_decide_eq_false_2 by congruence.
    eapply returns_bind; [eauto with run|]. eapply returns_bind; [eauto with run|].
    apply (IH (S n)); [lia | lia | assumption |]. intros j Hj. apply Hbefore. lia.
Qed.

Lemma for_each_returns {A} (l : list A) (body : A -> M unit) :
  (forall i, i ∈ l -> returns (body i) tt) -> returns (for_each l body) tt.
Proof.
  induction l as [|i l IH]; intros Hbody; simpl.
  - apply returns_ret.
  - eapply returns_bind; [apply Hbody; by left|].
    apply IH. intros j Hj. apply Hbody. by right.
Qed.

Lemma check_output_placement_returns which o :
  od_byte_size o = 64 -> od_memory_type o = TRTSERVER_MEMORY_CPU ->
  returns (check_output_placement which o) tt.
Proof.
  intros Hsz Hmt. unfold check_output_placement. rewrite Hsz, Hmt. apply returns_ret.
Qed.

Lemma check_values_returns in0 in1 out0 out1 name0 name1 :
  (forall i, (i < 16)%nat ->
     add32 (at32 in0 i) (at32 in1 i) = int32_at out0 i /\
     sub32 (at32 in0 i) (at32 in1 i) = int32_at out1 i) ->
  returns (check_values in0 in1 out0 out1 name0 name1) tt.
Proof.
  intros Hvals. unfold check_values. apply for_each_returns.
  intros i Hi%elem_of_seq. destruct (Hvals i) as [Hs Hd]; [lia|].
  eapply returns_bind; [eauto with run|]. eapply returns_bind; [eauto with run|].
  rewrite Hs, Hd, !Z.eqb_refl. simpl negb. cbv iota.
  eapply returns_bind; apply returns_ret.
Qed.

Lemma check_outputs_returns :
  outputs_correct e -> returns (check_outputs e) tt.
Proof.
  intros (o0 & o1 & H0 & H1 & Hsz0 & Hmt0 & Hsz1 & Hmt1 & Hvals).
  rewrite check_outputs_eq.
  eapply returns_bind; [eauto with run|].
  eapply returns_bind; [by apply check_output_placement_returns|].
  eapply returns_bind; [eauto with run|].
  eapply returns_bind; [by apply check_output_placement_returns|].
  apply check_values_returns. intros i Hi.
  destruct (Hvals i Hi) as [Hs Hd]. destruct (input_arith i Hi) as [Ea Es].
  rewrite Ea, Es. auto.
Qed.

Lemma print_response_header_returns :
  response_header_printed e -> returns (print_response_header e) tt.
Proof.
  intros (H1 & H2 & H3 & H4). unfold print_response_header.
  eapply returns_bind; [eauto with run|]. eapply returns_bind; [eauto with run|].
  eapply returns_bind; [eauto with run|]. simpl negb. cbv iota. returns_steps.
Qed.

Lemma teardown_returns : torn_down e -> returns (teardown e) 0.
Proof.
  intros (H1 & H2). unfold teardown. returns_steps.
Qed.

Lemma submit_request_returns w :
  request_submitted e ->
  exists p w', submit_request e w = Ret p w' /\
               blocks w' !! p = Some BPromise /\ shared w' !! p = Some None.
Proof.
  intros (H1 & H2 & H3 & H4 & H5 & H6).
  pose proof (submit_request_spec w) as Hspec. unfold sat in Hspec.
  rewrite submit_request_eq in *.
  unfold bind, FAIL_IF_ERR, call_new, call_delete, ret, bind in *.
  rewrite H1, H2, H3, H4, H5, H6 in *.
  cbn [acquire release new_promise] in *.
  eexists _, _. split; [reflexivity|].
  destruct Hspec as (_ & _ & Hb & Hs & _). auto.
Qed.

Lemma infer_and_check_returns :
  request_submitted e -> response_header_printed e -> outputs_correct e -> torn_down e ->
  returns (infer_and_check e) 0.
Proof.
  intros Hsub Hhdr Hout Htd w.
  destruct (submit_request_returns w Hsub) as (p & w1 & Hw1 & Hb & Hs).
  assert (returns (print_response_header e ;;; check_outputs e ;;; teardown e) 0) as Hrest.
  { eapply returns_bind; [by apply print_response_header_returns|].
    eapply returns_bind; [by apply check_outputs_returns|].
    by apply teardown_returns. }
  unfold infer_and_check, bind at 1. rewrite Hw1.
  unfold bind at 1, engine_completes, bind at 1, acquire.
  rewrite InferComplete_spec by (world_simpl; assumption).
  unfold bind at 1, future_get. world_simpl. rewrite lookup_insert_eq.
  apply Hrest.
Qed.

Lemma main_returns results :
  every_step_succeeds e results ->
  exists fuel, returns (main e argv0 fuel results) 0.
Proof.
  intros ((Hunknown & Hpath) & Hcreated & (k1 & Hk1 & Hhealthy & Hunhealthy) & Hprinted &
          (k2 & Hready & Hwaiting) & Hsub & Hhdr & Hout & Htd).
  exists (S (k1 + k2)). unfold main.
  eapply returns_bind; [by apply parse_commandline_returns|].
  rewrite <- repository_path_fold.
  rewrite bool_decide_eq_false_2 by assumption.
  eapply returns_bind; [apply returns_ret|].
  eapply returns_bind; [by apply create_server_returns|].
  eapply returns_bind.
  { apply (wait_server_healthy_returns _ 0%nat k1); [lia | lia | assumption|].
    intros j Hj. apply Hunhealthy. lia. }
  eapply returns_bind; [by apply print_server_status_returns|].
  eapply returns_bind.
  { apply (wait_model_ready_returns _ 0%nat k2); [lia | lia | assumption|].
    intros j Hj. apply Hwaiting. lia. }
  eapply returns_bind; [by apply infer_and_check_returns|].
  eapply returns_bind; [|apply returns_ret].
  intros w. by eexists.
Qed.

(** *** A model that is never ready *)

Lemma wait_model_ready_waits fuel n w :
  (forall j, model_waiting_at e j) ->
  exists w', wait_model_ready e fuel n w = Running w' /\
             sleep_count (trace w') = (fuel + sleep_count (trace w))%nat.
Proof.
  intros Hwait. revert n w. induction fuel as [|fuel IH]; intros n w.
  - exists w. split; reflexivity.
  - destruct (Hwait n) as ((s & Hs & H1 & st & ms & vs & H2 & Hms & Hvs & Hst) & Hdel).
    cbn [wait_model_ready].
    unfold bind, FAIL_IF_ERR, call_new, call_delete, ret, bind. rewrite H1, H2.
    cbn [acquire]. rewrite Hms, Hvs. cbn [LOG_INFO].
    rewrite bool_decide_eq_false_2 by congruence. rewrite Hdel. cbn [release sleep_for].
    match goal with |- context [wait_model_ready e fuel (S n) ?w1] =>
      destruct (IH (S n) w1) as (w' & -> & Hcount) end.
    exists w'. split; [reflexivity|]. rewrite Hcount. world_simpl. simpl. lia.
Qed.

(** The loop next to it gives up: a server that is never healthy makes
    [wait_server_healthy] exit with status 1 at its tenth poll. *)
Lemma wait_server_healthy_gives_up fuel w :
  (forall j, health_at e j false) -> (10 <= fuel)%nat ->
  exists w', wait_server_healthy e fuel 0 w = Exit 1 w' /\
             sleep_count (trace w') = (9 + sleep_count (trace w))%nat.
Proof.
  intros Hbad Hfuel.
  assert (forall d n fuel w, (n + d = 10)%nat -> (0 < d)%nat -> (d <= fuel)%nat ->
            exists w', wait_server_healthy e fuel n w = Exit 1 w' /\
                       sleep_count (trace w') = (d - 1 + sleep_count (trace w))%nat) as H.
  { clear fuel w Hfuel. induction d as [|d IH]; intros n fuel w Hn Hd Hfuel; [lia|].
    destruct fuel as [|fuel]; [lia|].
    destruct (Hbad n) as (live & ready & Hl & Hr & Hboth).
    cbn [wait_server_healthy]. unfold bind, FAIL_IF_ERR, ret, bind. rewrite Hl, Hr.
    cbn [LOG_INFO]. rewrite Hboth.
    destruct (Nat.leb_spec 10 (S n)) as [Hten|Hten].
    - assert (d = 0%nat) as -> by lia. cbn [FAIL LOG_ERROR bind exit].
      eexists. split; [reflexivity|]. reflexivity.
    - cbn [sleep_for].
      match goal with |- context [wait_server_healthy e fuel (S n) ?w1] =>
        destruct (IH (S n) fuel w1) as (w' & -> & Hcount); [lia | lia | lia |] end.
      exists w'. split; [reflexivity|]. rewrite Hcount. world_simpl. simpl. lia. }
  apply (H 10%nat 0%nat); lia.
Qed.

(** *** More fuel does not change how a run ends *)

Lemma bind_finished_ext {A B} (m m' : M A) (f f' : A -> M B) w :
  (finished (m w) -> m' w = m w) ->
  (forall a w1, finished (f a w1) -> f' a w1 = f a w1) ->
  finished (bind m f w) -> bind m' f' w = bind m f w.
Proof.
  unfold bind. intros Hm Hf Hfin. destruct (m w) as [a w1|c w1|w1] eqn:Hmw.
  - rewrite Hm by exact I. auto.
  - by rewrite Hm.
  - destruct Hfin.
Qed.

Lemma wait_server_healthy_mono fuel fuel' n w :
  (fuel <= fuel')%nat -> finished (wait_server_healthy e fuel n w) ->
  wait_server_healthy e fuel' n w = wait_server_healthy e fuel n w.
Proof.
  revert fuel' n w. induction fuel as [|fuel IH]; intros fuel' n w Hle Hfin;
    [destruct Hfin|].
  destruct fuel' as [|fuel']; [lia|]. revert Hfin. cbn [wait_server_healthy].
  apply bind_finished_ext; [reflexivity|]. intros live w1.
  apply bind_finished_ext; [reflexivity|]. intros ready w2.
  apply bind_finished_ext; [reflexivity|]. intros [] w3.
  destruct (live && ready); [reflexivity|].
  apply bind_finished_ext; [reflexivity|]. intros [] w4.
  apply bind_finished_ext; [reflexivity|]. intros [] w5.
  apply IH. lia.
Qed.

Lemma wait_model_ready_mono fuel fuel' n w :
  (fuel <= fuel')%nat -> finished (wait_model_ready e fuel n w) ->
  wait_model_ready e fuel' n w = wait_model_ready e fuel n w.
Proof.
  revert fuel' n w. induction fuel as [|fuel IH]; intros fuel' n w Hle Hfin;
    [destruct Hfin|].
  destruct fuel' as [|fuel']; [lia|]. revert Hfin. cbn [wait_model_ready].
  apply bind_finished_ext; [reflexivity|]. intros [] w1.
  apply bind_finished_ext; [reflexivity|]. intros [st|] w2; [|reflexivity].
  destruct (model_status st !! "simple") as [ms|]; [|reflexivity].
  destruct (version_status ms !! 1) as [vs|]; [|reflexivity].
  apply bind_finished_ext; [reflexivity|]. intros [] w3.
  case_bool_decide; [reflexivity|].
  apply bind_finished_ext; [reflexivity|]. intros [] w4.
  apply bind_finished_ext; [reflexivity|]. intros [] w5.
  apply IH. lia.
Qed.

Lemma main_mono fuel fuel' results w :
  (fuel <= fuel')%nat -> finished (main e argv0 fuel results w) ->
  main e argv0 fuel' results w = main e argv0 fuel results w.
Proof.
  intros Hle. unfold main.
  apply bind_finished_ext; [reflexivity|]. intros path w1.
  apply bind_finished_ext; [reflexivity|]. intros [] w2.
  apply bind_finished_ext; [reflexivity|]. intros [] w3.
  apply bind_finished_ext; [by apply wait_server_healthy_mono|]. intros [] w4.
  apply bind_finished_ext; [reflexivity|]. intros [] w5.
  apply bind_finished_ext; [by apply wait_model_ready_mono|]. intros [] w6.
  reflexivity.
Qed.

End Regions.

(** * Properties of main *)

Lemma main_never_running_twice e argv0 results fuel1 fuel2 w :
  finished (main e argv0 fuel1 results w) -> finished (main e argv0 fuel2 results w) ->
  main e argv0 fuel1 results w = main e argv0 fuel2 results w.
Proof.
  intros H1 H2. destruct (Nat.le_ge_cases fuel1 fuel2).
  - symmetry. by apply main_mono.
  - by apply main_mono.
Qed.

Lemma run_spec e argv0 results fuel :
  match run e argv0 results fuel with
  | Ret status w' =>
      status = 0 /\ every_step_succeeds e results /\
      (exists p post pre,
         trace w' = post ++ EvDeletePromise p :: EvSetValue p (Some HResponse) ::
                    EvNewPromise p :: pre /\
         Forall harmless post /\ Forall harmless pre) /\
      (forall x, x ∈ handles w' -> exists k, ready_at_poll e k /\ x = HModelStatusPb k)
  | Exit c w' =>
      c = 1 /\ exists msg evs, trace w' = EvError msg :: evs /\ promise_events evs
  | Running w' => promise_events (trace w')
  end.
Proof.
  pose proof (main_spec e argv0 fuel results (empty_world 0)) as H.
  unfold sat in H. unfold run. destruct (main e argv0 fuel results (empty_world 0)).
  - destruct H as (-> & Hall & (p & post & pre & Ht & Hpost & Hpre) & Hh).
    split; [reflexivity|]. split; [assumption|]. split.
    + exists p, post, pre. rewrite Ht. simpl. by rewrite app_nil_r.
    + intros x Hx. destruct (Hh x Hx) as [?|[Hin _]]; [assumption|].
      simpl in Hin. by apply elem_of_nil in Hin.
  - destruct H as (-> & msg & evs & Ht & Hev). split; [reflexivity|].
    exists msg, evs. rewrite Ht. simpl. by rewrite app_nil_r.
  - destruct H as (evs & Ht & Hev). rewrite Ht. simpl. by rewrite app_nil_r.
Qed.

Lemma never_ready_engine_waits j : model_waiting_at never_ready_engine j.
Proof.
  split; [|reflexivity]. exists MODEL_LOADING. split; [discriminate|].
  split; [reflexivity|].
  exists (status_of MODEL_LOADING), (mkModelStatus {[ 1 := mkModelVersionStatus MODEL_LOADING ]}),
    (mkModelVersionStatus MODEL_LOADING).
  split; [reflexivity|]. split; [by vm_compute|]. split; [by vm_compute | reflexivity].
Qed.

Lemma returns_or_running {A} (m m' : M A) a w :
  returns m a -> (finished (m' w) -> m w = m' w) ->
  (exists w', m' w = Ret a w') \/ (exists w', m' w = Running w').
Proof.
  intros Hret Hsame. destruct (Hret w) as (w1 & Hw1).
  destruct (m' w) as [a' w'|c w'|w'] eqn:Hm'.
  - left. specialize (Hsame I). exists w'. congruence.
  - specialize (Hsame I). congruence.
  - right. by eexists.
Qed.

(** C1, at the input where the program fails it: with an engine whose
    model is still loading at every poll, main has not exited after any
    number of iterations, and the loop, started anywhere, has slept once per
    iteration it was given. *)
Theorem never_ready_model_never_exits :
  (forall fuel, exit_status (run never_ready_engine "simple" [OptR "/models"] fuel) id = None) /\
  (forall fuel n w,
     exists w', wait_model_ready never_ready_engine fuel n w = Running w' /\
                sleep_count (trace w') = (fuel + sleep_count (trace w))%nat).
Proof.
  split; [|intros fuel n w; apply wait_model_ready_waits, never_ready_engine_waits].
  intros fuel. unfold run, main.
  set (e := never_ready_engine).
  assert (Hcreate : returns (create_server e "/models") tt)
    by (apply create_server_returns; by repeat split).
  assert (Hprint : returns (print_server_status e) tt).
  { apply print_server_status_returns. split; [reflexivity|]. split; [|reflexivity].
    by eexists. }
  unfold bind at 1. cbn [parse_commandline ret].
  unfold bind at 1. rewrite bool_decide_eq_false_2 by discriminate. cbn [ret].
  unfold bind at 1. destruct (Hcreate (empty_world 0)) as (w1 & ->).
  unfold bind at 1.
  destruct (returns_or_running (wait_server_healthy e 1 0) (wait_server_healthy e fuel 0)
              tt w1) as [(w2 & ->)|(w2 & ->)]; [| | |reflexivity].
  { intros w. by eexists. }
  { intros Hfin. destruct fuel as [|fuel]; [destruct Hfin|].
    symmetry. apply wait_server_healthy_mono; [lia|]. exact I. }
  unfold bind at 1. destruct (Hprint w2) as (w3 & ->).
  unfold bind at 1.
  destruct (wait_model_ready_waits e fuel 0 w3 never_ready_engine_waits) as (w4 & -> & _).
  reflexivity.
Qed.

Lemma promise_events_error msg evs :
  promise_events evs -> promise_events (EvError msg :: evs).
Proof.
  intros [Hq|[(p & mid & pre & -> & Hm & Hp)|(p & post & mid & pre & -> & Hpo & Hm & Hp)]].
  - left. by constructor.
  - right. left. exists p, (EvError msg :: mid), pre. split; [reflexivity|].
    split; [by constructor | assumption].
  - right. right. exists p, (EvError msg :: post), mid, pre. split; [reflexivity|].
    split; [by constructor | auto].
Qed.

(** C5. Every invocation of [InferComplete] first sets the value of the
    promise and then deletes it, and nothing else; on the promise main
    created and did not yet resolve, this stores the response in the
    shared state and takes the promise, and only it, off the heap. In every
    run of main, whatever the engine answers and however long the run is
    watched, the only deletion of a promise is that one, of the promise main
    created before, right after it was resolved. *)
Theorem promise_freed_in_callback_only :
  (forall response p w,
     trace (InferComplete response p w)
     = EvDeletePromise p :: EvSetValue p response :: trace w) /\
  (forall response p w,
     blocks w !! p = Some BPromise -> shared w !! p = Some None ->
     shared (InferComplete response p w) !! p = Some (Some response) /\
     blocks (InferComplete response p w) = delete p (blocks w) /\
     undefined (InferComplete response p w) = undefined w) /\
  (forall e argv0 results fuel,
     promise_events (trace (final_world (run e argv0 results fuel)))).
Proof.
  split; [exact InferComplete_trace|]. split.
  - intros response p w Hb Hs. rewrite InferComplete_spec by assumption. simpl.
    split; [apply lookup_insert_eq | split; reflexivity].
  - intros e argv0 results fuel. pose proof (run_spec e argv0 results fuel) as H.
    destruct (run e argv0 results fuel) as [status w'|c w'|w']; simpl.
    + destruct H as (_ & _ & (p & post & pre & -> & Hpost & Hpre) & _).
      right. right. exists p, post, [], pre.
      split; [reflexivity|]. auto using Forall_harmless_quiet.
    + destruct H as (_ & msg & evs & -> & Hev). by apply promise_events_error.
    + assumption.
Qed.

Lemma promise_freed_in_callback_only_witness :
  let w := snd (new_promise (empty_world 0)) in
  shared (InferComplete (Some HResponse) 1%positive w) !! 1%positive
  = Some (Some (Some HResponse)).
Proof.
  intros w.
  apply (proj1 (proj2 promise_freed_in_callback_only) (Some HResponse) 1%positive w).
  - vm_compute. reflexivity.
  - vm_compute. reflexivity.
Defined.

(** C9, where it fails: when [TRTSERVER_ServerNew] fails the process exits
    with status 1 and the server options it acquired are still held. *)
Lemma options_held_on_failed_start :
  let o := run (with_server_new (Failure "no such repository") good_engine)
             "simple" [OptR "/models"] 1 in
  exit_status o id = Some 1 /\ HServerOptions ∈ handles (final_world o).
Proof.
  vm_compute. split; [reflexivity | by left].
Qed.

(** C9, amended. When main returns 0, no handle it acquired is still held
    (server options, server, server-status protobuf, allocator, request
    provider, response, response-header protobuf, and the model-status
    protobuf of every poll that saw the model not ready), with one possible
    exception: the model-status protobuf of the poll that saw the model
    ready, about which nothing is said. *)
Theorem handles_released_on_success e argv0 results fuel w' :
  run e argv0 results fuel = Ret 0 w' ->
  forall x, x ∈ handles w' -> exists k, ready_at_poll e k /\ x = HModelStatusPb k.
Proof.
  intros Hrun. pose proof (run_spec e argv0 results fuel) as H. rewrite Hrun in H.
  by destruct H as (_ & _ & _ & Hh).
Qed.

Lemma handles_released_on_success_witness :
  exists k, ready_at_poll good_engine k /\ HModelStatusPb 0 = HModelStatusPb k.
Proof.
  apply (handles_released_on_success good_engine "simple" [OptR "/models"] 1
           (final_world (run good_engine "simple" [OptR "/models"] 1))).
  - vm_compute. reflexivity.
  - vm_compute. apply list_elem_of_here.
Defined.

(** The slip C9 also names: the break on [MODEL_READY] comes before the
    delete, so the protobuf of that poll is still held when main returns. *)
Lemma model_status_protobuf_held_after_break :
  let o := run good_engine "simple" [OptR "/models"] 1 in
  exit_status o id = Some 0 /\ handles (final_world o) = [HModelStatusPb 0].
Proof. vm_compute. split; reflexivity. Qed.

(** C7, where it fails: an error of [TRTSERVER_ServerDelete] is an engine
    call that failed, and the process ends with status 0 and an empty error
    stream. *)
Lemma server_delete_error_ignored :
  let e := with_server_delete (Failure "shutdown timed out") good_engine in
  let o := run e "simple" [OptR "/models"] 1 in
  e_server_delete e = Failure "shutdown timed out" /\
  exit_status o id = Some 0 /\ stderr_lines (final_world o) = [].
Proof. vm_compute. repeat split. Qed.

Lemma stderr_lines_error w msg evs :
  trace w = EvError msg :: evs -> last (stderr_lines w) = Some msg.
Proof.
  intros Ht. unfold stderr_lines, history. rewrite Ht. simpl.
  rewrite omap_app. simpl. apply last_snoc.
Qed.

(** * The request header on the wire *)

Lemma byte_of_value (n : N) : (n < 256)%N -> N_of_ascii (byte_of n) = n.
Proof. apply N_ascii_embedding. Qed.

Lemma read_varint_cons (fuel : nat) (b : ascii) (rest : bytes) :
  read_varint (S fuel) (b :: rest)
  = if (N_of_ascii b <? 128)%N then Some (N_of_ascii b, rest)
    else match read_varint fuel rest with
         | Some (hi, rest') => Some ((N_of_ascii b - 128) + 128 * hi, rest')%N
         | None => None
         end.
Proof. reflexivity. Qed.

Lemma varint_fuel_S (fuel : nat) (n : N) :
  varint_fuel (S fuel) n
  = if (n <? 128)%N then [byte_of n]
    else byte_of (n mod 128 + 128) :: varint_fuel fuel (n / 128).
Proof. reflexivity. Qed.

Lemma read_varint_encoded (fuel : nat) (n : N) (rest : bytes) :
  (n < 128 ^ N.of_nat (S fuel))%N ->
  read_varint (S fuel) (varint_fuel (S fuel) n ++ rest) = Some (n, rest).
Proof.
  revert n. induction fuel as [|fuel IH]; intros n Hn.
  - change (128 ^ N.of_nat 1)%N with 128%N in Hn.
    rewrite varint_fuel_S. destruct (N.ltb_spec n 128) as [Hlt|]; [|lia].
    cbn [app]. rewrite read_varint_cons. rewrite byte_of_value; [|lia].
    destruct (N.ltb_spec n 128); [reflexivity | lia].
  - rewrite varint_fuel_S. destruct (N.ltb_spec n 128) as [Hlt|Hge].
    + cbn [app]. rewrite read_varint_cons. rewrite byte_of_value; [|lia].
      destruct (N.ltb_spec n 128); [reflexivity | lia].
    + cbn [app]. rewrite read_varint_cons.
      assert (n mod 128 < 128)%N by (apply N.mod_lt; discriminate).
      rewrite byte_of_value; [|lia].
      destruct (N.ltb_spec (n mod 128 + 128) 128) as [Hc|_].
      { exfalso. revert Hc. generalize (n mod 128)%N. intros m. lia. }
      rewrite IH.
      * f_equal. f_equal. pose proof (N.div_mod n 128) as Hdm.
        revert Hdm. generalize (n mod 128)%N, (n / 128)%N. intros m d. lia.
      * apply N.Div0.div_lt_upper_bound.
        rewrite Nat2N.inj_succ, N.pow_succ_r' in Hn. exact Hn.
Qed.

Lemma read_varint_varint (n : N) (rest : bytes) :
  (n < 2^64)%N -> read_varint 10 (varint n ++ rest) = Some (n, rest).
Proof.
  intros Hn. apply (read_varint_encoded 9). 
  eapply N.lt_trans; [exact Hn|]. reflexivity.
Qed.

Lemma varint_nonempty n : varint n ≠ [].
Proof. unfold varint. cbn [varint_fuel]. by destruct (n <? 128)%N. Qed.

Lemma key_split (f wire : N) :
  (wire < 8)%N -> ((f * 8 + wire) / 8 = f /\ (f * 8 + wire) mod 8 = wire)%N.
Proof.
  intros Hw. split.
  - rewrite N.add_comm, N.div_add by discriminate. rewrite N.div_small by assumption. lia.
  - rewrite N.add_comm, N.Div0.mod_add. by apply N.mod_small.
Qed.

Lemma read_field_encoded (fv : N * FieldValue) (rest : bytes) :
  field_in_range fv -> read_field (encode_field fv ++ rest) = Some (fv.1, fv.2, rest).
Proof.
  destruct fv as [f [v|p]]; intros [Hf Hv]; simpl in Hf, Hv; unfold read_field, encode_field.
  - unfold key. rewrite <- app_assoc, read_varint_varint by (unfold wire_varint; lia).
    destruct (key_split f wire_varint) as [-> ->]; [reflexivity|].
    rewrite N.eqb_refl. by rewrite read_varint_varint.
  - unfold len_field, key. rewrite <- !app_assoc, read_varint_varint by (unfold wire_len; lia).
    destruct (key_split f wire_len) as [-> ->]; [reflexivity|].
    change (wire_len =? wire_varint)%N with false. rewrite N.eqb_refl. cbv iota.
    rewrite read_varint_varint by assumption.
    destruct (N.ltb_spec (N.of_nat (length (p ++ rest))) (N.of_nat (length p))) as [Hlt|_].
    { rewrite length_app in Hlt. lia. }
    rewrite Nat2N.id. by rewrite take_app_length, drop_app_length.
Qed.

Lemma encode_field_nonempty fv : (0 < length (encode_field fv))%nat.
Proof.
  assert (forall n, (0 < length (varint n))%nat) as Hv.
  { intros n. unfold varint. cbn [varint_fuel]. destruct (n <? 128)%N; simpl; lia. }
  destruct fv as [f [v|p]]; unfold encode_field, len_field, key; rewrite !length_app;
    specialize (Hv (f * 8 + wire_varint)%N) as H1; specialize (Hv (f * 8 + wire_len)%N) as H2;
    lia.
Qed.

Lemma read_fields_encoded (fs : list (N * FieldValue)) (fuel : nat) :
  Forall field_in_range fs ->
  (length (concat (map encode_field fs)) <= fuel)%nat ->
  read_fields fuel (concat (map encode_field fs)) = Some fs.
Proof.
  intros Hall. revert fuel. induction Hall as [|fv fs Hfv _ IH]; intros fuel Hfuel.
  - by destruct fuel.
  - cbn [map concat] in *. rewrite length_app in Hfuel.
    pose proof (encode_field_nonempty fv) as Hne.
    destruct fuel as [|fuel]; [lia|].
    destruct (encode_field fv ++ concat (map encode_field fs)) as [|b bs] eqn:Hbytes.
    { apply (f_equal length) in Hbytes. rewrite length_app in Hbytes. simpl in Hbytes. lia. }
    cbn [read_fields]. rewrite <- Hbytes. rewrite read_field_encoded by assumption.
    rewrite IH by lia. by destruct fv.
Qed.

Lemma encode_header_fields (h : InferRequestHeader) :
  encode_header h = concat (map encode_field (header_fields h)).
Proof.
  unfold encode_header, header_fields, varint_field.
  rewrite !map_app, !concat_app, !map_map.
  destruct (h_batch_size h =? 0)%N, (h_id h =? 0)%N; simpl; by rewrite ?app_nil_r.
Qed.

Lemma varint_fuel_length (fuel : nat) (n : N) : (length (varint_fuel fuel n) <= fuel)%nat.
Proof.
  revert n. induction fuel as [|fuel IH]; intros n; [reflexivity|].
  rewrite varint_fuel_S. destruct (n <? 128)%N; simpl; [lia|].
  specialize (IH (n / 128)%N). lia.
Qed.

Lemma length_list_ascii_of_string (s : string) :
  length (list_ascii_of_string s) = String.length s.
Proof.
  induction s as [|c s IH]; [reflexivity|].
  cbn [list_ascii_of_string length String.length]. by rewrite IH.
Qed.

Lemma string_field_length (f : N) (s : string) :
  (length (string_field f s) <= 20 + String.length s)%nat.
Proof.
  unfold string_field. case_bool_decide; [simpl; lia|].
  unfold len_field, key, varint. rewrite !length_app.
  pose proof (varint_fuel_length 10 (f * 8 + wire_len)) as H1.
  pose proof (varint_fuel_length 10 (N.of_nat (length (list_ascii_of_string s)))) as H2.
  rewrite length_list_ascii_of_string in *. lia.
Qed.

Lemma decode_name_encoded (s : string) :
  (N.of_nat (String.length s) < 2^32)%N ->
  decode_name (string_field 1 s) = Some s.
Proof.
  intros Hlen. unfold decode_name, string_field. case_bool_decide as Hs.
  - by subst s.
  - change (len_field 1 (list_ascii_of_string s))
      with (encode_field (1%N, FLen (list_ascii_of_string s))).
    rewrite <- (app_nil_r (encode_field _)).
    change (encode_field (1%N, FLen (list_ascii_of_string s)) ++ [])
      with (concat (map encode_field [(1%N, FLen (list_ascii_of_string s))])).
    rewrite read_fields_encoded; [|repeat constructor; simpl|reflexivity].
    + simpl. by rewrite string_of_list_ascii_of_string.
    + rewrite length_list_ascii_of_string. lia.
Qed.

Lemma fold_inputs (ins : list HeaderInput) (h : InferRequestHeader) :
  Forall (fun i => (N.of_nat (String.length (input_name i)) < 2^32)%N) ins ->
  fold_left apply_field (map (fun i => (2%N, FLen (encode_input i))) ins) (Some h)
  = Some (mkInferRequestHeader (h_id h) (h_batch_size h) (h_input h ++ ins) (h_output h)).
Proof.
  intros Hall. revert h. induction Hall as [|[name] ins Hi _ IH]; intros h; simpl.
  - rewrite app_nil_r. by destruct h.
  - unfold encode_input. simpl in *. rewrite decode_name_encoded by assumption.
    rewrite IH. simpl. by rewrite <- app_assoc.
Qed.

Lemma fold_outputs (outs : list HeaderOutput) (h : InferRequestHeader) :
  Forall (fun o => (N.of_nat (String.length (output_name o)) < 2^32)%N) outs ->
  fold_left apply_field (map (fun o => (3%N, FLen (encode_output o))) outs) (Some h)
  = Some (mkInferRequestHeader (h_id h) (h_batch_size h) (h_input h) (h_output h ++ outs)).
Proof.
  intros Hall. revert h. induction Hall as [|[name] outs Ho _ IH]; intros h; simpl.
  - rewrite app_nil_r. by destruct h.
  - unfold encode_output. simpl in *. rewrite decode_name_encoded by assumption.
    rewrite IH. simpl. by rewrite <- app_assoc.
Qed.

Lemma header_fields_in_range (h : InferRequestHeader) :
  header_in_range h -> Forall field_in_range (header_fields h).
Proof.
  intros (Hid & Hb & Hin & Hout). unfold header_fields.
  repeat apply Forall_app_2.
  - destruct (h_batch_size h =? 0)%N; repeat constructor; simpl; lia.
  - apply Forall_fmap. eapply Forall_impl; [exact Hin|]. intros i Hi. cbv beta in Hi. split; [simpl; lia|].
    simpl. pose proof (string_field_length 1 (input_name i)). unfold encode_input. lia.
  - apply Forall_fmap. eapply Forall_impl; [exact Hout|]. intros o Ho. cbv beta in Ho. split; [simpl; lia|].
    simpl. pose proof (string_field_length 1 (output_name o)). unfold encode_output. lia.
  - destruct (h_id h =? 0)%N; repeat constructor; simpl; lia.
Qed.

(** Any header in range comes back as it was. *)
Lemma header_roundtrip (h : InferRequestHeader) :
  header_in_range h -> ParseFromString (SerializeToString h) = Some h.
Proof.
  intros Hr. unfold ParseFromString, SerializeToString, decode_header.
  rewrite list_ascii_of_string_of_list_ascii, encode_header_fields.
  rewrite read_fields_encoded by (auto using header_fields_in_range).
  destruct Hr as (_ & _ & Hin & Hout). unfold header_fields.
  rewrite !fold_left_app.
  assert (fold_left apply_field
            (if (h_batch_size h =? 0)%N then [] else [(1%N, FVarint (h_batch_size h))])
            (Some empty_header)
          = Some (mkInferRequestHeader 0 (h_batch_size h) [] [])) as ->.
  { destruct (N.eqb_spec (h_batch_size h) 0) as [->|]; reflexivity. }
  rewrite fold_inputs, fold_outputs by assumption. simpl.
  destruct h as [i b ins outs]. simpl.
  destruct (N.eqb_spec i 0) as [->|]; reflexivity.
Qed.

(** C8. The header main constructs has id 123, batch size 1, inputs
    INPUT0 and INPUT1 and outputs OUTPUT0 and OUTPUT1, in this order;
    serializing it and parsing the bytes gives a header with the same input
    names, the same output names in the same order, and the same id. *)
Theorem request_header_roundtrip :
  let request_header := fst (fst build_request_header) in
  request_header
  = mkInferRequestHeader 123 1 [mkHeaderInput "INPUT0"; mkHeaderInput "INPUT1"]
      [mkHeaderOutput "OUTPUT0"; mkHeaderOutput "OUTPUT1"] /\
  exists parsed,
    ParseFromString (SerializeToString request_header) = Some parsed /\
    map input_name (h_input parsed) = map input_name (h_input request_header) /\
    map output_name (h_output parsed) = map output_name (h_output request_header) /\
    h_id parsed = h_id request_header.
Proof.
  split; [reflexivity|].
  exists (fst (fst build_request_header)). split; [|repeat split].
  apply header_roundtrip.
  split; [reflexivity|]. split; [reflexivity|].
  split; repeat constructor.
Qed.

(** * Further properties of the program *)

Lemma parse_commandline_outcome argv0 results path0 w :
  parse_commandline argv0 results path0 w
  = if bool_decide (OptUnknown ∈ results)
    then Exit 1 (emit (EvError (tab +:+ "-r [model repository absolute path]"))
                   (emit (EvError ("Usage: " +:+ argv0 +:+ " [options]")) w))
    else Ret (fold_left (fun acc r => match r with OptR optarg => optarg | OptUnknown => acc end)
                results path0) w.
Proof.
  revert path0. induction results as [|[optarg|] rest IH]; intros path0.
  - reflexivity.
  - simpl. rewrite IH.
    rewrite (bool_decide_ext (OptUnknown ∈ OptR optarg :: rest) (OptUnknown ∈ rest));
      [reflexivity|].
    rewrite elem_of_cons. split; [intros [?|?]; [discriminate | assumption] | by right].
  - cbn [parse_commandline]. rewrite bool_decide_eq_true_2 by (by left). reflexivity.
Qed.

(** X1. When the arguments are not accepted (an option getopt does not
    know, or no non-empty [-r] path), the run exits with status 1 having
    done nothing but write the usage lines: no engine call is made, no
    handle is held, the heap is empty, whatever the engine would answer. *)
Theorem bad_arguments_exit_before_engine e argv0 results fuel :
  ~ arguments_ok results ->
  run e argv0 results fuel = Exit 1 (only_errors (bad_arguments_lines argv0 results)).
Proof.
  intros Hbad. unfold run, main, bind at 1. rewrite parse_commandline_outcome.
  unfold bad_arguments_lines. case_bool_decide as Hu; [reflexivity|].
  rewrite <- repository_path_fold. unfold bind at 1.
  rewrite bool_decide_eq_true_2; [reflexivity|].
  destruct (decide (repository_path results = EmptyString)) as [|Hne]; [assumption|].
  destruct Hbad. by split.
Qed.

Lemma bad_arguments_exit_before_engine_witness :
  run good_engine "simple" [OptR "/models"; OptUnknown] 1
  = Exit 1 (only_errors ["Usage: simple [options]"; tab +:+ "-r [model repository absolute path]"]).
Proof.
  rewrite (bad_arguments_exit_before_engine good_engine "simple" [OptR "/models"; OptUnknown] 1).
  - reflexivity.
  - intros [Hu _]. apply Hu. right. left.
Defined.

(** X2. Of several [-r] options the last one counts: main runs as it
    does when given only that one. *)
Theorem last_repository_path_wins e argv0 results fuel w :
  OptUnknown ∉ results ->
  main e argv0 fuel results w = main e argv0 fuel [OptR (repository_path results)] w.
Proof.
  intros Hu.
  assert (parse_commandline argv0 results EmptyString w
          = parse_commandline argv0 [OptR (repository_path results)] EmptyString w) as Hp.
  { rewrite !parse_commandline_outcome.
    rewrite bool_decide_eq_false_2 by assumption.
    rewrite bool_decide_eq_false_2; [reflexivity|].
    intros [?|[]%elem_of_nil]%elem_of_cons. discriminate. }
  unfold main, bind at 1. rewrite Hp. reflexivity.
Qed.

Lemma last_repository_path_wins_witness :
  main good_engine "simple" 1 [OptR "/old"; OptR "/models"] (empty_world 0)
  = main good_engine "simple" 1 [OptR "/models"] (empty_world 0).
Proof.
  apply (last_repository_path_wins good_engine "simple" [OptR "/old"; OptR "/models"] 1
           (empty_world 0)).
  intros [?|[?|[]%elem_of_nil]%elem_of_cons]%elem_of_cons; discriminate.
Defined.

Lemma stderr_lines_trace w : stderr_lines w = error_lines (trace w).
Proof. reflexivity. Qed.

Lemma error_lines_cons ev t :
  error_lines (ev :: t) = error_lines t ++ match ev with EvError m => [m] | _ => [] end.
Proof.
  unfold error_lines. simpl. rewrite omap_app. simpl. by destruct ev.
Qed.

Lemma error_lines_grows t t' : grows t t' -> error_lines t' = error_lines t.
Proof.
  induction 1 as [|ev t' Hev _ IH]; [reflexivity|].
  rewrite error_lines_cons, IH. destruct ev; try contradiction; apply app_nil_r.
Qed.

Section Loops.

Variable e : Engine.

Lemma wait_server_healthy_step fuel n w :
  wait_server_healthy e (S fuel) n w =
  match e_is_live e n with
  | Failure err =>
      Exit 1 (emit (EvError ("error: " +:+ "unable to get server liveness" +:+ ": " +:+ err)) w)
  | Success live =>
      match e_is_ready e n with
      | Failure err =>
          Exit 1 (emit (EvError ("error: " +:+ "unable to get server readiness" +:+ ": " +:+ err)) w)
      | Success ready =>
          let w1 := emit (EvInfo ("Server Health: live " +:+ pretty (Z.b2z live) +:+
                                  ", ready " +:+ pretty (Z.b2z ready))) w in
          if live && ready then Ret tt w1
          else if (10 <=? S n)%nat
               then Exit 1 (emit (EvError ("error: " +:+ "failed to find healthy inference server")) w1)
               else wait_server_healthy e fuel (S n) (emit (EvSleep 500) w1)
      end
  end.
Proof.
  cbn [wait_server_healthy]. unfold bind, FAIL_IF_ERR, ret, bind.
  destruct (e_is_live e n) as [live|err]; [|reflexivity].
  destruct (e_is_ready e n) as [ready|err]; [|reflexivity].
  cbn [LOG_INFO]. destruct (live && ready); [reflexivity|].
  destruct (10 <=? S n)%nat; reflexivity.
Qed.

Lemma same_resources_refl w : same_resources w w.
Proof. repeat split. apply grows_refl. Qed.

Lemma wait_server_healthy_skip k n fuel w :
  (n <= k < 10)%nat ->
  (forall j, (n <= j < k)%nat -> health_at e j false) ->
  exists w1,
    wait_server_healthy e ((k - n) + fuel) n w = wait_server_healthy e fuel k w1 /\
    sleep_count (trace w1) = ((k - n) + sleep_count (trace w))%nat /\
    same_resources w w1.
Proof.
  remember (k - n)%nat as d eqn:Hd. revert n w Hd.
  induction d as [|d IH]; intros n w Hd Hk Hbefore.
  - assert (n = k) as -> by lia. exists w. split; [reflexivity|].
    split; [reflexivity | apply same_resources_refl].
  - destruct (Hbefore n) as (live & ready & Hl & Hr & Hboth); [lia|].
    cbn [Nat.add]. rewrite wait_server_healthy_step, Hl, Hr. cbv zeta. rewrite Hboth.
    destruct (Nat.leb_spec 10 (S n)); [lia|].
    match goal with |- context [wait_server_healthy e (d + fuel) (S n) ?w0] =>
      destruct (IH (S n) w0) as (w1 & -> & Hcount & Hg & Hh & Hu & Hb & Hs);
        [lia | lia | intros j Hj; apply Hbefore; lia |] end.
    exists w1. split; [reflexivity|]. simpl in *. split; [lia|].
    repeat split; try assumption.
    eapply grows_trans; [|exact Hg]. apply grows_sleep, grows_info, grows_refl.
Qed.

End Loops.

(** X3. Whatever the engine answers, the health loop is over after at
    most ten polls, having slept at most nine times. *)
Theorem wait_server_healthy_ends_within_ten_polls e fuel w :
  (10 <= fuel)%nat ->
  finished (wait_server_healthy e fuel 0 w) /\
  (sleep_count (trace (final_world (wait_server_healthy e fuel 0 w)))
   <= 9 + sleep_count (trace w))%nat.
Proof.
  intros Hfuel.
  assert (forall d n fuel w, (n + d = 10)%nat -> (0 < d <= fuel)%nat ->
            finished (wait_server_healthy e fuel n w) /\
            (sleep_count (trace (final_world (wait_server_healthy e fuel n w)))
             <= (d - 1) + sleep_count (trace w))%nat) as H.
  { clear. induction d as [|d IH]; intros n fuel w Hn Hd; [lia|].
    destruct fuel as [|fuel]; [lia|]. rewrite wait_server_healthy_step.
    destruct (e_is_live e n) as [live|err]; [|simpl; split; [exact I | lia]].
    destruct (e_is_ready e n) as [ready|err]; [|simpl; split; [exact I | lia]].
    cbv zeta. destruct (live && ready); [simpl; split; [exact I | lia]|].
    destruct (Nat.leb_spec 10 (S n)); [simpl; split; [exact I | lia]|].
    match goal with |- context [wait_server_healthy e fuel (S n) ?w0] =>
      destruct (IH (S n) fuel w0) as [Hfin Hcount]; [lia | lia |] end.
    split; [assumption|]. simpl in Hcount. lia. }
  apply (H 10%nat 0%nat); lia.
Qed.

Lemma wait_server_healthy_ends_within_ten_polls_witness :
  finished (wait_server_healthy good_engine 10 0 (empty_world 0)).
Proof.
  apply (wait_server_healthy_ends_within_ten_polls good_engine 10 (empty_world 0)). lia.
Defined.

(** X4. A server that answers ten polls without being live and ready
    makes the health loop exit with status 1 at the tenth, after nine
    sleeps, with the one line "failed to find healthy inference server"
    added to the error stream and the handles as they were. *)
Theorem never_healthy_server_gives_up_at_tenth_poll e fuel w :
  (forall j, (j < 10)%nat -> health_at e j false) -> (10 <= fuel)%nat ->
  exists w',
    wait_server_healthy e fuel 0 w = Exit 1 w' /\
    stderr_lines w' = stderr_lines w ++ ["error: failed to find healthy inference server"] /\
    sleep_count (trace w') = (9 + sleep_count (trace w))%nat /\
    handles w' = handles w.
Proof.
  intros Hbad Hfuel.
  destruct (wait_server_healthy_skip e 9 0 (fuel - 9) w) as (w1 & Heq & Hcount & Hg & Hh & _);
    [lia | intros j Hj; apply Hbad; lia |].
  replace (9 - 0 + (fuel - 9))%nat with fuel in Heq by lia. rewrite Heq.
  destruct (fuel - 9)%nat as [|fuel'] eqn:Hf; [lia|].
  destruct (Hbad 9%nat) as (live & ready & Hl & Hr & Hboth); [lia|].
  rewrite wait_server_healthy_step, Hl, Hr. cbv zeta. rewrite Hboth. cbn [Nat.leb].
  eexists. split; [reflexivity|]. rewrite !stderr_lines_trace. cbn [trace emit handles].
  split; [|split; [simpl; lia | assumption]].
  rewrite !error_lines_cons, (error_lines_grows _ _ Hg). by rewrite app_nil_r.
Qed.

Lemma never_healthy_server_gives_up_at_tenth_poll_witness :
  exists w',
    wait_server_healthy never_healthy_engine 10 0 (empty_world 0) = Exit 1 w' /\
    sleep_count (trace w') = 9%nat.
Proof.
  destruct (never_healthy_server_gives_up_at_tenth_poll never_healthy_engine 10 (empty_world 0))
    as (w' & Hrun & _ & Hcount & _).
  - intros j _. exists true, false. repeat split.
  - lia.
  - exists w'. split; [exact Hrun | exact Hcount].
Defined.

(** X5. An error of the liveness or of the readiness query at poll [k]
    ends the run at that poll: status 1, the message of the failed query
    with the engine's error text, and the [k] sleeps of the earlier
    polls. *)
Theorem health_query_error_is_fatal_at_once e k fuel w err msg :
  (k < 10)%nat -> (forall j, (j < k)%nat -> health_at e j false) ->
  (e_is_live e k = Failure err /\ msg = "unable to get server liveness") \/
  ((exists live, e_is_live e k = Success live) /\ e_is_ready e k = Failure err /\
   msg = "unable to get server readiness") ->
  (k < fuel)%nat ->
  exists w',
    wait_server_healthy e fuel 0 w = Exit 1 w' /\
    stderr_lines w' = stderr_lines w ++ ["error: " +:+ msg +:+ ": " +:+ err] /\
    sleep_count (trace w') = (k + sleep_count (trace w))%nat.
Proof.
  intros Hk Hbefore Herr Hfuel.
  destruct (wait_server_healthy_skip e k 0 (fuel - k) w) as (w1 & Heq & Hcount & Hg & _);
    [lia | intros j Hj; apply Hbefore; lia |].
  replace (k - 0 + (fuel - k))%nat with fuel in Heq by lia. rewrite Heq.
  destruct (fuel - k)%nat as [|fuel'] eqn:Hf; [lia|].
  rewrite wait_server_healthy_step.
  destruct Herr as [[Hl ->]|[[live Hl] [Hr ->]]]; rewrite Hl, ?Hr;
    (eexists; split; [reflexivity|]; rewrite !stderr_lines_trace; cbn [trace emit];
     split; [|simpl; lia];
     by rewrite error_lines_cons, (error_lines_grows _ _ Hg)).
Qed.

Lemma health_query_error_is_fatal_at_once_witness :
  exists w',
    wait_server_healthy
      (with_is_live (fun k => if (k <? 2)%nat then Success false else Failure "timed out")
         good_engine) 5 0 (empty_world 0) = Exit 1 w' /\
    stderr_lines w' = ["error: unable to get server liveness: timed out"] /\
    sleep_count (trace w') = 2%nat.
Proof.
  destruct (health_query_error_is_fatal_at_once
              (with_is_live (fun k => if (k <? 2)%nat then Success false
                                      else Failure "timed out") good_engine)
              2 5 (empty_world 0) "timed out" "unable to get server liveness")
    as (w' & Hrun & Herr & Hcount).
  - lia.
  - intros j Hj. exists false, true. split; [|split; reflexivity].
    simpl. destruct (Nat.ltb_spec j 2); [reflexivity | lia].
  - left. split; reflexivity.
  - lia.
  - exists w'. split; [exact Hrun|]. split; [exact Herr | exact Hcount].
Defined.

Section ModelLoop.

Variable e : Engine.

Lemma wait_model_ready_step fuel k w :
  wait_model_ready e (S fuel) k w =
  match e_model_status e k with
  | Failure err =>
      Exit 1 (emit (EvError ("error: " +:+ "unable to get model status protobuf" +:+ ": " +:+ err)) w)
  | Success _ =>
      let w1 := acquired (HModelStatusPb k) w in
      match e_model_status_serialize e k with
      | Failure err =>
          Exit 1 (emit (EvError ("error: " +:+ "unable to serialize model status protobuf" +:+
                                 ": " +:+ err)) w1)
      | Success None =>
          Exit 1 (emit (EvError ("error: " +:+ "error: failed to parse model status")) w1)
      | Success (Some st) =>
          match model_status st !! "simple" with
          | None =>
              Exit 1 (emit (EvError ("error: " +:+ "unable to find status for model 'simple'")) w1)
          | Some ms =>
              match version_status ms !! 1 with
              | None =>
                  Exit 1 (emit (EvError ("error: " +:+
                                         "unable to find version 1 status for model 'simple'")) w1)
              | Some vs =>
                  let w2 := emit (EvInfo ("'simple' model is " +:+
                                          ModelReadyState_Name (ready_state vs))) w1 in
                  if bool_decide (ready_state vs = MODEL_READY) then Ret tt w2
                  else
                    match e_model_status_delete e k with
                    | Failure err =>
                        Exit 1 (emit (EvError ("error: " +:+ "deleting status protobuf" +:+
                                               ": " +:+ err))
                                  (released (HModelStatusPb k) w2))
                    | Success _ =>
                        wait_model_ready e fuel (S k)
                          (emit (EvSleep 500) (released (HModelStatusPb k) w2))
                    end
              end
          end
      end
  end.
Proof.
  cbn [wait_model_ready]. unfold bind, FAIL_IF_ERR, call_new, call_delete, ret, bind.
  destruct (e_model_status e k) as [[]|err]; [|reflexivity]. cbn [acquire].
  destruct (e_model_status_serialize e k) as [[st|]|err]; [|reflexivity|reflexivity].
  destruct (model_status st !! "simple") as [ms|]; [|reflexivity].
  destruct (version_status ms !! 1) as [vs|]; [|reflexivity].
  cbn [LOG_INFO]. case_bool_decide; [reflexivity|]. cbn [release].
  destruct (e_model_status_delete e k) as [[]|err]; reflexivity.
Qed.

Lemma wait_model_ready_skip k n fuel w :
  (n <= k)%nat ->
  (forall j, (n <= j < k)%nat -> model_waiting_at e j) ->
  exists w1,
    wait_model_ready e ((k - n) + fuel) n w = wait_model_ready e fuel k w1 /\
    sleep_count (trace w1) = ((k - n) + sleep_count (trace w))%nat /\
    grows (trace w) (trace w1) /\
    (forall x, x ∈ handles w1 <->
               x ∈ handles w /\ forall j, (n <= j < k)%nat -> x ≠ HModelStatusPb j) /\
    undefined w1 = undefined w /\ blocks w1 = blocks w /\ shared w1 = shared w.
Proof.
  remember (k - n)%nat as d eqn:Hd. revert n w Hd.
  induction d as [|d IH]; intros n w Hd Hk Hbefore.
  - assert (n = k) as -> by lia. exists w. split; [reflexivity|].
    split; [reflexivity|]. split; [apply grows_refl|]. split; [|auto].
    intros x. split; [intros Hx; split; [assumption | lia] | tauto].
  - destruct (Hbefore n) as ((s & Hs & H1 & st & ms & vs & H2 & Hms & Hvs & Hst) & Hdel);
      [lia|].
    cbn [Nat.add]. rewrite wait_model_ready_step, H1, H2, Hms, Hvs. cbv zeta.
    rewrite bool_decide_eq_false_2 by congruence. rewrite Hdel.
    match goal with |- context [wait_model_ready e (d + fuel) (S n) ?w0] =>
      destruct (IH (S n) w0) as (w1 & -> & Hcount & Hg & Hh & Hu & Hb & Hsh);
        [lia | lia | intros j Hj; apply Hbefore; lia |] end.
    exists w1. split; [reflexivity|]. cbn [trace handles undefined blocks shared emit
      released acquired set_handles] in *.
    split; [simpl in Hcount; lia|]. split.
    { eapply grows_trans; [|exact Hg]. apply grows_sleep, grows_info, grows_refl. }
    split; [|split; [|auto]].
    + intros x. rewrite Hh, list_elem_of_filter, elem_of_cons. split.
      * intros ((Hne & [->|Hx]) & Hlater); [contradiction|]. split; [assumption|].
        intros j Hj. destruct (decide (j = n)) as [->|]; [assumption | apply Hlater; lia].
      * intros (Hx & Hall). split; [split; [apply Hall; lia | by right]|].
        intros j Hj. apply Hall. lia.
    + rewrite Hu. rewrite bool_decide_eq_true_2 by (by left). apply orb_false_r.
Qed.

End ModelLoop.

(** X6. The model loop leaves at the first poll [k] that reports the
    model ready, after one sleep per earlier poll and without a line on
    the error stream; it then holds the status protobuf of poll [k], and
    none of the earlier polls'. *)
Theorem wait_model_ready_returns_at_first_ready_poll e k n fuel w :
  (n <= k)%nat -> (k - n < fuel)%nat ->
  model_state_at e k MODEL_READY ->
  (forall j, (n <= j < k)%nat -> model_waiting_at e j) ->
  exists w',
    wait_model_ready e fuel n w = Ret tt w' /\
    sleep_count (trace w') = ((k - n) + sleep_count (trace w))%nat /\
    stderr_lines w' = stderr_lines w /\
    (forall x, x ∈ handles w' <->
               x = HModelStatusPb k \/
               (x ∈ handles w /\ forall j, (n <= j < k)%nat -> x ≠ HModelStatusPb j)) /\
    undefined w' = undefined w.
Proof.
  intros Hk Hfuel (H1 & st & ms & vs & H2 & Hms & Hvs & Hst) Hbefore.
  destruct (wait_model_ready_skip e k n (fuel - (k - n)) w Hk Hbefore)
    as (w1 & Heq & Hcount & Hg & Hh & Hu & _).
  replace (k - n + (fuel - (k - n)))%nat with fuel in Heq by lia. rewrite Heq.
  destruct (fuel - (k - n))%nat as [|fuel'] eqn:Hf; [lia|].
  rewrite wait_model_ready_step, H1, H2, Hms, Hvs. cbv zeta.
  rewrite bool_decide_eq_true_2 by assumption.
  eexists. split; [reflexivity|]. rewrite !stderr_lines_trace.
  cbn [trace emit acquired set_handles handles undefined].
  split; [simpl; lia|]. split.
  { by rewrite error_lines_cons, (error_lines_grows _ _ Hg), app_nil_r. }
  split; [|assumption]. intros x. rewrite elem_of_cons, Hh. tauto.
Qed.

Lemma wait_model_ready_returns_at_first_ready_poll_witness :
  exists w',
    wait_model_ready good_engine 1 0 (empty_world 0) = Ret tt w' /\
    sleep_count (trace w') = 0%nat.
Proof.
  destruct (wait_model_ready_returns_at_first_ready_poll good_engine 0 0 1 (empty_world 0))
    as (w' & Hrun & Hcount & _).
  - lia.
  - lia.
  - split; [reflexivity|].
    exists (status_of MODEL_READY), (mkModelStatus {[ 1 := mkModelVersionStatus MODEL_READY ]}),
      (mkModelVersionStatus MODEL_READY).
    split; [reflexivity|]. split; [by vm_compute|]. split; [by vm_compute | reflexivity].
  - intros j Hj. lia.
  - exists w'. split; [exact Hrun | exact Hcount].
Defined.

(** X7. A status that does not list model [simple], or not its version 1,
    is fatal at the poll that sees it: status 1 with the message of the
    failed lookup, and the protobuf of that poll still held. *)
Theorem unlisted_model_is_fatal e k n fuel w st msg :
  (n <= k)%nat -> (k - n < fuel)%nat ->
  (forall j, (n <= j < k)%nat -> model_waiting_at e j) ->
  e_model_status e k = Success tt ->
  e_model_status_serialize e k = Success (Some st) ->
  lookup_failure st = Some msg ->
  exists w',
    wait_model_ready e fuel n w = Exit 1 w' /\
    stderr_lines w' = stderr_lines w ++ ["error: " +:+ msg] /\
    sleep_count (trace w') = ((k - n) + sleep_count (trace w))%nat /\
    HModelStatusPb k ∈ handles w'.
Proof.
  intros Hk Hfuel Hbefore H1 H2 Hlook.
  destruct (wait_model_ready_skip e k n (fuel - (k - n)) w Hk Hbefore)
    as (w1 & Heq & Hcount & Hg & Hh & Hu & _).
  replace (k - n + (fuel - (k - n)))%nat with fuel in Heq by lia. rewrite Heq.
  destruct (fuel - (k - n))%nat as [|fuel'] eqn:Hf; [lia|].
  rewrite wait_model_ready_step, H1, H2. cbv zeta. unfold lookup_failure in Hlook.
  destruct (model_status st !! "simple") as [ms|].
  - destruct (version_status ms !! 1) as [vs|]; [discriminate|]. injection Hlook as <-.
    eexists. split; [reflexivity|]. rewrite !stderr_lines_trace.
    cbn [trace emit acquired set_handles handles].
    split; [by rewrite error_lines_cons, (error_lines_grows _ _ Hg)|].
    split; [assumption | by left].
  - injection Hlook as <-.
    eexists. split; [reflexivity|]. rewrite !stderr_lines_trace.
    cbn [trace emit acquired set_handles handles].
    split; [by rewrite error_lines_cons, (error_lines_grows _ _ Hg)|].
    split; [assumption | by left].
Qed.

Lemma unlisted_model_is_fatal_witness :
  exists w',
    wait_model_ready unlisted_model_engine 1 0 (empty_world 0) = Exit 1 w' /\
    stderr_lines w' = ["error: unable to find status for model 'simple'"].
Proof.
  destruct (unlisted_model_is_fatal unlisted_model_engine 0 0 1 (empty_world 0)
              (mkServerStatus ∅) "unable to find status for model 'simple'")
    as (w' & Hrun & Herr & _).
  - lia.
  - lia.
  - intros j Hj. lia.
  - reflexivity.
  - reflexivity.
  - reflexivity.
  - exists w'. split; [exact Hrun | exact Herr].
Defined.

Lemma tidy_bind {A B} (m : M A) (f : A -> M B) Hin Hmid Hout Hexit :
  tidy m Hin Hmid Hexit ->
  (forall a H, Hmid a H -> tidy (f a) H Hout Hexit) ->
  tidy (bind m f) Hin Hout Hexit.
Proof.
  intros Hm Hf w Hu Hh. apply sat_bind. eapply sat_mono; [apply (Hm w Hu Hh) | | auto ..].
  cbv beta. intros a w1 (Hu1 & Hh1 & Hb1 & He1).
  eapply sat_mono; [apply (Hf a _ Hh1 w1 Hu1 eq_refl) | | auto ..]; cbv beta.
  intros b w2 (? & ? & ? & ?). repeat split; [assumption.. | congruence | congruence].
Qed.

Lemma tidy_weaken {A} (m : M A) Hin (Hout Hout' : A -> list Handle -> Prop)
    (Hexit Hexit' : list Handle -> Prop) :
  tidy m Hin Hout Hexit ->
  (forall a H, Hout a H -> Hout' a H) -> (forall H, Hexit H -> Hexit' H) ->
  tidy m Hin Hout' Hexit'.
Proof.
  intros Hm Ho Hx w Hu Hh. eapply sat_mono; [apply (Hm w Hu Hh) | | | auto]; cbv beta.
  - intros a w' (? & ? & ? & ?). auto.
  - intros c w' (? & ?). auto.
Qed.

Lemma filter_absent (h : Handle) (H : list Handle) :
  h ∉ H -> filter (fun x => x ≠ h) H = H.
Proof.
  induction H as [|x H IH]; intros Hnot; [reflexivity|].
  apply not_elem_of_cons in Hnot as [Hne Hnot].
  rewrite filter_cons_True by congruence. by rewrite IH.
Qed.

Lemma released_acquired (h : Handle) (w : World) :
  h ∉ handles w ->
  handles (released h (acquired h w)) = handles w /\
  undefined (released h (acquired h w)) = undefined w.
Proof.
  intros Hnot. world_simpl. rewrite filter_cons_False by auto.
  rewrite filter_absent by assumption.
  rewrite bool_decide_eq_true_2 by (by left). by rewrite orb_false_r.
Qed.

Lemma stderr_lines_emit ev w :
  stderr_lines (emit ev w)
  = stderr_lines w ++ match ev with EvError m => [m] | _ => [] end.
Proof. rewrite !stderr_lines_trace. apply error_lines_cons. Qed.

Lemma stderr_lines_acquired h w : stderr_lines (acquired h w) = stderr_lines w.
Proof. reflexivity. Qed.

Lemma stderr_lines_released h w : stderr_lines (released h w) = stderr_lines w.
Proof. reflexivity. Qed.

Ltac tidy_simpl :=
  repeat first [rewrite stderr_lines_emit | rewrite stderr_lines_acquired
               | rewrite stderr_lines_released];
  rewrite ?app_nil_r; world_simpl.

Ltac tidy_goal Hu Hh :=
  try solve [ tidy_simpl; rewrite ?Hh, ?Hu; repeat split;
              first [ reflexivity
                    | unfold held_at_exit; vm_compute;
                      solve [auto | right; right; repeat constructor] ] ].

Section Tidy.

Variable e : Engine.
Variable argv0 : string.

Lemma parse_commandline_tidy results path0 H :
  tidy (parse_commandline argv0 results path0) H (fun _ H' => H' = H) (fun H' => H' = H).
Proof.
  intros w Hu Hh. unfold sat. rewrite parse_commandline_outcome.
  case_bool_decide; tidy_goal Hu Hh.
Qed.

Lemma Usage_tidy msg H :
  tidy (Usage argv0 msg) H (fun _ _ => False) (fun H' => H' = H).
Proof.
  intros w Hu Hh. unfold sat, Usage, bind, LOG_ERROR, exit, ret.
  case_bool_decide; tidy_goal Hu Hh.
Qed.

Ltac tidy_step Hu Hh :=
  lazymatch goal with
  | |- sat (bind _ _) _ _ _ _ => apply sat_bind
  | |- sat (FAIL_IF_ERR (ret ?r) _) _ _ _ _ =>
      apply sat_FAIL_IF_ERR_ret; destruct r as [?|?] eqn:?; [cbv beta | tidy_goal Hu Hh]
  | |- sat (FAIL_IF_ERR (call_new ?r _) _) _ _ _ _ =>
      apply sat_FAIL_IF_ERR_new; destruct r as [?|?] eqn:?; [cbv beta | tidy_goal Hu Hh]
  | |- sat (FAIL_IF_ERR (call_delete ?r _) _) _ _ _ _ =>
      apply sat_FAIL_IF_ERR_delete; destruct r as [?|?] eqn:?; [cbv beta | tidy_goal Hu Hh]
  | |- sat (LOG_INFO _) _ _ _ _ => apply sat_LOG_INFO; cbv beta
  | |- sat (sleep_for _) _ _ _ _ => apply sat_sleep_for; cbv beta
  | |- sat (FAIL _) _ _ _ _ => apply sat_FAIL; tidy_goal Hu Hh
  | |- sat (ret _) _ _ _ _ => apply sat_ret
  end.

Ltac tidy_steps Hu Hh := repeat tidy_step Hu Hh.

Lemma create_server_tidy path :
  tidy (create_server e path) [] (fun _ H' => H' = [HServer]) held_at_exit.
Proof.
  intros w Hu Hh. unfold create_server. tidy_steps Hu Hh. tidy_goal Hu Hh.
Qed.

Lemma wait_server_healthy_tidy fuel n H :
  tidy (wait_server_healthy e fuel n) H (fun _ H' => H' = H) (fun H' => H' = H).
Proof.
  revert n. induction fuel as [|fuel IH]; intros n w Hu Hh; [exact Hu|].
  unfold sat. rewrite wait_server_healthy_step.
  destruct (e_is_live e n) as [live|err]; [|tidy_goal Hu Hh].
  destruct (e_is_ready e n) as [ready|err]; [|tidy_goal Hu Hh].
  cbv zeta. destruct (live && ready); [tidy_goal Hu Hh|].
  destruct (10 <=? S n)%nat; [tidy_goal Hu Hh|].
  match goal with |- context [wait_server_healthy e fuel (S n) ?w0] =>
    pose proof (IH (S n) w0 Hu Hh) as Hrec; unfold sat in Hrec;
    destruct (wait_server_healthy e fuel (S n) w0) end.
  - revert Hrec. tidy_simpl. tauto.
  - exact Hrec.
  - exact Hrec.
Qed.

Lemma print_server_status_tidy H :
  HServerStatusPb ∉ H ->
  tidy (print_server_status e) H (fun _ H' => H' = H)
    (fun H' => H' = H \/ H' = HServerStatusPb :: H).
Proof.
  intros Hnot w Hu Hh. unfold print_server_status. rewrite <- Hh in Hnot.
  destruct (released_acquired _ _ Hnot) as [Hh' Hu'].
  tidy_steps Hu Hh; try (tidy_simpl; rewrite ?Hh, ?Hu; auto 10; fail).
  destruct a0 as [st|]; tidy_steps Hu Hh.
  all: tidy_simpl; rewrite ?Hh', ?Hu', ?Hu, ?Hh; auto 10.
Qed.

Lemma wait_model_ready_tidy fuel n H :
  (forall j, HModelStatusPb j ∉ H) ->
  tidy (wait_model_ready e fuel n) H
    (fun _ H' => exists k, (n <= k)%nat /\ model_state_at e k MODEL_READY /\
                           (forall j, (n <= j < k)%nat -> model_waiting_at e j) /\
                           H' = HModelStatusPb k :: H)
    (fun H' => H' = H \/ exists k, H' = HModelStatusPb k :: H).
Proof.
  intros Hnot. revert n.
  induction fuel as [|fuel IH]; intros n w Hu Hh; [exact Hu|].
  unfold sat. rewrite wait_model_ready_step.
  destruct (e_model_status e n) as [[]|err] eqn:H1; [|tidy_simpl; auto].
  destruct (e_model_status_serialize e n) as [[st|]|err] eqn:H2; cbv zeta;
    [|tidy_simpl; rewrite Hh; eauto ..].
  destruct (model_status st !! "simple") as [ms|] eqn:Hms; [|tidy_simpl; rewrite Hh; eauto].
  destruct (version_status ms !! 1) as [vs|] eqn:Hvs; [|tidy_simpl; rewrite Hh; eauto].
  assert (HModelStatusPb n ∉ handles w) as Hn by (rewrite Hh; apply Hnot).
  destruct (released_acquired _ _ Hn) as [Hh' Hu'].
  case_bool_decide as Hst.
  - tidy_simpl. rewrite Hh. split; [assumption|]. split; [|auto].
    exists n. split; [lia|]. split; [|split; [intros j Hj; lia | reflexivity]].
    split; [assumption|]. exists st, ms, vs. auto.
  - destruct (e_model_status_delete e n) as [[]|err] eqn:Hdel.
    + match goal with |- context [wait_model_ready e fuel (S n) ?w0] =>
        assert (undefined w0 = false) as Hu0 by (world_simpl; congruence);
        assert (handles w0 = H) as Hh0 by (world_simpl; congruence);
        pose proof (IH (S n) w0 Hu0 Hh0) as Hrec; unfold sat in Hrec;
        destruct (wait_model_ready e fuel (S n) w0) as [[] w'|c w'|w'] end.
      * destruct Hrec as (Hu1 & (k & Hk & Hready & Hwait & Hh1) & Hb1 & He1).
        split; [assumption|]. split.
        { exists k. split; [lia|]. split; [assumption|]. split; [|assumption].
          intros j Hj. destruct (decide (j = n)) as [->|]; [|apply Hwait; lia].
          split; [|assumption]. exists (ready_state vs). split; [assumption|].
          split; [assumption|]. exists st, ms, vs. auto. }
        revert Hb1 He1. tidy_simpl. auto.
      * exact Hrec.
      * exact Hrec.
    + tidy_simpl. split; [congruence|]. left. congruence.
Qed.

Lemma for_each_tidy {A} (l : list A) (body : A -> M unit) H :
  (forall i, tidy (body i) H (fun _ H' => H' = H) (fun H' => H' = H)) ->
  tidy (for_each l body) H (fun _ H' => H' = H) (fun H' => H' = H).
Proof.
  intros Hbody. induction l as [|i l IH].
  - intros w Hu Hh. apply sat_ret. auto.
  - simpl. eapply tidy_bind; [apply Hbody|]. intros _ H' ->. apply IH.
Qed.

Lemma check_output_placement_tidy which o H :
  tidy (check_output_placement which o) H (fun _ H' => H' = H) (fun H' => H' = H).
Proof.
  intros w Hu Hh. unfold check_output_placement.
  destruct (negb _); [tidy_steps Hu Hh|].
  destruct (negb _); tidy_steps Hu Hh. auto.
Qed.

Lemma check_values_tidy in0 in1 out0 out1 name0 name1 H :
  tidy (check_values in0 in1 out0 out1 name0 name1) H
    (fun _ H' => H' = H) (fun H' => H' = H).
Proof.
  unfold check_values. apply for_each_tidy. intros i w Hu Hh. tidy_steps Hu Hh.
  destruct (negb _); tidy_steps Hu Hh.
  destruct (negb _); tidy_steps Hu Hh.
  tidy_simpl. auto.
Qed.

Lemma FAIL_IF_ERR_ret_tidy {A} (r : Reply A) msg H :
  tidy (FAIL_IF_ERR (ret r) msg) H (fun _ H' => H' = H) (fun H' => H' = H).
Proof. intros w Hu Hh. tidy_steps Hu Hh. auto. Qed.

Lemma check_outputs_tidy H :
  tidy (check_outputs e) H (fun _ H' => H' = H) (fun H' => H' = H).
Proof.
  rewrite check_outputs_eq.
  eapply tidy_bind; [apply FAIL_IF_ERR_ret_tidy|]. intros o0 H' ->.
  eapply tidy_bind; [apply check_output_placement_tidy|]. intros _ H' ->.
  eapply tidy_bind; [apply FAIL_IF_ERR_ret_tidy|]. intros o1 H' ->.
  eapply tidy_bind; [apply check_output_placement_tidy|]. intros _ H' ->.
  apply check_values_tidy.
Qed.

Lemma print_response_header_tidy k :
  tidy (print_response_header e) [HResponse; HAllocator; HModelStatusPb k; HServer]
    (fun _ H' => H' = [HResponse; HAllocator; HModelStatusPb k; HServer]) held_at_exit.
Proof.
  intros w Hu Hh. unfold print_response_header. tidy_steps Hu Hh.
  destruct (negb _); tidy_steps Hu Hh. tidy_goal Hu Hh.
Qed.

Lemma teardown_tidy k :
  tidy (teardown e) [HResponse; HAllocator; HModelStatusPb k; HServer]
    (fun _ H' => H' = [HModelStatusPb k; HServer]) held_at_exit.
Proof.
  intros w Hu Hh. unfold teardown. tidy_steps Hu Hh. tidy_goal Hu Hh.
Qed.

Lemma infer_and_check_tidy k :
  tidy (infer_and_check e) [HModelStatusPb k; HServer]
    (fun _ H' => H' = [HModelStatusPb k; HServer]) held_at_exit.
Proof.
  intros w Hu Hh. unfold infer_and_check. apply sat_bind.
  rewrite submit_request_eq. tidy_steps Hu Hh.
  unfold sat at 1. cbn [new_promise].
  tidy_steps Hu Hh. units.
  unfold sat at 1, engine_completes, bind at 1, acquire.
  rewrite InferComplete_spec by (world_simpl; apply lookup_insert_eq).
  apply sat_bind. unfold sat at 1, future_get. world_simpl. rewrite lookup_insert_eq.
  assert (tidy (print_response_header e ;;; check_outputs e ;;; teardown e)
            [HResponse; HAllocator; HModelStatusPb k; HServer]
            (fun _ H' => H' = [HModelStatusPb k; HServer]) held_at_exit) as Hrest.
  { eapply tidy_bind; [apply print_response_header_tidy|]. intros _ H' ->.
    eapply tidy_bind with (Hmid := fun _ H' => H' = [HResponse; HAllocator; HModelStatusPb k; HServer]);
      [|intros _ H' ->; apply teardown_tidy].
    eapply tidy_weaken; [apply check_outputs_tidy | intros a H' HH'; exact HH' |].
    intros H' ->. right. right. repeat constructor. }
  match goal with |- sat _ ?w0 _ _ _ =>
    assert (undefined w0 = false) as Hu0 by (world_simpl; rewrite Hh, Hu; reflexivity);
    assert (handles w0 = [HResponse; HAllocator; HModelStatusPb k; HServer]) as Hh0
      by (world_simpl; rewrite Hh; reflexivity);
    assert (blocks w0 = blocks w) as Hb0
      by (world_simpl; apply delete_insert_id;
          match goal with |- context [fresh_addr ?w1] => exact (fresh_addr_not_live w1) end);
    assert (stderr_lines w0 = stderr_lines w) as He0
      by (rewrite !stderr_lines_trace; world_simpl;
          rewrite !error_lines_cons, !app_nil_r; reflexivity);
    eapply sat_mono; [apply (Hrest w0 Hu0 Hh0) | | auto ..]
  end.
  cbv beta. intros a w' (? & ? & Hb' & He'). rewrite Hb', He'. auto.
Qed.

Lemma main_tidy fuel results :
  tidy (main e argv0 fuel results) []
    (fun _ H' => exists k, ready_at_poll e k /\ H' = [HModelStatusPb k]) held_at_exit.
Proof.
  unfold main.
  eapply tidy_bind with (Hmid := fun _ H' => H' = []).
  { eapply tidy_weaken; [apply parse_commandline_tidy | auto |]. intros H' ->. by left. }
  intros path H' ->. cbv beta.
  eapply tidy_bind with (Hmid := fun _ H' => H' = []).
  { case_bool_decide.
    - eapply tidy_weaken; [apply Usage_tidy | intros _ _ [] |]. intros H' ->. by left.
    - intros w Hu Hh. apply sat_ret. auto. }
  intros _ H' ->.
  eapply tidy_bind; [apply create_server_tidy|]. intros _ H' ->.
  eapply tidy_bind with (Hmid := fun _ H' => H' = [HServer]).
  { eapply tidy_weaken; [apply wait_server_healthy_tidy | auto |].
    intros H' ->. right. right. repeat constructor. }
  intros _ H' ->.
  eapply tidy_bind with (Hmid := fun _ H' => H' = [HServer]).
  { eapply tidy_weaken; [apply print_server_status_tidy | auto |].
    - intros [?|[]%elem_of_nil]%elem_of_cons; discriminate.
    - intros H' [->| ->]; right; right; repeat constructor. }
  intros _ H' ->.
  eapply tidy_bind with
    (Hmid := fun _ H' => exists k, ready_at_poll e k /\ H' = [HModelStatusPb k; HServer]).
  { eapply tidy_weaken; [apply (wait_model_ready_tidy fuel 0 [HServer]) | |].
    - intros j [?|[]%elem_of_nil]%elem_of_cons. discriminate.
    - intros a H' (k & _ & Hready & Hwait & ->). exists k. split; [|reflexivity].
      split; [assumption|]. intros j Hj. apply Hwait. lia.
    - intros H' [->|[k ->]]; right; right; repeat constructor. }
  intros _ H' (k & Hready & ->).
  eapply tidy_bind; [apply infer_and_check_tidy|]. intros status H' ->.
  intros w Hu Hh. unfold sat, bind, call_delete, bind, release, ret.
  tidy_simpl. rewrite Hh, Hu. split; [reflexivity|]. split; [|auto].
  exists k. split; [assumption | reflexivity].
Qed.

End Tidy.

(** X8. Whatever the command line and the engine's answers, and however
    long the run is watched, main deletes only engine objects it holds,
    and the completion callback finds the promise live and unresolved:
    nothing undefined happens. *)
Theorem main_stays_within_contracts e argv0 results fuel :
  undefined (final_world (run e argv0 results fuel)) = false.
Proof.
  pose proof (main_tidy e argv0 fuel results (empty_world 0) eq_refl eq_refl) as H.
  unfold sat in H. unfold run. destruct (main e argv0 fuel results (empty_world 0)); simpl.
  - apply H.
  - apply H.
  - apply H.
Qed.

(** X9. A run that returns 0 has written nothing to the error stream,
    leaves the heap empty (the promise is gone), and holds exactly one
    engine object: the model status protobuf of the poll that saw the
    model ready. *)
Theorem successful_run_leaves_one_protobuf e argv0 results fuel w' :
  run e argv0 results fuel = Ret 0 w' ->
  (exists k, ready_at_poll e k /\ handles w' = [HModelStatusPb k]) /\
  blocks w' = ∅ /\ stderr_lines w' = [].
Proof.
  intros Hrun.
  pose proof (main_tidy e argv0 fuel results (empty_world 0) eq_refl eq_refl) as H.
  unfold sat in H. unfold run in Hrun. rewrite Hrun in H.
  destruct H as (_ & Hk & Hb & He). auto.
Qed.

Lemma successful_run_leaves_one_protobuf_witness :
  exists k,
    handles (final_world (run good_engine "simple" [OptR "/models"] 1)) = [HModelStatusPb k] /\
    blocks (final_world (run good_engine "simple" [OptR "/models"] 1)) = ∅.
Proof.
  assert (run good_engine "simple" [OptR "/models"] 1
          = Ret 0 (final_world (run good_engine "simple" [OptR "/models"] 1)))
    as Hrun by (vm_compute; reflexivity).
  pose proof (successful_run_leaves_one_protobuf good_engine "simple" [OptR "/models"] 1
                (final_world (run good_engine "simple" [OptR "/models"] 1)) Hrun) as H.
  destruct H as ((k & _ & Hh) & Hb & _).
  exists k. split; [exact Hh | exact Hb].
Defined.



Lemma tidy_returns {A} (m : M A) (a : A) Hin Hout Hexit w :
  tidy m Hin Hout Hexit -> returns m a ->
  undefined w = false -> handles w = Hin ->
  exists w', m w = Ret a w' /\ undefined w' = false /\ Hout a (handles w') /\
             blocks w' = blocks w /\ stderr_lines w' = stderr_lines w.
Proof.
  intros Ht Hr Hu Hh. destruct (Hr w) as [w' Hw']. exists w'. split; [assumption|].
  pose proof (Ht w Hu Hh) as Hs. unfold sat in Hs. by rewrite Hw' in Hs.
Qed.

Lemma main_reaches_inference e argv0 results :
  ready_to_infer e results ->
  exists fuel k w1,
    ready_at_poll e k /\
    main e argv0 fuel results (empty_world 0)
    = (status <- infer_and_check e ;;
       call_delete (e_server_delete e) HServer ;;; ret status) w1 /\
    undefined w1 = false /\ handles w1 = [HModelStatusPb k; HServer] /\
    blocks w1 = ∅ /\ stderr_lines w1 = [].
Proof.
  intros ((Hunknown & Hpath) & Hcreated & (k1 & Hk1 & Hhealthy & Hunhealthy) & Hprinted &
          (k2 & Hready & Hwaiting)).
  exists (S (k1 + k2)). unfold main.
  destruct (tidy_returns _ _ _ _ _ (empty_world 0)
              (parse_commandline_tidy argv0 results EmptyString [])
              (parse_commandline_returns argv0 results EmptyString Hunknown)
              eq_refl eq_refl) as (w1 & E1 & Hu1 & Hh1 & Hb1 & He1).
  unfold bind at 1. rewrite E1. rewrite <- repository_path_fold.
  rewrite bool_decide_eq_false_2 by assumption. unfold bind at 1, ret at 1.
  destruct (tidy_returns _ _ _ _ _ w1
              (create_server_tidy e (repository_path results))
              (create_server_returns e _ Hcreated) Hu1 Hh1)
    as (w2 & E2 & Hu2 & Hh2 & Hb2 & He2).
  unfold bind at 1. rewrite E2.
  destruct (tidy_returns _ _ _ _ _ w2
              (wait_server_healthy_tidy e (S (k1 + k2)) 0 [HServer])
              (wait_server_healthy_returns e (S (k1 + k2)) 0 k1 ltac:(lia) ltac:(lia) Hhealthy
                 ltac:(intros j Hj; apply Hunhealthy; lia)) Hu2 Hh2)
    as (w3 & E3 & Hu3 & Hh3 & Hb3 & He3).
  unfold bind at 1. rewrite E3.
  assert (HServerStatusPb ∉ [HServer]) as Hnot.
  { intros [?|[]%elem_of_nil]%elem_of_cons; discriminate. }
  destruct (tidy_returns _ _ _ _ _ w3
              (print_server_status_tidy e [HServer] Hnot)
              (print_server_status_returns e Hprinted) Hu3 Hh3)
    as (w4 & E4 & Hu4 & Hh4 & Hb4 & He4).
  unfold bind at 1. rewrite E4.
  assert (forall j, HModelStatusPb j ∉ [HServer]) as Hnot'.
  { intros j [?|[]%elem_of_nil]%elem_of_cons; discriminate. }
  destruct (tidy_returns _ _ _ _ _ w4
              (wait_model_ready_tidy e (S (k1 + k2)) 0 [HServer] Hnot')
              (wait_model_ready_returns e (S (k1 + k2)) 0 k2 ltac:(lia) ltac:(lia) Hready
                 ltac:(intros j Hj; apply Hwaiting; lia)) Hu4 Hh4)
    as (w5 & E5 & Hu5 & (k & _ & Hk & Hw & Hh5) & Hb5 & He5).
  unfold bind at 1. rewrite E5.
  exists k, w5. split.
  { split; [assumption|]. intros j Hj. apply Hw. lia. }
  split; [reflexivity|]. split; [assumption|]. split; [assumption|].
  split; [rewrite Hb5, Hb4, Hb3, Hb2, Hb1 | rewrite He5, He4, He3, He2, He1]; reflexivity.
Qed.

(** X11. When everything up to the request succeeds and
    [TRTSERVER_ServerInferAsync] answers with an error, the run exits with
    status 1 and the one line "error: running inference: <error>"; the
    promise of line 305 is the only object on the heap, never resolved and
    never deleted, and the request provider, the allocator, the model
    status protobuf and the server are still held. *)
Theorem rejected_request_leaves_promise_unresolved e argv0 results err :
  ready_to_infer e results -> request_rejected e err ->
  exists fuel k p w',
    run e argv0 results fuel = Exit 1 w' /\
    stderr_lines w' = ["error: running inference: " +:+ err] /\
    blocks w' = {[ p := BPromise ]} /\ shared w' !! p = Some None /\
    handles w' = [HRequestProvider; HAllocator; HModelStatusPb k; HServer] /\
    undefined w' = false.
Proof.
  intros Hready (H1 & H2 & H3 & H4 & H5).
  destruct (main_reaches_inference e argv0 results Hready)
    as (fuel & k & w1 & Hk & Hrun & Hu & Hh & Hb & He).
  exists fuel, k, (fresh_addr (acquired HRequestProvider (acquired HAllocator w1))).
  unfold run. rewrite Hrun. unfold bind at 1, infer_and_check, bind at 1.
  rewrite submit_request_eq.
  unfold bind, FAIL_IF_ERR, call_new, call_delete, ret, bind.
  rewrite H1, H2, H3, H4, H5. cbn [acquire new_promise LOG_ERROR exit].
  eexists. split; [reflexivity|]. tidy_simpl.
  match goal with |- context [stderr_lines ?x] =>
    change (stderr_lines x) with (stderr_lines w1) end.
  rewrite He, Hb, Hh, Hu.
  split; [reflexivity|]. split; [apply insert_empty|].
  split; [apply lookup_insert_eq | auto].
Qed.

Lemma rejected_request_leaves_promise_unresolved_witness :
  exists fuel p w',
    run (with_infer_async (Failure "queue full") good_engine) "simple" [OptR "/models"] fuel
    = Exit 1 w' /\
    stderr_lines w' = ["error: running inference: queue full"] /\
    blocks w' = {[ p := BPromise ]}.
Proof.
  destruct (rejected_request_leaves_promise_unresolved
              (with_infer_async (Failure "queue full") good_engine) "simple"
              [OptR "/models"] "queue full")
    as (fuel & k & p & w' & Hrun & Herr & Hb & _).
  - split.
    { split; [|discriminate].
      intros [?|[]%elem_of_nil]%elem_of_cons. discriminate. }
    split; [repeat split|].
    split; [exists 0%nat; split; [lia|]; split;
            [exists true, true; repeat split | intros j Hj; lia]|].
    split; [split; [reflexivity|]; split; [eexists; reflexivity | reflexivity]|].
    exists 0%nat. split; [|intros j Hj; lia].
    split; [reflexivity|].
    exists (status_of MODEL_READY), (mkModelStatus {[ 1 := mkModelVersionStatus MODEL_READY ]}),
      (mkModelVersionStatus MODEL_READY).
    split; [reflexivity|]. split; [by vm_compute|]. split; [by vm_compute | reflexivity].
  - repeat split.
  - exists fuel, p, w'. auto.
Defined.

Section CheckValues.

Variables in0 in1 out0 out1 : list Z.
Variables name0 name1 : string.

Lemma check_values_unfold :
  check_values in0 in1 out0 out1 name0 name1 = for_each (seq 0 16) (check_element in0 in1 out0 out1 name0 name1).
Proof. reflexivity. Qed.

Lemma check_element_outcome i w :
  exists w1,
    info_count (trace w1) = (2 + info_count (trace w))%nat /\
    stderr_lines w1 = stderr_lines w /\
    check_element in0 in1 out0 out1 name0 name1 i w =
    match value_error in0 in1 out0 out1 name0 name1 i with
    | None => Ret tt w1
    | Some msg => Exit 1 (emit (EvError ("error: " +:+ msg)) w1)
    end.
Proof.
  eexists. split; [|split]; [| |unfold check_element, value_error, bind, LOG_INFO, FAIL, bind,
                                 LOG_ERROR, exit, ret;
                               destruct (negb _); [reflexivity|];
                               destruct (negb _); reflexivity].
  - reflexivity.
  - tidy_simpl. reflexivity.
Qed.

Lemma for_each_first_mismatch len n i msg w :
  (n <= i < n + len)%nat ->
  (forall j, (n <= j < i)%nat -> value_error in0 in1 out0 out1 name0 name1 j = None) ->
  value_error in0 in1 out0 out1 name0 name1 i = Some msg ->
  exists w',
    for_each (seq n len) (check_element in0 in1 out0 out1 name0 name1) w = Exit 1 w' /\
    stderr_lines w' = stderr_lines w ++ ["error: " +:+ msg] /\
    info_count (trace w') = (2 * S (i - n) + info_count (trace w))%nat.
Proof.
  revert n w. induction len as [|len IH]; intros n w Hi Hbefore Hbad; [lia|].
  cbn [seq for_each]. unfold bind at 1.
  destruct (check_element_outcome n w) as (w1 & Hc & He & ->).
  destruct (decide (i = n)) as [->|Hne].
  - rewrite Hbad. eexists. split; [reflexivity|]. tidy_simpl. rewrite He.
    split; [reflexivity|]. replace (n - n)%nat with 0%nat by lia. simpl. lia.
  - rewrite Hbefore by lia.
    destruct (IH (S n) w1) as (w' & Hrun & He' & Hc'); [lia | intros j Hj; apply Hbefore; lia
                                                      | assumption |].
    exists w'. split; [assumption|]. rewrite He', He. split; [reflexivity|].
    rewrite Hc', Hc. lia.
Qed.

End CheckValues.

(** X12. The value check stops at the first element that is wrong: the
    two lines of every element up to and including it are printed, and the
    run exits with status 1 and one diagnostic, which names the sum when
    the sum is wrong and the difference only when the sum is right. *)
Theorem check_values_reports_first_mismatch in0 in1 out0 out1 name0 name1 i msg w :
  (i < 16)%nat ->
  (forall j, (j < i)%nat -> value_error in0 in1 out0 out1 name0 name1 j = None) ->
  value_error in0 in1 out0 out1 name0 name1 i = Some msg ->
  exists w',
    check_values in0 in1 out0 out1 name0 name1 w = Exit 1 w' /\
    stderr_lines w' = stderr_lines w ++ ["error: " +:+ msg] /\
    info_count (trace w') = (2 * S i + info_count (trace w))%nat.
Proof.
  intros Hi Hbefore Hbad. rewrite check_values_unfold.
  destruct (for_each_first_mismatch in0 in1 out0 out1 name0 name1 16 0 i msg w)
    as (w' & Hrun & He & Hc); [lia | intros j Hj; apply Hbefore; lia | assumption |].
  exists w'. split; [assumption|]. split; [assumption|].
  rewrite Hc. replace (i - 0)%nat with i by lia. reflexivity.
Qed.

Lemma check_values_reports_first_mismatch_witness :
  exists w',
    check_values [5; 7] [1; 1] (tensor_bytes [6; 9]) (tensor_bytes [4; 5]) "OUTPUT0" "OUTPUT1"
      (empty_world 0) = Exit 1 w' /\
    stderr_lines w' = ["error: incorrect sum in OUTPUT0"] /\
    info_count (trace w') = 4%nat.
Proof.
  destruct (check_values_reports_first_mismatch [5; 7] [1; 1] (tensor_bytes [6; 9])
              (tensor_bytes [4; 5]) "OUTPUT0" "OUTPUT1" 1 "incorrect sum in OUTPUT0"
              (empty_world 0)) as (w' & Hrun & He & Hc).
  - lia.
  - intros j Hj. assert (j = 0%nat) as -> by lia. reflexivity.
  - reflexivity.
  - exists w'. split; [exact Hrun|]. split; [exact He | exact Hc].
Defined.

Lemma ResponseRelease_with_token buffer t s byte_size memory_type memory_type_id w :
  blocks w !! t = Some (BString s) -> valid_buffer buffer w ->
  ResponseRelease buffer (Some t) byte_size memory_type memory_type_id w
  = (None,
     mkWorld (delete t (without buffer (blocks w))) (shared w)
       (budget w + region_size buffer w) (handles w)
       (EvDeleteString t :: EvFree buffer ::
        EvInfo ("Releasing buffer " +:+ show_ptr buffer +:+ " of size " +:+
                pretty byte_size +:+ " for result '" +:+ s +:+ "'") :: trace w)
       (undefined w)).
Proof.
  intros Ht Hb. unfold ResponseRelease, read_string. rewrite Ht.
  destruct buffer as [b|]; simpl in *.
  - destruct Hb as (n & Hb). rewrite Hb. simpl.
    assert (b ≠ t) by congruence.
    unfold delete_string. simpl. rewrite lookup_delete_ne, Ht by done. reflexivity.
  - unfold delete_string. simpl. rewrite Ht. simpl. by rewrite Z.add_0_r.
Qed.

Arguments fresh_addr : simpl never.

Lemma ResponseRelease_without_token buffer byte_size memory_type memory_type_id w :
  valid_buffer buffer w ->
  ResponseRelease buffer None byte_size memory_type memory_type_id w
  = (None,
     mkWorld (without buffer (blocks w)) (shared w)
       (budget w + region_size buffer w) (handles w)
       (EvDeleteString (fresh_addr w) :: EvFree buffer ::
        EvInfo ("Releasing buffer " +:+ show_ptr buffer +:+ " of size " +:+
                pretty byte_size +:+ " for result '" +:+ "<unknown>" +:+ "'") ::
        EvNewString (fresh_addr w) "<unknown>" :: trace w)
       (undefined w)).
Proof.
  intros Hb. pose proof (fresh_addr_not_live w) as Hf.
  unfold ResponseRelease, new_string, read_string. simpl. rewrite lookup_insert_eq.
  destruct buffer as [b|]; simpl in *.
  - destruct Hb as (n & Hb). assert (fresh_addr w ≠ b) as Hne by congruence.
    rewrite lookup_insert_ne, Hb by done. simpl. unfold delete_string. simpl.
    rewrite lookup_delete_ne, lookup_insert_eq by done. simpl.
    by rewrite delete_delete, delete_insert_id.
  - unfold delete_string. simpl. rewrite lookup_insert_eq. simpl.
    by rewrite delete_insert_id, Z.add_0_r.
Qed.

Lemma ResponseAlloc_outcome tensor_name byte_size memory_type memory_type_id w :
  exists buffer token w',
    ResponseAlloc tensor_name byte_size memory_type memory_type_id w
    = (mkAllocResult buffer token None, w') /\
    blocks w' = with_block token (BString tensor_name)
                  (with_block buffer (BMalloc byte_size) (blocks w)) /\
    budget w' = budget w - match buffer with Some _ => byte_size | None => 0 end /\
    shared w' = shared w /\ handles w' = handles w /\ undefined w' = undefined w /\
    not_live buffer (blocks w) /\ not_live token (blocks w) /\
    (forall a, buffer = Some a -> token ≠ Some a) /\
    (token = None -> buffer = None) /\
    (token = None <-> byte_size ≠ 0 /\ memory_type ≠ TRTSERVER_MEMORY_CPU).
Proof.
  unfold ResponseAlloc.
  destruct (Z.eqb_spec byte_size 0) as [Hz|Hz]; cbn [orb].
  - exists None, (Some (fresh_addr w)). eexists. split; [reflexivity|]. simpl.
    repeat split; auto using fresh_addr_not_live; try lia; try discriminate; tauto.
  - case_bool_decide as Hmt; cbv iota.
    + destruct (malloc byte_size w) as [buffer w1] eqn:Hm.
      pose proof (fresh_addr_not_live w1) as Hf.
      unfold malloc in Hm. destruct (byte_size <=? budget w); injection Hm as <- <-.
      * pose proof (fresh_addr_not_live w) as Hfb.
        cbn [blocks emit set_budget set_blocks] in Hf.
        match type of Hf with _ !! fresh_addr ?w1 = _ => set (t := fresh_addr w1) in * end.
        assert (fresh_addr w ≠ t) as Hne.
        { intros Heq. rewrite <- Heq in Hf. by rewrite lookup_insert_eq in Hf. }
        exists (Some (fresh_addr w)), (Some t). eexists. split; [reflexivity|]. simpl.
        rewrite lookup_insert_ne in Hf by done.
        repeat split; auto; try discriminate; try tauto. intros a [= <-]; congruence.
      * exists None, (Some (fresh_addr w)). eexists. split; [reflexivity|]. simpl.
        repeat split; auto using fresh_addr_not_live; try lia; try discriminate; tauto.
    + exists None, None. eexists. split; [reflexivity|]. simpl.
      repeat split; auto; try lia; discriminate.
Qed.

(** X13. Releasing what [ResponseAlloc] has just handed out succeeds and
    gives back everything: for every size, memory type and heap budget the
    heap and its budget are as before the allocation, and nothing
    undefined happens. *)
Theorem alloc_then_release_restores_heap tensor_name byte_size memory_type memory_type_id w :
  let r := fst (ResponseAlloc tensor_name byte_size memory_type memory_type_id w) in
  let w1 := snd (ResponseAlloc tensor_name byte_size memory_type memory_type_id w) in
  let w2 := snd (ResponseRelease (ar_buffer r) (ar_buffer_userp r) byte_size memory_type
                   memory_type_id w1) in
  fst (ResponseRelease (ar_buffer r) (ar_buffer_userp r) byte_size memory_type
         memory_type_id w1) = None /\
  blocks w2 = blocks w /\ budget w2 = budget w /\ undefined w2 = undefined w /\
  shared w2 = shared w /\ handles w2 = handles w.
Proof.
  destruct (ResponseAlloc_outcome tensor_name byte_size memory_type memory_type_id w)
    as (buffer & token & w1 & -> & Hb & Hbud & Hs & Hh & Hu & Hnb & Hnt & Hne & Hnull & _).
  cbn [fst snd ar_buffer ar_buffer_userp].
  destruct token as [t|].
  - assert (blocks w1 !! t = Some (BString tensor_name)) as Ht.
    { rewrite Hb. apply lookup_insert_eq. }
    assert (valid_buffer buffer w1) as Hv.
    { destruct buffer as [b|]; [|exact I]. exists byte_size. rewrite Hb. simpl.
      rewrite lookup_insert_ne by (intros ->; by eapply Hne). apply lookup_insert_eq. }
    rewrite (ResponseRelease_with_token _ _ _ _ _ _ _ Ht Hv). simpl.
    split; [reflexivity|]. split; [|split; [|auto]].
    + rewrite Hb. simpl in Hnt. destruct buffer as [b|]; simpl in *.
      * assert (t ≠ b) by (intros ->; by eapply Hne).
        rewrite delete_delete.
        rewrite (delete_insert_id _ t) by (by rewrite lookup_insert_ne).
        by rewrite delete_insert_id.
      * by rewrite delete_insert_id.
    + unfold region_size. destruct buffer as [b|]; [|lia].
      destruct Hv as (n & Hn). rewrite Hb in Hn. simpl in Hn.
      rewrite lookup_insert_ne in Hn by (intros ->; by eapply Hne).
      rewrite lookup_insert_eq in Hn. injection Hn as <-.
      rewrite Hb. simpl.
      rewrite lookup_insert_ne by (intros ->; by eapply Hne).
      rewrite lookup_insert_eq. lia.
  - rewrite (Hnull eq_refl) in *. simpl in Hb.
    rewrite ResponseRelease_without_token by exact I. simpl.
    rewrite Hb. repeat split; auto. lia.
Qed.

(** X14. In the allocating branch the token carries the tensor name to
    the release: [ResponseRelease], given the buffer and the token of a
    [ResponseAlloc], logs the name the allocation was made for, frees the
    buffer and deletes the token. *)
Theorem release_shows_tensor_name tensor_name byte_size memory_type memory_type_id w :
  byte_size = 0 \/ memory_type = TRTSERVER_MEMORY_CPU ->
  let r := fst (ResponseAlloc tensor_name byte_size memory_type memory_type_id w) in
  let w1 := snd (ResponseAlloc tensor_name byte_size memory_type memory_type_id w) in
  let w2 := snd (ResponseRelease (ar_buffer r) (ar_buffer_userp r) byte_size memory_type
                   memory_type_id w1) in
  exists t,
    ar_buffer_userp r = Some t /\
    trace w2
    = EvDeleteString t :: EvFree (ar_buffer r) ::
      EvInfo ("Releasing buffer " +:+ show_ptr (ar_buffer r) +:+ " of size " +:+
              pretty byte_size +:+ " for result '" +:+ tensor_name +:+ "'") :: trace w1.
Proof.
  intros Hbranch.
  destruct (ResponseAlloc_outcome tensor_name byte_size memory_type memory_type_id w)
    as (buffer & token & w1 & -> & Hb & _ & _ & _ & _ & _ & _ & Hne & _ & Htok).
  cbn [fst snd ar_buffer ar_buffer_userp].
  destruct token as [t|]; [|destruct Htok as [Htok _]; destruct (Htok eq_refl); tauto].
  exists t. split; [reflexivity|].
  rewrite (ResponseRelease_with_token _ _ tensor_name).
  - reflexivity.
  - rewrite Hb. apply lookup_insert_eq.
  - destruct buffer as [b|]; [|exact I]. exists byte_size. rewrite Hb. simpl.
    rewrite lookup_insert_ne by (intros ->; by eapply Hne). apply lookup_insert_eq.
Qed.

Lemma release_shows_tensor_name_witness :
  exists t,
    trace (snd (ResponseRelease (Some 1%positive) (Some t) 64 TRTSERVER_MEMORY_CPU 0
                  (snd (ResponseAlloc "OUTPUT0" 64 TRTSERVER_MEMORY_CPU 0 (empty_world 1000)))))
    = EvDeleteString t :: EvFree (Some 1%positive) ::
      EvInfo "Releasing buffer @1 of size 64 for result 'OUTPUT0'" ::
      trace (snd (ResponseAlloc "OUTPUT0" 64 TRTSERVER_MEMORY_CPU 0 (empty_world 1000))).
Proof.
  destruct (release_shows_tensor_name "OUTPUT0" 64 TRTSERVER_MEMORY_CPU 0 (empty_world 1000))
    as (t & Ht & Htrace); [by right|].
  exists t. vm_compute in Ht. injection Ht as <-. exact Htrace.
Defined.

(** X15. When [malloc] fails, [ResponseAlloc] still returns success: the
    buffer is null, the token is a new string holding the tensor name, and
    the log line claims the allocation. *)
Theorem ResponseAlloc_malloc_failure tensor_name byte_size memory_type_id w :
  byte_size ≠ 0 -> budget w < byte_size ->
  ResponseAlloc tensor_name byte_size TRTSERVER_MEMORY_CPU memory_type_id w
  = (mkAllocResult None (Some (fresh_addr w)) None,
     mkWorld (<[fresh_addr w := BString tensor_name]> (blocks w)) (shared w) (budget w)
       (handles w)
       (EvInfo ("allocated " +:+ pretty byte_size +:+ " bytes for result tensor " +:+
                tensor_name) ::
        EvNewString (fresh_addr w) tensor_name :: EvMalloc byte_size None :: trace w)
       (undefined w)).
Proof.
  intros Hz Hbud. unfold ResponseAlloc, malloc.
  destruct (Z.eqb_spec byte_size 0); [contradiction|].
  destruct (Z.leb_spec byte_size (budget w)); [lia|]. reflexivity.
Qed.

Lemma ResponseAlloc_malloc_failure_witness :
  ar_buffer (fst (ResponseAlloc "OUTPUT0" 64 TRTSERVER_MEMORY_CPU 0 (empty_world 10))) = None /\
  ar_error (fst (ResponseAlloc "OUTPUT0" 64 TRTSERVER_MEMORY_CPU 0 (empty_world 10))) = None.
Proof.
  rewrite (ResponseAlloc_malloc_failure "OUTPUT0" 64 0 (empty_world 10)).
  - split; reflexivity.
  - discriminate.
  - reflexivity.
Defined.

(** X16. [ResponseAlloc] leaves every live object in place, and neither
    the buffer nor the token it hands out is the address of one. *)
Theorem ResponseAlloc_keeps_live_objects tensor_name byte_size memory_type memory_type_id w
    a b :
  blocks w !! a = Some b ->
  let r := fst (ResponseAlloc tensor_name byte_size memory_type memory_type_id w) in
  let w' := snd (ResponseAlloc tensor_name byte_size memory_type memory_type_id w) in
  blocks w' !! a = Some b /\ ar_buffer r ≠ Some a /\ ar_buffer_userp r ≠ Some a.
Proof.
  intros Ha.
  destruct (ResponseAlloc_outcome tensor_name byte_size memory_type memory_type_id w)
    as (buffer & token & w1 & -> & Hb & _ & _ & _ & _ & Hnb & Hnt & _).
  cbn [fst snd ar_buffer ar_buffer_userp].
  assert (buffer ≠ Some a) as H1 by (intros ->; simpl in Hnb; congruence).
  assert (token ≠ Some a) as H2 by (intros ->; simpl in Hnt; congruence).
  split; [|auto]. rewrite Hb.
  destruct token as [t|], buffer as [b'|]; simpl;
    rewrite ?lookup_insert_ne by congruence; assumption.
Qed.

Lemma ResponseAlloc_keeps_live_objects_witness :
  let w := snd (ResponseAlloc "OUTPUT0" 64 TRTSERVER_MEMORY_CPU 0 (empty_world 1000)) in
  blocks (snd (ResponseAlloc "OUTPUT1" 64 TRTSERVER_MEMORY_CPU 0 w)) !! 1%positive
  = Some (BMalloc 64).
Proof.
  intros w.
  apply (ResponseAlloc_keeps_live_objects "OUTPUT1" 64 TRTSERVER_MEMORY_CPU 0 w 1%positive).
  vm_compute. reflexivity.
Defined.

Lemma free_elsewhere p w a : p ≠ Some a -> blocks (free p w) !! a = blocks w !! a.
Proof.
  destruct p as [p|]; intros Hp; simpl; [|reflexivity].
  destruct (blocks w !! p) as [[| |]|]; simpl; try reflexivity.
  apply lookup_delete_ne. congruence.
Qed.

Lemma delete_string_elsewhere t w a :
  t ≠ a -> blocks (delete_string t w) !! a = blocks w !! a.
Proof.
  intros Hne. unfold delete_string.
  destruct (blocks w !! t) as [[| |]|]; simpl; try reflexivity.
  by apply lookup_delete_ne.
Qed.

(** X17. [ResponseRelease] changes the heap at most at its buffer and
    its token: every other address holds what it held. *)
Theorem ResponseRelease_touches_nothing_else buffer buffer_userp byte_size memory_type
    memory_type_id w a :
  buffer ≠ Some a -> buffer_userp ≠ Some a ->
  blocks (snd (ResponseRelease buffer buffer_userp byte_size memory_type memory_type_id w))
    !! a = blocks w !! a.
Proof.
  intros Hb Ht. unfold ResponseRelease.
  destruct buffer_userp as [t|]; cbn [snd].
  - rewrite delete_string_elsewhere by congruence. by rewrite free_elsewhere.
  - pose proof (fresh_addr_not_live w) as Hf. unfold new_string.
    cbv beta iota zeta. cbn [snd].
    destruct (decide (fresh_addr w = a)) as [<-|Hne].
    + unfold delete_string. rewrite free_elsewhere by assumption. simpl.
      rewrite lookup_insert_eq. simpl. rewrite lookup_delete_eq. by rewrite Hf.
    + rewrite delete_string_elsewhere by assumption. rewrite free_elsewhere by assumption.
      simpl. by rewrite lookup_insert_ne.
Qed.

Lemma ResponseRelease_touches_nothing_else_witness :
  let w1 := snd (ResponseAlloc "OUTPUT0" 64 TRTSERVER_MEMORY_CPU 0 (empty_world 1000)) in
  let w2 := snd (ResponseAlloc "OUTPUT1" 64 TRTSERVER_MEMORY_CPU 0 w1) in
  blocks (snd (ResponseRelease (Some 3%positive) (Some 4%positive) 64 TRTSERVER_MEMORY_CPU 0 w2))
    !! 1%positive = Some (BMalloc 64).
Proof.
  intros w1 w2.
  etrans; [apply (ResponseRelease_touches_nothing_else (Some 3%positive) (Some 4%positive)
                    64 TRTSERVER_MEMORY_CPU 0 w2 1%positive); discriminate|].
  vm_compute. reflexivity.
Defined.

Lemma emit_undefined ev w : undefined (emit ev w) = undefined w.
Proof. reflexivity. Qed.

Lemma free_keeps_undefined p w : undefined w = true -> undefined (free p w) = true.
Proof.
  intros Hu. destruct p as [p|]; simpl; [|assumption].
  by destruct (blocks w !! p) as [[| |]|].
Qed.

Lemma delete_string_not_live t w :
  (forall s, blocks w !! t ≠ Some (BString s)) -> undefined (delete_string t w) = true.
Proof.
  intros Hn. unfold delete_string.
  destruct (blocks w !! t) as [[| s |]|] eqn:Ht; try reflexivity. by destruct (Hn s).
Qed.

(** X18. A release is final: after [ResponseRelease] the token is no
    longer live, and a second release with the same arguments deletes it
    again, which is undefined. *)
Theorem ResponseRelease_twice_is_double_delete buffer t s byte_size memory_type memory_type_id
    w :
  blocks w !! t = Some (BString s) -> valid_buffer buffer w ->
  let w1 := snd (ResponseRelease buffer (Some t) byte_size memory_type memory_type_id w) in
  let w2 := snd (ResponseRelease buffer (Some t) byte_size memory_type memory_type_id w1) in
  undefined w1 = undefined w /\ blocks w1 !! t = None /\ undefined w2 = true.
Proof.
  intros Ht Hb. rewrite (ResponseRelease_with_token _ _ _ _ _ _ _ Ht Hb). cbn [snd].
  split; [reflexivity|]. split; [apply lookup_delete_eq|].
  unfold ResponseRelease. cbn [snd]. apply delete_string_not_live. intros s'.
  rewrite free_elsewhere.
  - simpl. by rewrite lookup_delete_eq.
  - intros ->. destruct Hb as (n & Hn). congruence.
Qed.

Lemma ResponseRelease_twice_is_double_delete_witness :
  let w := snd (ResponseAlloc "OUTPUT0" 64 TRTSERVER_MEMORY_CPU 0 (empty_world 1000)) in
  let w1 := snd (ResponseRelease (Some 1%positive) (Some 2%positive) 64 TRTSERVER_MEMORY_CPU 0 w) in
  undefined (snd (ResponseRelease (Some 1%positive) (Some 2%positive) 64 TRTSERVER_MEMORY_CPU 0 w1))
  = true.
Proof.
  intros w w1.
  apply (ResponseRelease_twice_is_double_delete (Some 1%positive) 2%positive "OUTPUT0" 64
           TRTSERVER_MEMORY_CPU 0 w).
  - vm_compute. reflexivity.
  - exists 64. vm_compute. reflexivity.
Defined.

(** X19. The future of line 306 delivers what the callback was given:
    before [InferComplete] runs, [completed.get()] waits; after it,
    [completed.get()] returns the response passed to the callback. *)
Theorem future_gets_callback_value response p w :
  blocks w !! p = Some BPromise -> shared w !! p = Some None ->
  future_get p w = Running w /\
  future_get p (InferComplete response p w) = Ret response (InferComplete response p w).
Proof.
  intros Hb Hs. split.
  - unfold future_get. by rewrite Hs.
  - rewrite InferComplete_spec by assumption. unfold future_get. simpl.
    by rewrite lookup_insert_eq.
Qed.

Lemma future_gets_callback_value_witness :
  let w := snd (new_promise (empty_world 0)) in
  future_get 1%positive (InferComplete (Some HResponse) 1%positive w)
  = Ret (Some HResponse) (InferComplete (Some HResponse) 1%positive w).
Proof.
  intros w.
  apply (future_gets_callback_value (Some HResponse) 1%positive w).
  - vm_compute. reflexivity.
  - vm_compute. reflexivity.
Defined.

(** X20. [InferComplete] consumes its promise: after one call the
    promise is deleted, and a second call on the same pointer uses it
    after the delete, which is undefined. *)
Theorem InferComplete_twice_uses_deleted_promise response1 response2 p w :
  blocks w !! p = Some BPromise -> shared w !! p = Some None ->
  let w1 := InferComplete response1 p w in
  let w2 := InferComplete response2 p w1 in
  undefined w1 = undefined w /\ blocks w1 !! p = None /\ undefined w2 = true.
Proof.
  intros Hb Hs. rewrite InferComplete_spec by assumption. simpl.
  split; [reflexivity|]. split; [apply lookup_delete_eq|].
  unfold InferComplete, promise_set_value, delete_promise. simpl.
  rewrite lookup_delete_eq. simpl. rewrite lookup_delete_eq. reflexivity.
Qed.

Lemma InferComplete_twice_uses_deleted_promise_witness :
  let w := snd (new_promise (empty_world 0)) in
  undefined (InferComplete None 1%positive (InferComplete (Some HResponse) 1%positive w)) = true.
Proof.
  intros w.
  apply (InferComplete_twice_uses_deleted_promise (Some HResponse) None 1%positive w).
  - vm_compute. reflexivity.
  - vm_compute. reflexivity.
Defined.

(** * Every failure ends the process *)

Lemma exits_with_line_bind {A B} (m : M A) (f : A -> M B) :
  exits_with_line m -> (forall a, exits_with_line (f a)) -> exits_with_line (bind m f).
Proof.
  intros Hm Hf w. apply sat_bind. eapply sat_mono; [apply Hm | | auto ..]. cbv beta.
  intros a w1 He1. eapply sat_mono; [apply Hf | | | auto]; cbv beta.
  - intros b w2 He2. congruence.
  - intros c w2 (-> & msg & He2). split; [reflexivity|]. exists msg. congruence.
Qed.

Lemma exits_with_line_finished {A} (m : M A) w : exits_with_line m -> finished (m w).
Proof. intros Hm. specialize (Hm w). unfold sat in Hm. by destruct (m w). Qed.

Ltac line_goal :=
  solve [ tidy_simpl; reflexivity
        | split; [reflexivity | eexists; tidy_simpl; reflexivity] ].

Ltac line_step :=
  lazymatch goal with
  | |- sat (bind _ _) _ _ _ _ => apply sat_bind
  | |- sat (FAIL_IF_ERR (ret ?r) _) _ _ _ _ =>
      apply sat_FAIL_IF_ERR_ret; destruct r as [?|?] eqn:?; [cbv beta | line_goal]
  | |- sat (FAIL_IF_ERR (call_new ?r _) _) _ _ _ _ =>
      apply sat_FAIL_IF_ERR_new; destruct r as [?|?] eqn:?; [cbv beta | line_goal]
  | |- sat (FAIL_IF_ERR (call_delete ?r _) _) _ _ _ _ =>
      apply sat_FAIL_IF_ERR_delete; destruct r as [?|?] eqn:?; [cbv beta | line_goal]
  | |- sat (LOG_INFO _) _ _ _ _ => apply sat_LOG_INFO; cbv beta
  | |- sat (sleep_for _) _ _ _ _ => apply sat_sleep_for; cbv beta
  | |- sat (FAIL _) _ _ _ _ => apply sat_FAIL; line_goal
  | |- sat (ret _) _ _ _ _ => apply sat_ret
  end.

Ltac line_steps := repeat line_step.

Section Ends.

Variable e : Engine.
Variable argv0 : string.

Lemma create_server_exits_with_line path : exits_with_line (create_server e path).
Proof. intros w. unfold create_server. line_steps. line_goal. Qed.

Lemma print_server_status_exits_with_line : exits_with_line (print_server_status e).
Proof.
  intros w. unfold print_server_status. line_steps.
  destruct a0 as [st|]; line_steps. line_goal.
Qed.

Lemma FAIL_IF_ERR_ret_exits_with_line {A} (r : Reply A) msg :
  exits_with_line (FAIL_IF_ERR (ret r) msg).
Proof. intros w. line_steps. line_goal. Qed.

Lemma check_output_placement_exits_with_line which o :
  exits_with_line (check_output_placement which o).
Proof.
  intros w. unfold check_output_placement.
  destruct (negb _); [line_steps|].
  destruct (negb _); line_steps. line_goal.
Qed.

Lemma for_each_exits_with_line {A} (l : list A) (body : A -> M unit) :
  (forall i, exits_with_line (body i)) -> exits_with_line (for_each l body).
Proof.
  intros Hbody. induction l as [|i l IH].
  - intros w. apply sat_ret. reflexivity.
  - simpl. apply exits_with_line_bind; [apply Hbody | intros _; apply IH].
Qed.

Lemma check_values_exits_with_line in0 in1 out0 out1 name0 name1 :
  exits_with_line (check_values in0 in1 out0 out1 name0 name1).
Proof.
  unfold check_values. apply for_each_exits_with_line. intros i w. line_steps.
  destruct (negb _); line_steps.
  destruct (negb _); line_steps.
  line_goal.
Qed.

Lemma check_outputs_exits_with_line : exits_with_line (check_outputs e).
Proof.
  rewrite check_outputs_eq.
  apply exits_with_line_bind; [apply FAIL_IF_ERR_ret_exits_with_line|]. intros o0.
  apply exits_with_line_bind; [apply check_output_placement_exits_with_line|]. intros _.
  apply exits_with_line_bind; [apply FAIL_IF_ERR_ret_exits_with_line|]. intros o1.
  apply exits_with_line_bind; [apply check_output_placement_exits_with_line|]. intros _.
  apply check_values_exits_with_line.
Qed.

Lemma print_response_header_exits_with_line : exits_with_line (print_response_header e).
Proof.
  intros w. unfold print_response_header. line_steps.
  destruct (negb _); line_steps. line_goal.
Qed.

Lemma teardown_exits_with_line : exits_with_line (teardown e).
Proof. intros w. unfold teardown. line_steps. line_goal. Qed.

Lemma infer_and_check_exits_with_line : exits_with_line (infer_and_check e).
Proof.
  intros w. unfold infer_and_check. apply sat_bind.
  rewrite submit_request_eq. line_steps.
  unfold sat at 1. cbn [new_promise].
  assert (forall (w0 : World) s b,
            stderr_lines (set_shared s (set_blocks b w0)) = stderr_lines w0) as Hset
    by reflexivity.
  line_steps; try (split; [reflexivity|]; eexists; tidy_simpl; rewrite Hset; tidy_simpl;
                   reflexivity).
  units.
  unfold sat at 1, engine_completes, bind at 1, acquire.
  rewrite InferComplete_spec by (world_simpl; apply lookup_insert_eq).
  apply sat_bind. unfold sat at 1, future_get. world_simpl. rewrite lookup_insert_eq.
  assert (exits_with_line (print_response_header e ;;; check_outputs e ;;; teardown e))
    as Hrest.
  { apply exits_with_line_bind; [apply print_response_header_exits_with_line|]. intros _.
    apply exits_with_line_bind; [apply check_outputs_exits_with_line|]. intros _.
    apply teardown_exits_with_line. }
  match goal with |- sat _ ?w0 _ _ _ =>
    assert (stderr_lines w0 = stderr_lines w) as He0
      by (rewrite !stderr_lines_trace; world_simpl;
          rewrite !error_lines_cons, !app_nil_r; reflexivity);
    eapply sat_mono; [apply (Hrest w0) | | | auto]
  end; cbv beta.
  - intros _ w' He'. congruence.
  - intros c w' (-> & msg & He'). split; [reflexivity|]. exists msg. congruence.
Qed.

Lemma finished_bind {A B} (m : M A) (f : A -> M B) w :
  finished (m w) -> (forall a w', m w = Ret a w' -> finished (f a w')) ->
  finished (bind m f w).
Proof. unfold bind. destruct (m w); auto. Qed.

Lemma wait_server_healthy_finishes fuel n w :
  (0 < fuel)%nat -> (10 <= n + fuel)%nat -> finished (wait_server_healthy e fuel n w).
Proof.
  revert n w. induction fuel as [|fuel IH]; intros n w Hpos Hfuel; [lia|].
  rewrite wait_server_healthy_step.
  destruct (e_is_live e n) as [live|err]; [|exact I].
  destruct (e_is_ready e n) as [ready|err]; [|exact I].
  cbv zeta. destruct (live && ready); [exact I|].
  destruct (Nat.leb_spec 10 (S n)); [exact I|].
  apply IH; lia.
Qed.

Lemma wait_model_ready_finishes k fuel n w :
  (n <= k)%nat -> (k - n < fuel)%nat -> ~ model_waiting_at e k ->
  finished (wait_model_ready e fuel n w).
Proof.
  intros Hk Hfuel Hnot. revert n w Hk Hfuel.
  induction fuel as [|fuel IH]; intros n w Hk Hfuel; [lia|].
  rewrite wait_model_ready_step.
  destruct (e_model_status e n) as [[]|err] eqn:H1; [|exact I].
  destruct (e_model_status_serialize e n) as [[st|]|err] eqn:H2; cbv zeta; [|exact I..].
  destruct (model_status st !! "simple") as [ms|] eqn:Hms; [|exact I].
  destruct (version_status ms !! 1) as [vs|] eqn:Hvs; [|exact I].
  case_bool_decide as Hst; [exact I|].
  destruct (e_model_status_delete e n) as [[]|err] eqn:Hdel; [|exact I].
  assert (model_waiting_at e n) as Hwait.
  { split; [|assumption]. exists (ready_state vs). split; [assumption|].
    split; [assumption|]. exists st, ms, vs. auto. }
  assert (n <> k) by (intros ->; contradiction).
  apply IH; lia.
Qed.

Lemma main_finishes results k fuel w :
  ~ model_waiting_at e k -> (10 <= fuel)%nat -> (k < fuel)%nat ->
  finished (main e argv0 fuel results w).
Proof.
  intros Hnot H10 Hk. unfold main.
  apply finished_bind.
  { rewrite parse_commandline_outcome. by case_bool_decide. }
  intros path w1 _. apply finished_bind.
  { case_bool_decide; [|exact I]. unfold Usage, bind, LOG_ERROR, exit, ret.
    by case_bool_decide. }
  intros _ w2 _. apply finished_bind.
  { apply exits_with_line_finished, create_server_exits_with_line. }
  intros _ w3 _. apply finished_bind.
  { apply wait_server_healthy_finishes; lia. }
  intros _ w4 _. apply finished_bind.
  { apply exits_with_line_finished, print_server_status_exits_with_line. }
  intros _ w5 _. apply finished_bind.
  { apply (wait_model_ready_finishes k); [lia | lia | assumption]. }
  intros _ w6 _. apply finished_bind.
  { apply exits_with_line_finished, infer_and_check_exits_with_line. }
  intros status w7 _. exact I.
Qed.

End Ends.

Lemma main_exits_unless_waiting e argv0 results k :
  ~ model_waiting_at e k -> ~ every_step_succeeds e results ->
  exists fuel w' msg,
    run e argv0 results fuel = Exit 1 w' /\ last (stderr_lines w') = Some msg.
Proof.
  intros Hnot Hfail. exists (S (10 + k)).
  pose proof (main_finishes e argv0 results k (S (10 + k)) (empty_world 0) Hnot
                ltac:(lia) ltac:(lia)) as Hfin.
  pose proof (run_spec e argv0 results (S (10 + k))) as Hspec.
  unfold run in *. destruct (main e argv0 (S (10 + k)) results (empty_world 0))
    as [status w'|c w'|w'].
  - destruct Hspec as (_ & Hall & _). contradiction.
  - destruct Hspec as (-> & msg & evs & Ht & _). exists w', msg.
    split; [reflexivity|]. by eapply stderr_lines_error.
  - destruct Hfin.
Qed.

Lemma check_outputs_verdict e w :
  (outputs_correct e ->
   exists w', check_outputs e w = Ret tt w' /\ stderr_lines w' = stderr_lines w) /\
  (~ outputs_correct e ->
   exists w' msg, check_outputs e w = Exit 1 w' /\
                  stderr_lines w' = stderr_lines w ++ [msg]).
Proof.
  pose proof (check_outputs_exits_with_line e w) as Hline.
  pose proof (check_outputs_region e w) as Hreg.
  unfold sat in *. split.
  - intros Hok. destruct (check_outputs_returns e Hok w) as (w' & Hw').
    rewrite Hw' in Hline. eauto.
  - intros Hbad. destruct (check_outputs e w) as [[] w'|c w'|w'].
    + destruct Hreg as (Hok & _). contradiction.
    + destruct Hline as (-> & msg & He). eauto.
    + destruct Hline.
Qed.

Lemma ready_poll_not_waiting e k : model_state_at e k MODEL_READY -> ~ model_waiting_at e k.
Proof.
  intros (_ & st & ms & vs & H2 & Hms & Hvs & Hst)
         ((s & Hs & _ & st' & ms' & vs' & H2' & Hms' & Hvs' & Hst') & _).
  congruence.
Qed.

(** C4. The inputs are [0..15] and sixteen ones. When the process ends
    with status 0, both outputs were delivered as 64 bytes of host memory
    and hold, element by element, the sum and the difference of the
    inputs; when they do not, a process that ends, ends with status 1.
    The check itself always ends: on outputs as described it returns
    without a line on the error stream, on any other answer of the engine
    (an error, a wrong size, memory that is not the host's, a wrong
    element) it exits with status 1 and one more line on the error stream.
    And the process does end then: unless every poll of the model finds it
    not ready, some run exits with status 1 after a diagnostic. *)
Theorem outputs_checked e argv0 results :
  init_input_data
  = ([0; 1; 2; 3; 4; 5; 6; 7; 8; 9; 10; 11; 12; 13; 14; 15], replicate 16 1) /\
  (forall fuel c,
     exit_status (run e argv0 results fuel) id = Some c ->
     (c = 0 -> outputs_correct e) /\ (~ outputs_correct e -> c = 1)) /\
  (forall w,
     (outputs_correct e ->
      exists w', check_outputs e w = Ret tt w' /\ stderr_lines w' = stderr_lines w) /\
     (~ outputs_correct e ->
      exists w' msg, check_outputs e w = Exit 1 w' /\
                     stderr_lines w' = stderr_lines w ++ [msg])) /\
  (forall k,
     ~ model_waiting_at e k -> ~ outputs_correct e ->
     exists fuel w' msg,
       run e argv0 results fuel = Exit 1 w' /\ last (stderr_lines w') = Some msg).
Proof.
  split; [reflexivity|]. split; [|split].
  - intros fuel c Hc. pose proof (run_spec e argv0 results fuel) as H.
    destruct (run e argv0 results fuel) as [status w'|c' w'|w']; simpl in Hc;
      [| |discriminate].
    + destruct H as (-> & Hall & _). injection Hc as <-.
      destruct Hall as (_ & _ & _ & _ & _ & _ & _ & Hout & _).
      split; [auto | contradiction].
    + destruct H as (-> & _). injection Hc as <-. split; [discriminate | reflexivity].
  - intros w. apply check_outputs_verdict.
  - intros k Hnot Hbad. apply (main_exits_unless_waiting e argv0 results k Hnot).
    intros (_ & _ & _ & _ & _ & _ & _ & Hout & _). contradiction.
Qed.

Lemma outputs_checked_witness :
  outputs_correct good_engine /\
  (exists w' msg,
     check_outputs misplaced_output_engine (empty_world 0) = Exit 1 w' /\
     stderr_lines w' = [msg]) /\
  (exists fuel w' msg,
     run misplaced_output_engine "simple" [OptR "/models"] fuel = Exit 1 w' /\
     last (stderr_lines w') = Some msg).
Proof.
  split; [|split].
  - apply (proj1 (proj2 (outputs_checked good_engine "simple" [OptR "/models"])) 1%nat 0).
    + vm_compute. reflexivity.
    + reflexivity.
  - apply (proj2 (proj1 (proj2 (proj2 (outputs_checked misplaced_output_engine "simple"
                                         [OptR "/models"]))) (empty_world 0))).
    intros (o0 & o1 & H0 & _ & Hsz & _). injection H0 as <-. vm_compute in Hsz.
    discriminate.
  - apply (proj2 (proj2 (proj2 (outputs_checked misplaced_output_engine "simple"
                                  [OptR "/models"]))) 0%nat).
    + apply ready_poll_not_waiting. split; [reflexivity|].
      exists (status_of MODEL_READY),
        (mkModelStatus {[ 1 := mkModelVersionStatus MODEL_READY ]}),
        (mkModelVersionStatus MODEL_READY).
      split; [reflexivity|]. split; [by vm_compute|]. split; [by vm_compute | reflexivity].
    + intros (o0 & o1 & H0 & _ & Hsz & _). injection H0 as <-. vm_compute in Hsz.
      discriminate.
Defined.

(** C7, amended. Some run of the process ends with status 0 exactly when
    every step main checks succeeds: the arguments, the start of the
    server, its health within ten polls, the model ready at some poll, the
    submission, the status and header of the response, the correctness of
    the outputs, and the deletes main checks. A process that ends, ends with
    status 0 or 1; with 1 exactly when one of these steps failed, and then
    the last thing it did was to write a line to the error stream. And
    every failure but one does end the process: when one of these steps
    fails, then, unless every poll of the model finds it not ready and gets
    its protobuf deleted, some run exits with status 1 after a diagnostic.
    An error of [TRTSERVER_ServerDelete], which the deleter of the
    [shared_ptr] drops, is no such step. *)
Theorem exit_status_iff e argv0 results :
  ((exists fuel w', run e argv0 results fuel = Ret 0 w') <-> every_step_succeeds e results) /\
  (forall fuel c,
     exit_status (run e argv0 results fuel) id = Some c ->
     (c = 0 /\ every_step_succeeds e results) \/
     (c = 1 /\ ~ every_step_succeeds e results /\
      exists msg, last (stderr_lines (final_world (run e argv0 results fuel))) = Some msg)) /\
  (forall k,
     ~ model_waiting_at e k -> ~ every_step_succeeds e results ->
     exists fuel w' msg,
       run e argv0 results fuel = Exit 1 w' /\ last (stderr_lines w') = Some msg).
Proof.
  split; [split|split].
  - intros (fuel & w' & Hrun). pose proof (run_spec e argv0 results fuel) as H.
    rewrite Hrun in H. by destruct H as (_ & Hall & _).
  - intros Hall. destruct (main_returns e argv0 results Hall) as (fuel & Hret).
    destruct (Hret (empty_world 0)) as (w' & Hw'). by exists fuel, w'.
  - intros fuel c Hc. pose proof (run_spec e argv0 results fuel) as H.
    destruct (run e argv0 results fuel) as [status w'|c' w'|w'] eqn:Hrun;
      simpl in Hc; [| |discriminate].
    + destruct H as (-> & Hall & _). injection Hc as <-. by left.
    + destruct H as (-> & msg & evs & Ht & _). injection Hc as <-. right.
      split; [reflexivity|]. split.
      * intros Hall. destruct (main_returns e argv0 results Hall) as (fuel0 & Hret).
        destruct (Hret (empty_world 0)) as (w0 & Hw0).
        pose proof (main_never_running_twice e argv0 results fuel fuel0 (empty_world 0))
          as Hsame.
        unfold run in Hrun. rewrite Hrun, Hw0 in Hsame.
        specialize (Hsame I I). discriminate.
      * exists msg. simpl. by eapply stderr_lines_error.
  - intros k. apply main_exits_unless_waiting.
Qed.

Lemma exit_status_iff_witness :
  every_step_succeeds good_engine [OptR "/models"] /\
  (exists fuel w' msg,
     run good_engine "simple" [] fuel = Exit 1 w' /\ last (stderr_lines w') = Some msg).
Proof.
  split.
  - apply (proj1 (proj1 (exit_status_iff good_engine "simple" [OptR "/models"]))).
    exists 1%nat, (final_world (run good_engine "simple" [OptR "/models"] 1)).
    vm_compute. reflexivity.
  - apply (proj2 (proj2 (exit_status_iff good_engine "simple" [])) 0%nat).
    + apply ready_poll_not_waiting. split; [reflexivity|].
      exists (status_of MODEL_READY),
        (mkModelStatus {[ 1 := mkModelVersionStatus MODEL_READY ]}),
        (mkModelVersionStatus MODEL_READY).
      split; [reflexivity|]. split; [by vm_compute|]. split; [by vm_compute | reflexivity].
    + intros ((_ & Hpath) & _). apply Hpath. reflexivity.
Defined.
